(** * ai-writer: the orchestration pipeline, the usage ledger and the renderer

    A shallow embedding of [writeArticle] (orchestration/index.ts),
    [calculateUsage] (utils/calculateUsage.ts) and
    [applyEditsAndGenerateMarkdown] (utils/applyEdits.ts), with the data
    types of types/agent.ts.

    Conventions.
    - A JavaScript string is a [string]; [===] on strings is [String.eqb].
    - A JavaScript array is a [list]; an optional field is an [option].
    - Token counts are [N]; money is an exact rational [Q] (the rounding
      of IEEE doubles is abstracted away), compared with [==].
    - [console.log], [chalk] and the [fs.writeFileSync] snapshots are left
      out: they never feed a value back into the pipeline. *)

From Stdlib Require Import String Ascii List Arith Bool Lia NArith ZArith QArith.
From Stdlib Require Import Permutation.
From Equations Require Import Equations.
Import ListNotations.

Local Close Scope Q_scope.
Local Open Scope nat_scope.
Local Open Scope list_scope.
Local Open Scope string_scope.

Set Implicit Arguments.

(** ** Data model (types/agent.ts) *)

(** The keys of the usage ledger, [Exclude<AgentRole, 'RESEARCHER'>]: a
    researcher call has no record of its own, its usage is nested in the
    record of the agent that invoked it. *)
Inductive AgentRole : Type :=
| OUTLINER
| CONTENT_STRATEGIST
| WRITER
| EDITOR
| EDITOR_IN_CHIEF.

Definition AgentRole_eqb (a b : AgentRole) : bool :=
  match a, b with
  | OUTLINER, OUTLINER
  | CONTENT_STRATEGIST, CONTENT_STRATEGIST
  | WRITER, WRITER
  | EDITOR, EDITOR
  | EDITOR_IN_CHIEF, EDITOR_IN_CHIEF => true
  | _, _ => false
  end.

Record OutlineSubSection : Type := {
  sub_heading : string;
  sub_level : nat
}.

Record OutlineSection : Type := {
  os_heading : string;
  os_level : nat;
  os_subSections : option (list OutlineSubSection)
}.

Record ArticleOutline : Type := {
  ao_title : string;
  ao_sections : list OutlineSection
}.

Record Reference : Type := {
  ref_title : string;
  ref_url : string
}.

Record SectionPlan : Type := {
  sp_heading : string;
  sp_keyPoints : list string;
  sp_references : option (list Reference)
}.

Record SectionContent : Type := {
  sc_heading : string;
  sc_content : string;
  sc_references : option (list Reference)
}.

Record SectionFeedback : Type := {
  approved : bool;
  feedback : list string
}.

Inductive Priority : Type := HIGH | MEDIUM | LOW.

Record ProposedEdit : Type := {
  sectionHeading : string;
  originalText : string;
  pe_feedback : string;
  newText : string;
  priority : Priority
}.

Record LanguageModelUsage : Type := {
  promptTokens : N;
  completionTokens : N;
  totalTokens : N
}.

Record AgentUsage : Type := {
  agentUsage : option LanguageModelUsage;
  researcherUsages : option (list LanguageModelUsage)
}.

Record ArticleInput : Type := {
  subject : string;
  customInstructions : option string
}.

(** ** String.prototype.replace with a string pattern (ECMA-262)

    [sectionContent.replace(edit.originalText, edit.newText)] is called
    with two strings.  The built-in then
    - looks for the first occurrence of the pattern (StringIndexOf from 0),
    - returns the receiver unchanged when there is none,
    - otherwise returns preceding + GetSubstitution(...) + following,
      where GetSubstitution expands the dollar patterns of the
      replacement template. *)

Module JsString.

Definition nl : string := String "010"%char EmptyString.

(** [stripPrefix p s] is [Some r] exactly when [s = p ++ r]. *)
Fixpoint stripPrefix (p s : string) : option string :=
  match p with
  | EmptyString => Some s
  | String a p' =>
      match s with
      | EmptyString => None
      | String b s' => if Ascii.eqb a b then stripPrefix p' s' else None
      end
  end.

(** StringIndexOf(string, searchString, 0) together with the two
    substrings taken around the match: [Some (preceding, following)]
    for the first occurrence, [None] when the pattern does not occur. *)
Fixpoint splitAtFirst (pat s : string) : option (string * string) :=
  match stripPrefix pat s with
  | Some following => Some (EmptyString, following)
  | None =>
      match s with
      | EmptyString => None
      | String c s' =>
          match splitAtFirst pat s' with
          | Some (preceding, following) => Some (String c preceding, following)
          | None => None
          end
      end
  end.

(** GetSubstitution with no captures and no named captures: only
    [$$], [$&], [$`] and [$'] are references; a dollar followed by
    digits or by [<] stays as it is written. *)
Fixpoint GetSubstitution (matched preceding following template : string)
  : string :=
  match template with
  | EmptyString => EmptyString
  | String c rest =>
      if Ascii.eqb c "$"%char then
        match rest with
        | EmptyString => String c EmptyString
        | String d rest' =>
            if Ascii.eqb d "$"%char then
              String "$"%char (GetSubstitution matched preceding following rest')
            else if Ascii.eqb d "`"%char then
              preceding ++ GetSubstitution matched preceding following rest'
            else if Ascii.eqb d "&"%char then
              matched ++ GetSubstitution matched preceding following rest'
            else if Ascii.eqb d "'"%char then
              following ++ GetSubstitution matched preceding following rest'
            else
              String c (GetSubstitution matched preceding following rest)
        end
      else String c (GetSubstitution matched preceding following rest)
  end.

Definition replace (s searchValue replaceValue : string) : string :=
  match splitAtFirst searchValue s with
  | None => s
  | Some (preceding, following) =>
      preceding
      ++ GetSubstitution searchValue preceding following replaceValue
      ++ following
  end.

(** [s] contains [pat] as a substring. *)
Definition includes (s pat : string) : Prop :=
  exists preceding following, s = preceding ++ pat ++ following.

(** [preceding ++ pat ++ following] is the split of [s] at the first
    occurrence of [pat]: no occurrence starts further left. *)
Definition firstOccurrence (s pat preceding following : string) : Prop :=
  s = preceding ++ pat ++ following /\
  forall p f, s = p ++ pat ++ f -> String.length preceding <= String.length p.

(** The template holds no dollar sign. *)
Fixpoint dollarFree (t : string) : bool :=
  match t with
  | EmptyString => true
  | String c rest => negb (Ascii.eqb c "$"%char) && dollarFree rest
  end.

End JsString.

(** ** utils/applyEdits.ts *)

(** The inner loop over [proposedEdits] for one section: the running
    value of [sectionContent]. *)
Definition applyEdit (heading : string) (sectionContent : string)
  (edit : ProposedEdit) : string :=
  if String.eqb (sectionHeading edit) heading
  then JsString.replace sectionContent (originalText edit) (newText edit)
  else sectionContent.

Definition editedContent (section : SectionContent)
  (proposedEdits : list ProposedEdit) : string :=
  fold_left (applyEdit (sc_heading section)) proposedEdits (sc_content section).

(** One turn of the loop over [sections]: [markdown += ...]. *)
Definition renderSection (proposedEdits : list ProposedEdit)
  (markdown : string) (section : SectionContent) : string :=
  markdown ++ "## " ++ sc_heading section ++ JsString.nl ++ JsString.nl
    ++ editedContent section proposedEdits ++ JsString.nl ++ JsString.nl.

Definition renderFeedback (markdown : string) (fb : string) : string :=
  markdown ++ "- " ++ fb ++ JsString.nl.

Definition renderReference (markdown : string) (ref : Reference) : string :=
  markdown ++ "- [" ++ ref_title ref ++ "](" ++ ref_url ref ++ ")" ++ JsString.nl.

Definition referencesOf (s : SectionContent) : list Reference :=
  match sc_references s with
  | Some refs => refs
  | None => []
  end.

Definition applyEditsAndGenerateMarkdown (title : string)
  (sections : list SectionContent) (proposedEdits : list ProposedEdit)
  (globalFeedback : list string) : string :=
  let markdown := "# " ++ title ++ JsString.nl ++ JsString.nl in
  let markdown := fold_left (renderSection proposedEdits) sections markdown in
  let markdown :=
    if (0 <? List.length globalFeedback)%nat then
      fold_left renderFeedback globalFeedback
        (markdown ++ "## Editorial Notes" ++ JsString.nl ++ JsString.nl)
      ++ JsString.nl
    else markdown in
  let allReferences := flat_map referencesOf sections in
  let markdown :=
    if (0 <? List.length allReferences)%nat then
      fold_left renderReference allReferences
        (markdown ++ "## References" ++ JsString.nl ++ JsString.nl)
      ++ JsString.nl
    else markdown in
  markdown.

(** ** Agent interfaces (AgentIO in types/agent.ts) *)

Record OutlinerInput : Type := {
  oi_subject : string;
  oi_customInstructions : option string
}.

Record OutlinerOutput : Type := {
  outline : ArticleOutline;
  oo_usage : AgentUsage
}.

Record ContentStrategistInput : Type := {
  csi_outline : ArticleOutline;
  csi_section : OutlineSection;
  csi_customInstructions : option string;
  previousStrategies : option (list SectionPlan)
}.

Record ContentStrategistOutput : Type := {
  plan : SectionPlan;
  cso_usage : AgentUsage
}.

(** The value of [currentFeedback] in the revision loop. *)
Record WriterFeedback : Type := {
  previousContent : SectionContent;
  editorFeedback : SectionFeedback
}.

Record WriterInput : Type := {
  wi_plan : SectionPlan;
  wi_customInstructions : option string;
  wi_feedback : option WriterFeedback
}.

Record WriterOutput : Type := {
  content : SectionContent;
  responseToEditorFeedback : option string;
  wo_usage : AgentUsage
}.

Record EditorFeedback : Type := {
  ef_previousContent : SectionContent;
  previousFeedback : SectionFeedback;
  writerResponse : option string
}.

Record EditorInput : Type := {
  ei_content : SectionContent;
  ei_customInstructions : option string;
  ei_feedback : option EditorFeedback
}.

Record EditorOutput : Type := {
  eo_feedback : SectionFeedback;
  eo_usage : AgentUsage
}.

Record WriterBundle : Type := {
  wb_outline : ArticleOutline;
  wb_contentStrategy : list SectionPlan;
  wb_sections : list SectionContent
}.

Record EditorInChiefInput : Type := {
  userInput : ArticleInput;
  writerOutput : WriterBundle
}.

Record EditorInChiefOutput : Type := {
  finalArticleTitle : string;
  globalFeedback : list string;
  proposedEdits : list ProposedEdit;
  eic_usage : AgentUsage
}.

(** ** Promises and asynchronous code

    An [async] function body is a tree of the statements that touch the
    outside: [await agent.run(input)] and [usages.ROLE.push(usage)].
    No [try] surrounds an [await] inside the bodies below, so a rejected
    call always unwinds the body; the continuation of an [Await] only
    takes the fulfilled value. *)

Definition Error : Type := string.

Inductive Settled (A : Type) : Type :=
| Fulfilled (a : A)
| Rejected (e : Error).

Arguments Fulfilled {A} a.
Arguments Rejected {A} e.

Inductive Call : Type :=
| OutlinerRun (i : OutlinerInput)
| ContentStrategistRun (i : ContentStrategistInput)
| WriterRun (i : WriterInput)
| EditorRun (i : EditorInput)
| EditorInChiefRun (i : EditorInChiefInput).

Definition Output (c : Call) : Type :=
  match c with
  | OutlinerRun _ => OutlinerOutput
  | ContentStrategistRun _ => ContentStrategistOutput
  | WriterRun _ => WriterOutput
  | EditorRun _ => EditorOutput
  | EditorInChiefRun _ => EditorInChiefOutput
  end.

Definition roleOf (c : Call) : AgentRole :=
  match c with
  | OutlinerRun _ => OUTLINER
  | ContentStrategistRun _ => CONTENT_STRATEGIST
  | WriterRun _ => WRITER
  | EditorRun _ => EDITOR
  | EditorInChiefRun _ => EDITOR_IN_CHIEF
  end.

Inductive Async (A : Type) : Type :=
| Ret (a : A)
| Throw (e : Error)
| Push (r : AgentRole) (u : AgentUsage) (k : Async A)
| Await (c : Call) (k : Output c -> Async A).

Arguments Ret {A} a.
Arguments Throw {A} e.
Arguments Push {A} r u k.
Arguments Await {A} c k.

Fixpoint bind {A B : Type} (t : Async A) (f : A -> Async B) : Async B :=
  match t with
  | Ret a => f a
  | Throw e => Throw e
  | Push r u k => Push r u (bind k f)
  | Await c k => Await c (fun o => bind (k o) f)
  end.

Notation "'let*' x ':=' t 'in' k" := (bind t (fun x => k))
  (at level 10, x pattern, t at level 100, k at level 200).
Notation "'await!' x ':=' c 'in' k" := (Await c (fun x => k))
  (at level 10, x name, c at level 100, k at level 200).

(** ** orchestration/index.ts: writeArticle *)

Definition MAX_ITERATIONS : nat := 3.

(** The local variables of one section's callback (lines 84-92). *)
Record LoopState : Type := {
  isApproved : bool;
  iterations : nat;
  currentContent : option SectionContent;
  currentFeedback : option WriterFeedback
}.

Definition inspect {A : Type} (a : A) : { b : A | a = b } :=
  exist _ a eq_refl.

(** Lines 94-140: [while (!isApproved && iterations < MAX_ITERATIONS)].
    The loop is recursive on [MAX_ITERATIONS - iterations]. *)
Equations? revisionLoop (input : ArticleInput) (sectionPlan : SectionPlan)
  (st : LoopState) : Async LoopState
  by wf (MAX_ITERATIONS - iterations st) lt :=
revisionLoop input sectionPlan st
  with inspect (negb (isApproved st) && (iterations st <? MAX_ITERATIONS)%nat) := {
  | exist _ true Hcond =>
      let iterations' := S (iterations st) in
      await! writerResult :=
        WriterRun {| wi_plan := sectionPlan;
                     wi_customInstructions := customInstructions input;
                     wi_feedback := currentFeedback st |} in
      Push WRITER (wo_usage writerResult)
      (let currentContent' := content writerResult in
       await! editorOut :=
         EditorRun {| ei_content := currentContent';
                      ei_customInstructions := customInstructions input;
                      ei_feedback :=
                        match currentFeedback st with
                        | Some fb =>
                            Some {| ef_previousContent := previousContent fb;
                                    previousFeedback := editorFeedback fb;
                                    writerResponse :=
                                      responseToEditorFeedback writerResult |}
                        | None => None
                        end |} in
       Push EDITOR (eo_usage editorOut)
       (let editorResult := eo_feedback editorOut in
        let isApproved' := approved editorResult in
        let currentFeedback' :=
          if isApproved' then currentFeedback st
          else if (iterations' <? MAX_ITERATIONS)%nat then
            Some {| previousContent := currentContent';
                    editorFeedback := editorResult |}
          else currentFeedback st in
        revisionLoop input sectionPlan
          {| isApproved := isApproved';
             iterations := iterations';
             currentContent := Some currentContent';
             currentFeedback := currentFeedback' |}))
  | exist _ false _ => Ret st }.
Proof.
  apply andb_true_iff in Hcond. destruct Hcond as [_ Hlt].
  apply Nat.ltb_lt in Hlt. unfold MAX_ITERATIONS in Hlt.
  destruct (iterations st) as [|[|[|n]]]; lia.
Qed.

(** Lines 81-151: the callback mapped over [contentStrategy]. *)
Definition sectionTask (input : ArticleInput) (sectionPlan : SectionPlan)
  : Async SectionContent :=
  let* st := revisionLoop input sectionPlan
               {| isApproved := false;
                  iterations := 0;
                  currentContent := None;
                  currentFeedback := None |} in
  match currentContent st with
  | Some c => Ret c
  | None =>
      Throw ("Failed to generate content for section: " ++ sp_heading sectionPlan)
  end.

(** Lines 48-71: [for (const section of articleOutline.sections)].
    [contentStrategy] is the array built so far.  The agent reads its
    [previousStrategies] argument while it builds the prompt, before its
    first [await] (contentStrategist.ts, lines 74-116), so what it sees is
    the array as it stands when the call is made. *)
Fixpoint strategyLoop (input : ArticleInput) (articleOutline : ArticleOutline)
  (sections : list OutlineSection) (contentStrategy : list SectionPlan)
  : Async (list SectionPlan) :=
  match sections with
  | [] => Ret contentStrategy
  | section :: rest =>
      await! out :=
        ContentStrategistRun
          {| csi_outline := articleOutline;
             csi_section := section;
             csi_customInstructions := customInstructions input;
             previousStrategies := Some contentStrategy |} in
      Push CONTENT_STRATEGIST (cso_usage out)
        (strategyLoop input articleOutline rest
           (contentStrategy ++ [plan out])%list)
  end.

(** Lines 35-72: phase 1 (outline) and phase 2 (strategy). *)
Definition planningPhases (input : ArticleInput)
  : Async (ArticleOutline * list SectionPlan) :=
  await! out :=
    OutlinerRun {| oi_subject := subject input;
                   oi_customInstructions := customInstructions input |} in
  Push OUTLINER (oo_usage out)
    (let articleOutline := outline out in
     let* contentStrategy :=
       strategyLoop input articleOutline (ao_sections articleOutline) [] in
     Ret (articleOutline, contentStrategy)).

(** Lines 158-185: phase 4 (final review) and phase 5 (rendering). *)
Definition finalPhases (input : ArticleInput) (articleOutline : ArticleOutline)
  (contentStrategy : list SectionPlan) (sectionContents : list SectionContent)
  : Async string :=
  await! review :=
    EditorInChiefRun
      {| userInput := input;
         writerOutput := {| wb_outline := articleOutline;
                            wb_contentStrategy := contentStrategy;
                            wb_sections := sectionContents |} |} in
  Push EDITOR_IN_CHIEF (eic_usage review)
    (Ret (applyEditsAndGenerateMarkdown (finalArticleTitle review)
            sectionContents (proposedEdits review) (globalFeedback review))).

(** ** The environment: stub agents and the scheduler

    The generative agents are external.  A run is taken against stub
    agents that may answer every call differently: a stub sees its input,
    the index of the section task that calls it (the main flow calls with
    0) and how many calls that caller has already made to the same role.
    Each answer is a fulfilled output or a rejection. *)

Record Agents : Type := {
  outliner_run : OutlinerInput -> Settled OutlinerOutput;
  contentStrategist_run :
    nat -> ContentStrategistInput -> Settled ContentStrategistOutput;
  writer_run : nat -> nat -> WriterInput -> Settled WriterOutput;
  editor_run : nat -> nat -> EditorInput -> Settled EditorOutput;
  editorInChief_run : EditorInChiefInput -> Settled EditorInChiefOutput
}.

Definition ask (env : Agents) (who n : nat) (c : Call) : Settled (Output c) :=
  match c with
  | OutlinerRun i => outliner_run env i
  | ContentStrategistRun i => contentStrategist_run env n i
  | WriterRun i => writer_run env who n i
  | EditorRun i => editor_run env who n i
  | EditorInChiefRun i => editorInChief_run env i
  end.

(** What a run leaves behind, in the order it happened: the agent calls
    that completed (caller, call, answer) and the pushes on [usages]. *)
Inductive Event : Type :=
| Called (who : nat) (c : Call) (reply : Settled (Output c))
| Pushed (r : AgentRole) (u : AgentUsage).

Definition countRole (r : AgentRole) (hist : list AgentRole) : nat :=
  List.length (filter (AgentRole_eqb r) hist).

(** Running one body alone, from start to end.  [hist] lists the roles
    the caller has called so far. *)
Fixpoint exec {A : Type} (env : Agents) (who : nat) (hist : list AgentRole)
  (t : Async A) : Settled A * list Event :=
  match t with
  | Ret a => (Fulfilled a, [])
  | Throw e => (Rejected e, [])
  | Push r u k =>
      let '(res, tr) := exec env who hist k in (res, Pushed r u :: tr)
  | Await c k =>
      let reply := ask env who (countRole (roleOf c) hist) c in
      match reply with
      | Fulfilled o =>
          let '(res, tr) := exec env who (roleOf c :: hist) (k o) in
          (res, Called who c reply :: tr)
      | Rejected e => (Rejected e, [Called who c reply])
      end
  end.

(** *** Promise.all over async callbacks

    [array.map(async ...)] starts every callback in index order; each runs
    up to its first [await].  After that, one pending call completes at a
    time and its callback runs on to its next [await], to its [return] or
    to a [throw].  Promise.all stores the value of the callback with index
    [i] in slot [i] of [values], is fulfilled with [values] once every
    slot is filled, and is rejected by the first callback that throws. *)

Record Thread (A : Type) : Type := {
  prog : Async A;
  hist : list AgentRole
}.

Arguments prog {A} t.
Arguments hist {A} t.

Inductive AllOutcome (A : Type) : Type :=
| AllFulfilled (values : list A)
| FirstRejected (e : Error)
| Unsettled.

Arguments AllFulfilled {A} values.
Arguments FirstRejected {A} e.
Arguments Unsettled {A}.

(** Synchronous code up to the next [await], [return] or [throw]. *)
Fixpoint settle {A : Type} (t : Async A) : Async A * list Event :=
  match t with
  | Push r u k => let '(t', tr) := settle k in (t', Pushed r u :: tr)
  | _ => (t, [])
  end.

Definition isPending {A : Type} (th : Thread A) : bool :=
  match prog th with
  | Await _ _ => true
  | _ => false
  end.

(** The pending call of [th] completes. *)
Definition resume {A : Type} (env : Agents) (who : nat) (th : Thread A)
  : Thread A * list Event :=
  match prog th with
  | Await c k =>
      let reply := ask env who (countRole (roleOf c) (hist th)) c in
      match reply with
      | Fulfilled o =>
          let '(t', tr) := settle (k o) in
          ({| prog := t'; hist := roleOf c :: hist th |},
           Called who c reply :: tr)
      | Rejected e =>
          ({| prog := Throw e; hist := roleOf c :: hist th |},
           [Called who c reply])
      end
  | _ => (th, [])
  end.

Fixpoint updateAt {X : Type} (i : nat) (x : X) (l : list X) : list X :=
  match l with
  | [] => []
  | y :: l' =>
      match i with
      | 0 => x :: l'
      | S i' => y :: updateAt i' x l'
      end
  end.

Fixpoint pendingFrom {A : Type} (i : nat) (threads : list (Thread A))
  : list nat :=
  match threads with
  | [] => []
  | th :: rest =>
      if isPending th then i :: pendingFrom (S i) rest
      else pendingFrom (S i) rest
  end.

Fixpoint allSome {X : Type} (l : list (option X)) : option (list X) :=
  match l with
  | [] => Some []
  | None :: _ => None
  | Some x :: l' =>
      match allSome l' with
      | Some xs => Some (x :: xs)
      | None => None
      end
  end.

(** The scheduler: [choice], taken modulo the number of calls in flight,
    names the pending call that completes next. *)
Definition pick {A : Type} (choice : nat) (threads : list (Thread A))
  : option nat :=
  let pending := pendingFrom 0 threads in
  nth_error pending (choice mod List.length pending).

(** [sched] is the completion order, one choice per completed call. *)
Fixpoint poolLoop {A : Type} (env : Agents) (sched : list nat)
  (threads : list (Thread A)) (values : list (option A))
  : AllOutcome A * list Event :=
  match sched with
  | [] => (Unsettled, [])
  | choice :: sched' =>
      match pick choice threads with
      | None => (Unsettled, [])
      | Some i =>
          match nth_error threads i with
          | None => (Unsettled, [])
          | Some th =>
              let '(th', tr) := resume env i th in
              let threads' := updateAt i th' threads in
              match prog th' with
              | Throw e => (FirstRejected e, tr)
              | Ret v =>
                  let values' := updateAt i (Some v) values in
                  match allSome values' with
                  | Some vs => (AllFulfilled vs, tr)
                  | None =>
                      let '(res, tr') := poolLoop env sched' threads' values' in
                      (res, (tr ++ tr')%list)
                  end
              | _ =>
                  let '(res, tr') := poolLoop env sched' threads' values in
                  (res, (tr ++ tr')%list)
              end
          end
      end
  end.

Fixpoint startAll {A : Type} (tasks : list (Async A))
  : list (Thread A) * list Event :=
  match tasks with
  | [] => ([], [])
  | t :: rest =>
      let '(t', tr) := settle t in
      let '(ths, tr') := startAll rest in
      ({| prog := t'; hist := [] |} :: ths, (tr ++ tr')%list)
  end.

Fixpoint firstThrown {A : Type} (threads : list (Thread A)) : option Error :=
  match threads with
  | [] => None
  | th :: rest =>
      match prog th with
      | Throw e => Some e
      | _ => firstThrown rest
      end
  end.

Definition returned {A : Type} (th : Thread A) : option A :=
  match prog th with
  | Ret v => Some v
  | _ => None
  end.

Definition promiseAll {A : Type} (env : Agents) (sched : list nat)
  (tasks : list (Async A)) : AllOutcome A * list Event :=
  let '(threads, tr) := startAll tasks in
  match firstThrown threads with
  | Some e => (FirstRejected e, tr)
  | None =>
      let values := map returned threads in
      match allSome values with
      | Some vs => (AllFulfilled vs, tr)
      | None =>
          let '(res, tr') := poolLoop env sched threads values in
          (res, (tr ++ tr')%list)
      end
  end.

(** ** The usage ledger (lines 21-27) *)

Record Usages : Type := {
  uOUTLINER : list AgentUsage;
  uCONTENT_STRATEGIST : list AgentUsage;
  uWRITER : list AgentUsage;
  uEDITOR : list AgentUsage;
  uEDITOR_IN_CHIEF : list AgentUsage
}.

Definition emptyUsages : Usages :=
  {| uOUTLINER := []; uCONTENT_STRATEGIST := []; uWRITER := [];
     uEDITOR := []; uEDITOR_IN_CHIEF := [] |}.

(** [usages.ROLE.push(u)] *)
Definition push (r : AgentRole) (u : AgentUsage) (us : Usages) : Usages :=
  match r with
  | OUTLINER =>
      {| uOUTLINER := (uOUTLINER us ++ [u])%list;
         uCONTENT_STRATEGIST := uCONTENT_STRATEGIST us;
         uWRITER := uWRITER us; uEDITOR := uEDITOR us;
         uEDITOR_IN_CHIEF := uEDITOR_IN_CHIEF us |}
  | CONTENT_STRATEGIST =>
      {| uOUTLINER := uOUTLINER us;
         uCONTENT_STRATEGIST := (uCONTENT_STRATEGIST us ++ [u])%list;
         uWRITER := uWRITER us; uEDITOR := uEDITOR us;
         uEDITOR_IN_CHIEF := uEDITOR_IN_CHIEF us |}
  | WRITER =>
      {| uOUTLINER := uOUTLINER us;
         uCONTENT_STRATEGIST := uCONTENT_STRATEGIST us;
         uWRITER := (uWRITER us ++ [u])%list; uEDITOR := uEDITOR us;
         uEDITOR_IN_CHIEF := uEDITOR_IN_CHIEF us |}
  | EDITOR =>
      {| uOUTLINER := uOUTLINER us;
         uCONTENT_STRATEGIST := uCONTENT_STRATEGIST us;
         uWRITER := uWRITER us; uEDITOR := (uEDITOR us ++ [u])%list;
         uEDITOR_IN_CHIEF := uEDITOR_IN_CHIEF us |}
  | EDITOR_IN_CHIEF =>
      {| uOUTLINER := uOUTLINER us;
         uCONTENT_STRATEGIST := uCONTENT_STRATEGIST us;
         uWRITER := uWRITER us; uEDITOR := uEDITOR us;
         uEDITOR_IN_CHIEF := (uEDITOR_IN_CHIEF us ++ [u])%list |}
  end.

(** The ledger a trace of events leaves behind. *)
Definition record (us : Usages) (ev : Event) : Usages :=
  match ev with
  | Pushed r u => push r u us
  | Called _ _ _ => us
  end.

Definition ledger (tr : list Event) : Usages := fold_left record tr emptyUsages.

(** [Object.entries(usage)]: own keys in insertion order. *)
Definition entries (us : Usages) : list (AgentRole * list AgentUsage) :=
  [ (OUTLINER, uOUTLINER us);
    (CONTENT_STRATEGIST, uCONTENT_STRATEGIST us);
    (WRITER, uWRITER us);
    (EDITOR, uEDITOR us);
    (EDITOR_IN_CHIEF, uEDITOR_IN_CHIEF us) ].

(** ** utils/calculateUsage.ts *)

Inductive Model : Type := o1 | gpt_4o | gpt_4o_mini.

Record Rates : Type := {
  rate_input : Q;
  rate_output : Q
}.

Definition COST_PER_1M_TOKENS (m : Model) : Rates :=
  match m with
  | o1 => {| rate_input := 15; rate_output := 60 |}
  | gpt_4o => {| rate_input := 2.5; rate_output := 10 |}
  | gpt_4o_mini => {| rate_input := 0.15; rate_output := 0.6 |}
  end.

Definition tokens (n : N) : Q := inject_Z (Z.of_N n).

Definition calculateModelCost (usage : LanguageModelUsage) (model : Model) : Q :=
  let costs := COST_PER_1M_TOKENS model in
  let inputCost := (tokens (promptTokens usage) / 1000000 * rate_input costs)%Q in
  let outputCost :=
    (tokens (completionTokens usage) / 1000000 * rate_output costs)%Q in
  (inputCost + outputCost)%Q.

Definition calculateResearcherCost
  (researcherUsages : option (list LanguageModelUsage)) : Q :=
  match researcherUsages with
  | None => 0%Q
  | Some [] => 0%Q
  | Some usages =>
      fold_left
        (fun total usage => (total + calculateModelCost usage gpt_4o_mini)%Q)
        usages 0%Q
  end.

Record AgentCosts : Type := {
  selfCost : Q;
  researcherCost : Q
}.

Record UsageCosts : Type := {
  perRole : AgentRole -> AgentCosts;
  total_agentCosts : Q;
  total_researchCosts : Q
}.

Definition modelOf (role : AgentRole) : Model :=
  match role with
  | OUTLINER | EDITOR_IN_CHIEF => o1
  | _ => gpt_4o
  end.

Definition setCosts (role : AgentRole) (c : AgentCosts)
  (costs : AgentRole -> AgentCosts) : AgentRole -> AgentCosts :=
  fun r => if AgentRole_eqb role r then c else costs r.

(** The body of the inner loop (lines 77-92): one record of one role. *)
Definition addUsage (role : AgentRole) (costs : AgentRole -> AgentCosts)
  (entry : AgentUsage) : AgentRole -> AgentCosts :=
  let model := modelOf role in
  let costs :=
    match agentUsage entry with
    | Some self =>
        setCosts role
          {| selfCost := (selfCost (costs role) + calculateModelCost self model)%Q;
             researcherCost := researcherCost (costs role) |}
          costs
    | None => costs
    end in
  let cost := calculateResearcherCost (researcherUsages entry) in
  setCosts role
    {| selfCost := selfCost (costs role);
       researcherCost := (researcherCost (costs role) + cost)%Q |}
    costs.

Definition zeroCosts : AgentRole -> AgentCosts :=
  fun _ => {| selfCost := 0; researcherCost := 0 |}.

(** [Object.values(costs)] without the [total] entry, which has neither a
    [selfCost] nor a [researcherCost] key. *)
Definition roleCosts (costs : AgentRole -> AgentCosts) : list AgentCosts :=
  map costs [OUTLINER; CONTENT_STRATEGIST; WRITER; EDITOR; EDITOR_IN_CHIEF].

Definition calculateUsage (usage : Usages) : UsageCosts :=
  let costs :=
    fold_left
      (fun costs (entry : AgentRole * list AgentUsage) =>
         let (role, usages) := entry in
         fold_left (addUsage role) usages costs)
      (entries usage) zeroCosts in
  {| perRole := costs;
     total_agentCosts :=
       fold_left (fun total cost => (total + selfCost cost)%Q)
         (roleCosts costs) 0%Q;
     total_researchCosts :=
       fold_left (fun total cost => (total + researcherCost cost)%Q)
         (roleCosts costs) 0%Q |}.

(** ** writeArticle, end to end *)

Record Article : Type := {
  finalMarkdown : string;
  cost : Q
}.

Inductive Outcome : Type :=
| Resolved (a : Article)
| Raised (e : Error)
| Running.

(** The whole function.  The [catch] block rethrows what it caught, so a
    rejection anywhere is the rejection of [writeArticle]. *)
Definition writeArticle (env : Agents) (sched : list nat) (input : ArticleInput)
  : Outcome * list Event :=
  let '(planned, tr1) := exec env 0 [] (planningPhases input) in
  match planned with
  | Rejected e => (Raised e, tr1)
  | Fulfilled (articleOutline, contentStrategy) =>
      let '(joined, tr3) :=
        promiseAll env sched (map (sectionTask input) contentStrategy) in
      match joined with
      | FirstRejected e => (Raised e, (tr1 ++ tr3)%list)
      | Unsettled => (Running, (tr1 ++ tr3)%list)
      | AllFulfilled sectionContents =>
          let '(rendered, tr4) :=
            exec env 0 []
              (finalPhases input articleOutline contentStrategy sectionContents) in
          let tr := (tr1 ++ tr3 ++ tr4)%list in
          match rendered with
          | Rejected e => (Raised e, tr)
          | Fulfilled markdown =>
              let costs := calculateUsage (ledger tr) in
              (Resolved
                 {| finalMarkdown := markdown;
                    cost := (total_agentCosts costs + total_researchCosts costs)%Q |},
               tr)
          end
      end
  end.

(** ** The rendered document, as the specification describes it *)

Definition joinAll (parts : list string) : string :=
  fold_right String.append EmptyString parts.

(** ['## ' + heading] followed by the edited body. *)
Definition sectionBlock (proposedEdits : list ProposedEdit)
  (section : SectionContent) : string :=
  "## " ++ sc_heading section ++ JsString.nl ++ JsString.nl
  ++ editedContent section proposedEdits ++ JsString.nl ++ JsString.nl.

(** ['# ' + title], then the block of each section in order. *)
Definition titleAndSections (title : string) (sections : list SectionContent)
  (proposedEdits : list ProposedEdit) : string :=
  "# " ++ title ++ JsString.nl ++ JsString.nl
  ++ joinAll (map (sectionBlock proposedEdits) sections).

Definition editorialNotes (globalFeedback : list string) : string :=
  match globalFeedback with
  | [] => EmptyString
  | _ =>
      "## Editorial Notes" ++ JsString.nl ++ JsString.nl
      ++ joinAll (map (fun fb => "- " ++ fb ++ JsString.nl) globalFeedback)
      ++ JsString.nl
  end.

Definition referencesBlock (sections : list SectionContent) : string :=
  match flat_map referencesOf sections with
  | [] => EmptyString
  | refs =>
      "## References" ++ JsString.nl ++ JsString.nl
      ++ joinAll
           (map (fun ref =>
                   "- [" ++ ref_title ref ++ "](" ++ ref_url ref ++ ")"
                   ++ JsString.nl) refs)
      ++ JsString.nl
  end.

Definition includesb (s pat : string) : bool :=
  match JsString.splitAtFirst pat s with
  | Some _ => true
  | None => false
  end.

(** ** Spend, as the specification describes it *)

Definition Qsum (l : list Q) : Q := fold_right Qplus 0%Q l.

(** promptTokens x inputRate + completionTokens x outputRate, per million
    tokens. *)
Definition spend (u : LanguageModelUsage) (model : Model) : Q :=
  ((tokens (promptTokens u) * rate_input (COST_PER_1M_TOKENS model)
    + tokens (completionTokens u) * rate_output (COST_PER_1M_TOKENS model))
   / 1000000)%Q.

(** What the self usage of one record is worth, at the rates of its role. *)
Definition selfSpend (role : AgentRole) (r : AgentUsage) : Q :=
  match agentUsage r with
  | Some u => spend u (modelOf role)
  | None => 0%Q
  end.

(** What the nested researcher usages of one record are worth. *)
Definition nestedSpend (r : AgentUsage) : Q :=
  match researcherUsages r with
  | Some us => Qsum (map (fun u => spend u gpt_4o_mini) us)
  | None => 0%Q
  end.

(** The sum of [f role record] over every record of every role. *)
Definition ledgerSum (f : AgentRole -> AgentUsage -> Q) (usage : Usages) : Q :=
  Qsum (map (fun entry : AgentRole * list AgentUsage =>
               Qsum (map (f (fst entry)) (snd entry)))
          (entries usage)).

(** The records of a ledger, rewritten one by one. *)
Definition mapUsages (f : AgentUsage -> AgentUsage) (us : Usages) : Usages :=
  {| uOUTLINER := map f (uOUTLINER us);
     uCONTENT_STRATEGIST := map f (uCONTENT_STRATEGIST us);
     uWRITER := map f (uWRITER us);
     uEDITOR := map f (uEDITOR us);
     uEDITOR_IN_CHIEF := map f (uEDITOR_IN_CHIEF us) |}.

Definition withoutResearch (r : AgentUsage) : AgentUsage :=
  {| agentUsage := agentUsage r; researcherUsages := None |}.

Definition withoutSelf (r : AgentUsage) : AgentUsage :=
  {| agentUsage := None; researcherUsages := researcherUsages r |}.

(** ** Reading the revision loop and a trace *)

Definition initialState : LoopState :=
  {| isApproved := false; iterations := 0;
     currentContent := None; currentFeedback := None |}.

(** The loop guard of line 94. *)
Definition continues (st : LoopState) : bool :=
  negb (isApproved st) && (iterations st <? MAX_ITERATIONS)%nat.

(** The argument of [writer.run] (lines 101-105). *)
Definition writerInput (input : ArticleInput) (sectionPlan : SectionPlan)
  (st : LoopState) : WriterInput :=
  {| wi_plan := sectionPlan;
     wi_customInstructions := customInstructions input;
     wi_feedback := currentFeedback st |}.

(** The argument of [editor.run] (lines 113-121). *)
Definition editorInput (input : ArticleInput) (st : LoopState)
  (writerResult : WriterOutput) : EditorInput :=
  {| ei_content := content writerResult;
     ei_customInstructions := customInstructions input;
     ei_feedback :=
       match currentFeedback st with
       | Some fb =>
           Some {| ef_previousContent := previousContent fb;
                   previousFeedback := editorFeedback fb;
                   writerResponse := responseToEditorFeedback writerResult |}
       | None => None
       end |}.

(** The local variables after one full turn of the loop body. *)
Definition nextState (st : LoopState) (writerResult : WriterOutput)
  (editorOut : EditorOutput) : LoopState :=
  {| isApproved := approved (eo_feedback editorOut);
     iterations := S (iterations st);
     currentContent := Some (content writerResult);
     currentFeedback :=
       if approved (eo_feedback editorOut) then currentFeedback st
       else if (S (iterations st) <? MAX_ITERATIONS)%nat then
         Some {| previousContent := content writerResult;
                 editorFeedback := eo_feedback editorOut |}
       else currentFeedback st |}.

(** The two terminal states of the specification's state machine. *)
Definition Approved (st : LoopState) : Prop := isApproved st = true.

Definition Exhausted (st : LoopState) : Prop :=
  isApproved st = false /\ iterations st = MAX_ITERATIONS.

Definition isCalled (ev : Event) : bool :=
  match ev with
  | Called _ _ _ => true
  | Pushed _ _ => false
  end.

Definition isCallTo (r : AgentRole) (ev : Event) : bool :=
  match ev with
  | Called _ c _ => AgentRole_eqb r (roleOf c)
  | Pushed _ _ => false
  end.

Definition count (p : Event -> bool) (tr : list Event) : nat :=
  List.length (filter p tr).

(** How many calls to role [r] completed in the trace. *)
Definition callsOf (r : AgentRole) (tr : list Event) : nat :=
  count (isCallTo r) tr.

Definition isRejectedCall (ev : Event) : bool :=
  match ev with
  | Called _ _ (Rejected _) => true
  | _ => false
  end.

(** One thread run alone from where it stands. *)
Definition run {A : Type} (env : Agents) (who : nat) (th : Thread A)
  : Settled A * list Event :=
  exec env who (hist th) (prog th).

Fixpoint sumFrom {X : Type} (f : nat -> X -> nat) (i : nat) (l : list X) : nat :=
  match l with
  | [] => 0
  | x :: l' => f i x + sumFrom f (S i) l'
  end.

(** The roles called so far, after the calls of a trace. *)
Definition histAfter (tr : list Event) (hist : list AgentRole) : list AgentRole :=
  fold_left
    (fun h ev =>
       match ev with
       | Called _ c (Fulfilled _) => roleOf c :: h
       | _ => h
       end)
    tr hist.

(** Every task of a list run alone: task [j] of the list is thread
    [b + j]. *)
Fixpoint finalsFrom {A : Type} (env : Agents) (b : nat)
  (threads : list (Thread A)) : list (Settled A) :=
  match threads with
  | [] => []
  | th :: rest => fst (run env b th) :: finalsFrom env (S b) rest
  end.

Fixpoint execAllFrom {A : Type} (env : Agents) (b : nat)
  (tasks : list (Async A)) : list (Settled A * list Event) :=
  match tasks with
  | [] => []
  | t :: rest => exec env b [] t :: execAllFrom env (S b) rest
  end.

(** The slot of [values] that belongs to a started thread. *)
Definition slotOk {A : Type} (th : Thread A) (slot : option A) : Prop :=
  match prog th with
  | Ret v => slot = Some v
  | Await _ _ => slot = None
  | _ => False
  end.

(** The events matching [p] that the threads still have to produce. *)
Definition remaining {A : Type} (env : Agents) (p : Event -> bool)
  (threads : list (Thread A)) : nat :=
  sumFrom (fun j th => count p (snd (run env j th))) 0 threads.

(** The events matching [p] over a list of separate runs. *)
Definition total {A : Type} (p : Event -> bool)
  (runs : list (Settled A * list Event)) : nat :=
  list_sum (map (fun r => count p (snd r)) runs).

(** Every writer and editor call of section task [who] is answered. *)
Definition answers (env : Agents) (who : nat) : Prop :=
  (forall n i, exists o, writer_run env who n i = Fulfilled o) /\
  (forall n i, exists o, editor_run env who n i = Fulfilled o).

(** The content-strategist calls of a trace, in order, each with the
    input it received and the answer it got. *)
Definition strategistCall (ev : Event)
  : option (ContentStrategistInput * Settled ContentStrategistOutput) :=
  match ev with
  | Called _ c reply =>
      match c as c0
        return Settled (Output c0)
               -> option (ContentStrategistInput
                          * Settled ContentStrategistOutput) with
      | ContentStrategistRun i => fun r => Some (i, r)
      | _ => fun _ => None
      end reply
  | Pushed _ _ => None
  end.

Fixpoint strategistCalls (tr : list Event)
  : list (ContentStrategistInput * Settled ContentStrategistOutput) :=
  match tr with
  | [] => []
  | ev :: tr' =>
      match strategistCall ev with
      | Some x => x :: strategistCalls tr'
      | None => strategistCalls tr'
      end
  end.

(** The plans those calls produced, in order. *)
Fixpoint plansOf
  (calls : list (ContentStrategistInput * Settled ContentStrategistOutput))
  : list SectionPlan :=
  match calls with
  | [] => []
  | (_, Fulfilled out) :: rest => plan out :: plansOf rest
  | (_, Rejected _) :: rest => plansOf rest
  end.

(** The first rejected call of a trace: its error and what follows it. *)
Fixpoint rejection (tr : list Event) : option (Error * list Event) :=
  match tr with
  | [] => None
  | Called _ _ (Rejected e) :: rest => Some (e, rest)
  | _ :: rest => rejection rest
  end.

(** A run that ends at its first rejected call, with that error. *)
Definition stopsAtRejection {R : Type} (raised : R -> option Error)
  (res : R) (tr : list Event) : Prop :=
  rejection tr = None \/
  exists e, rejection tr = Some (e, []) /\ raised res = Some e.

Definition settledError {A : Type} (res : Settled A) : option Error :=
  match res with
  | Rejected e => Some e
  | Fulfilled _ => None
  end.

Definition joinError {A : Type} (res : AllOutcome A) : option Error :=
  match res with
  | FirstRejected e => Some e
  | _ => None
  end.

Definition raisedError (res : Outcome) : option Error :=
  match res with
  | Raised e => Some e
  | _ => None
  end.

(** The argument of [outliner.run] (lines 36-39). *)
Definition outlinerInput (input : ArticleInput) : OutlinerInput :=
  {| oi_subject := subject input;
     oi_customInstructions := customInstructions input |}.

(** The argument of [contentStrategist.run] (lines 55-60). *)
Definition strategistInput (input : ArticleInput)
  (articleOutline : ArticleOutline) (section : OutlineSection)
  (contentStrategy : list SectionPlan) : ContentStrategistInput :=
  {| csi_outline := articleOutline;
     csi_section := section;
     csi_customInstructions := customInstructions input;
     previousStrategies := Some contentStrategy |}.

(** The argument of [editorInChief.run] (lines 159-166). *)
Definition finalReviewInput (input : ArticleInput)
  (articleOutline : ArticleOutline) (contentStrategy : list SectionPlan)
  (sectionContents : list SectionContent) : EditorInChiefInput :=
  {| userInput := input;
     writerOutput := {| wb_outline := articleOutline;
                        wb_contentStrategy := contentStrategy;
                        wb_sections := sectionContents |} |}.

(** ** Stub agents, to run the model on concrete inputs *)

Module Stub.

Definition usage : AgentUsage :=
  {| agentUsage := Some {| promptTokens := 1000; completionTokens := 500;
                           totalTokens := 1500 |};
     researcherUsages := Some [ {| promptTokens := 200; completionTokens := 100;
                                   totalTokens := 300 |} ] |}.

Definition section (heading : string) : OutlineSection :=
  {| os_heading := heading; os_level := 1; os_subSections := None |}.

Definition draft (n : nat) : string :=
  match n with
  | 0 => "first draft"
  | 1 => "second draft"
  | _ => "third draft"
  end.

(** An outliner that returns the given headings, a strategist that plans
    the section it is given and fails at call [failAt], a writer whose
    n-th draft says so, an editor that answers [verdict section n], and
    an editor-in-chief with one note and no edit. *)
Definition agents (headings : list string) (verdict : nat -> nat -> bool)
  (failAt : option nat) : Agents :=
  {| outliner_run := fun i =>
       Fulfilled {| outline := {| ao_title := oi_subject i;
                                  ao_sections := map section headings |};
                    oo_usage := usage |};
     contentStrategist_run := fun n i =>
       match failAt with
       | Some m =>
           if Nat.eqb n m then Rejected "provider error"
           else Fulfilled {| plan := {| sp_heading := os_heading (csi_section i);
                                        sp_keyPoints := [];
                                        sp_references := None |};
                             cso_usage := usage |}
       | None =>
           Fulfilled {| plan := {| sp_heading := os_heading (csi_section i);
                                   sp_keyPoints := [];
                                   sp_references := None |};
                        cso_usage := usage |}
       end;
     writer_run := fun _ n i =>
       Fulfilled {| content := {| sc_heading := sp_heading (wi_plan i);
                                  sc_content := draft n;
                                  sc_references := None |};
                    responseToEditorFeedback := None;
                    wo_usage := usage |};
     editor_run := fun who n _ =>
       Fulfilled {| eo_feedback := {| approved := verdict who n;
                                      feedback := [] |};
                    eo_usage := usage |};
     editorInChief_run := fun _ =>
       Fulfilled {| finalArticleTitle := "Final title";
                    globalFeedback := ["tighten the intro"];
                    proposedEdits := [];
                    eic_usage := usage |} |}.

Definition input : ArticleInput :=
  {| subject := "subject"; customInstructions := None |}.

(** Scenario A: section 0 approved at once, section 1 at its third review. *)
Definition scenarioA : Agents :=
  agents ["Intro"; "Body"]
    (fun who n => if Nat.eqb who 0 then true else Nat.eqb n 2) None.

(** An editor that never approves. *)
Definition stubborn : Agents :=
  agents ["Intro"; "Body"] (fun _ _ => false) None.

(** Scenario C: the strategist fails on its second call. *)
Definition scenarioC : Agents :=
  agents ["Intro"; "Body"; "Outro"] (fun _ _ => true) (Some 1).

(** What the outliner of the two-section stubs returns. *)
Definition outlined : OutlinerOutput :=
  {| outline := {| ao_title := "subject";
                   ao_sections := [section "Intro"; section "Body"] |};
     oo_usage := usage |}.

Definition sched12 : list nat := [5; 3; 1; 0; 0; 2; 7; 1; 0; 4; 0; 0].

Definition plans : list SectionPlan :=
  [ {| sp_heading := "Intro"; sp_keyPoints := []; sp_references := None |};
    {| sp_heading := "Body"; sp_keyPoints := []; sp_references := None |} ].

End Stub.

(** ** Further readings of the ledger and of a trace *)

(** [usages[role]] *)
Definition usagesOf (role : AgentRole) (us : Usages) : list AgentUsage :=
  match role with
  | OUTLINER => uOUTLINER us
  | CONTENT_STRATEGIST => uCONTENT_STRATEGIST us
  | WRITER => uWRITER us
  | EDITOR => uEDITOR us
  | EDITOR_IN_CHIEF => uEDITOR_IN_CHIEF us
  end.


(** The usage an agent returns with its output. *)
Definition usageOf (c : Call) : Output c -> AgentUsage :=
  match c with
  | OutlinerRun _ => oo_usage
  | ContentStrategistRun _ => cso_usage
  | WriterRun _ => wo_usage
  | EditorRun _ => eo_usage
  | EditorInChiefRun _ => eic_usage
  end.

(** The records pushed for [role] along a trace, in order. *)
Fixpoint pushed (role : AgentRole) (tr : list Event) : list AgentUsage :=
  match tr with
  | [] => []
  | Pushed r u :: rest =>
      if AgentRole_eqb role r then u :: pushed role rest else pushed role rest
  | Called _ _ _ :: rest => pushed role rest
  end.

(** The usages returned by the fulfilled calls to [role] along a trace,
    in order of completion. *)
Fixpoint answered (role : AgentRole) (tr : list Event) : list AgentUsage :=
  match tr with
  | [] => []
  | Called _ c (Fulfilled o) :: rest =>
      if AgentRole_eqb role (roleOf c) then usageOf c o :: answered role rest
      else answered role rest
  | _ :: rest => answered role rest
  end.

(** The roles called along a trace, in order of completion. *)
Fixpoint callRoles (tr : list Event) : list AgentRole :=
  match tr with
  | [] => []
  | Called _ c _ :: rest => roleOf c :: callRoles rest
  | Pushed _ _ :: rest => callRoles rest
  end.

(** The calls made along a trace, with their inputs. *)
Fixpoint callsMade (tr : list Event) : list Call :=
  match tr with
  | [] => []
  | Called _ c _ :: rest => c :: callsMade rest
  | Pushed _ _ :: rest => callsMade rest
  end.

(** A body in which every awaited call is followed at once by the push
    of the usage it returned on the list of its role, and nothing else
    is pushed.  [owing] is the push still due at the head of the body. *)
Fixpoint paired {A : Type} (owing : option (AgentRole * AgentUsage))
  (t : Async A) : Prop :=
  match t, owing with
  | Ret _, None => True
  | Throw _, None => True
  | Await c k, None => forall o, paired (Some (roleOf c, usageOf c o)) (k o)
  | Push r u k, Some (r', u') => r = r' /\ u = u' /\ paired None k
  | _, _ => False
  end.

Definition owed (owing : option (AgentRole * AgentUsage)) (role : AgentRole)
  : list AgentUsage :=
  match owing with
  | Some (r, u) => if AgentRole_eqb role r then [u] else []
  | None => []
  end.

(** A body that only calls roles in [P]. *)
Fixpoint confined {A : Type} (P : AgentRole -> Prop) (t : Async A) : Prop :=
  match t with
  | Ret _ => True
  | Throw _ => True
  | Push _ _ k => confined P k
  | Await c k => P (roleOf c) /\ forall o, confined P (k o)
  end.

Definition planningRole (r : AgentRole) : Prop :=
  r = OUTLINER \/ r = CONTENT_STRATEGIST.

Definition draftingRole (r : AgentRole) : Prop :=
  r = WRITER \/ r = EDITOR.

(** A trace in which the records pushed for each role are the usages the
    fulfilled calls to that role returned, in the same order. *)
Definition balanced (tr : list Event) : Prop :=
  forall role, pushed role tr = answered role tr.

(** The usages returned along a trace, sorted by role. *)
Definition answeredLedger (tr : list Event) : Usages :=
  {| uOUTLINER := answered OUTLINER tr;
     uCONTENT_STRATEGIST := answered CONTENT_STRATEGIST tr;
     uWRITER := answered WRITER tr;
     uEDITOR := answered EDITOR tr;
     uEDITOR_IN_CHIEF := answered EDITOR_IN_CHIEF tr |}.

(** The writer calls and the editor calls of a trace, in order, each
    with the input it received and the answer it got. *)
Definition writerCall (ev : Event)
  : option (WriterInput * Settled WriterOutput) :=
  match ev with
  | Called _ c reply =>
      match c as c0
        return Settled (Output c0)
               -> option (WriterInput * Settled WriterOutput) with
      | WriterRun i => fun r => Some (i, r)
      | _ => fun _ => None
      end reply
  | Pushed _ _ => None
  end.

Definition editorCall (ev : Event)
  : option (EditorInput * Settled EditorOutput) :=
  match ev with
  | Called _ c reply =>
      match c as c0
        return Settled (Output c0)
               -> option (EditorInput * Settled EditorOutput) with
      | EditorRun i => fun r => Some (i, r)
      | _ => fun _ => None
      end reply
  | Pushed _ _ => None
  end.

Fixpoint pickEvents {X : Type} (f : Event -> option X) (tr : list Event)
  : list X :=
  match tr with
  | [] => []
  | ev :: tr' =>
      match f ev with
      | Some x => x :: pickEvents f tr'
      | None => pickEvents f tr'
      end
  end.

Definition drafts (tr : list Event)
  : list (WriterInput * Settled WriterOutput) :=
  pickEvents writerCall tr.

Definition reviews (tr : list Event)
  : list (EditorInput * Settled EditorOutput) :=
  pickEvents editorCall tr.

(** What the editor is given with a draft: the feedback the writer was
    given, completed by the writer's response to it (lines 113-121). *)
Definition reviewFeedback (wi : WriterInput) (w : WriterOutput)
  : option EditorFeedback :=
  match wi_feedback wi with
  | Some fb =>
      Some {| ef_previousContent := previousContent fb;
              previousFeedback := editorFeedback fb;
              writerResponse := responseToEditorFeedback w |}
  | None => None
  end.

(** ** The prompt of the content strategist (contentStrategist.ts)

    [ContentStrategistAgent.run] builds the user message from its input
    before its only [await]; the message is a template literal.  The
    levels of the outline are natural numbers here, as in
    [OutlineSection]. *)

Module ContentStrategistAgent.

Definition tab : string := String "009"%char EmptyString.

Definition quotes : string :=
  String "034"%char (String "034"%char (String "034"%char EmptyString)).

(** [s.repeat(count)] for a count that is not negative. *)
Fixpoint repeat (s : string) (count : nat) : string :=
  match count with
  | 0 => EmptyString
  | S n => s ++ repeat s n
  end.

(** [array.join(sep)]. *)
Fixpoint join (sep : string) (l : list string) : string :=
  match l with
  | [] => EmptyString
  | x :: rest =>
      match rest with
      | [] => x
      | _ :: _ => x ++ sep ++ join sep rest
      end
  end.

(** [s || d] on strings: the empty string is falsy. *)
Definition orElse (s d : string) : string :=
  match s with
  | EmptyString => d
  | String _ _ => s
  end.

(** Line 96, the callback of [sections.map]:
    ["\t".repeat(section.level - 1)] followed by the heading.
    [repeat] throws a RangeError on a negative count, that is when the
    level is 0; [None] stands for that throw. *)
Definition outlineLine (section : OutlineSection) : option string :=
  match os_level section with
  | 0 => None
  | S n => Some (repeat tab n ++ os_heading section)
  end.

(** [array.map(f)] with a callback that may throw: the first throw ends
    the map. *)
Fixpoint mapThrowing {X Y : Type} (f : X -> option Y) (l : list X)
  : option (list Y) :=
  match l with
  | [] => Some []
  | x :: rest =>
      match f x with
      | None => None
      | Some y =>
          match mapThrowing f rest with
          | None => None
          | Some ys => Some (y :: ys)
          end
      end
  end.

Definition outlineBlock (articleOutline : ArticleOutline) : option string :=
  option_map (join JsString.nl)
    (mapThrowing outlineLine (ao_sections articleOutline)).

(** Lines 101-103, the callback of [previousStrategies?.map]. *)
Definition strategyItem (strategy : SectionPlan) : string :=
  sp_heading strategy ++ ":" ++ JsString.nl
  ++ join JsString.nl (map (fun point => "- " ++ point) (sp_keyPoints strategy)).

Definition noPrevious : string := "No previous sections yet.".

(** Lines 101-103: [previousStrategies?.map(...).join(...) || '...']. *)
Definition previousBlock (previous : option (list SectionPlan)) : string :=
  match previous with
  | None => noPrevious
  | Some strategies =>
      orElse (join (JsString.nl ++ JsString.nl) (map strategyItem strategies))
        noPrevious
  end.

(** Line 113: [customInstructions || "..."]. *)
Definition instructionsBlock (customInstructions : option string) : string :=
  match customInstructions with
  | None => "No specific user instructions provided."
  | Some s => orElse s "No specific user instructions provided."
  end.

Definition fenced (label body : string) : string :=
  label ++ JsString.nl ++ quotes ++ JsString.nl ++ body ++ JsString.nl ++ quotes.

Definition user : string :=
  "Please develop a detailed content plan for the following article outline:".

(** Lines 87-114: the content of the user message; [None] when building
    it throws. *)
Definition userContent (input : ContentStrategistInput) : option string :=
  match outlineBlock (csi_outline input) with
  | None => None
  | Some outlineText =>
      Some (user ++ JsString.nl ++ JsString.nl
            ++ fenced "Article Title:" (ao_title (csi_outline input))
            ++ JsString.nl ++ JsString.nl
            ++ fenced "Article Outline:" outlineText
            ++ JsString.nl ++ JsString.nl
            ++ fenced "Previous Section Strategies:"
                 (previousBlock (previousStrategies input))
            ++ JsString.nl ++ JsString.nl
            ++ fenced "Section You Are Planning:"
                 (os_heading (csi_section input))
            ++ JsString.nl ++ JsString.nl
            ++ fenced "Specific User Instructions:"
                 (instructionsBlock (csi_customInstructions input)))
  end.

End ContentStrategistAgent.

(** Whether a character occurs in a string. *)
Fixpoint occurs (c : ascii) (s : string) : bool :=
  match s with
  | EmptyString => false
  | String d rest => Ascii.eqb c d || occurs c rest
  end.

(** ** The cache of web searches (utils/webSearch.ts)

    [generateCacheKey] is the MD5 digest of the query and of the
    parameters written as JSON with sorted keys; the properties below
    hold for any key function, so it is a parameter here, like the search
    provider.  [searchCache] is a module-level [Map]: it is passed in and
    handed back.  [webSearch] has one [await], the call of the provider;
    [start] is what it does before and [finish] what it does after. *)

Module WebSearch.

Section Cache.

Variables Params Response : Type.
Variable generateCacheKey : string -> Params -> string.

Definition Cache : Type := list (string * Response).

(** [Map.prototype.get], [has] and [set]. *)
Fixpoint get (searchCache : Cache) (key : string) : option Response :=
  match searchCache with
  | [] => None
  | (k, v) :: rest => if String.eqb key k then Some v else get rest key
  end.

Definition has (searchCache : Cache) (key : string) : bool :=
  match get searchCache key with
  | Some _ => true
  | None => false
  end.

Fixpoint set (searchCache : Cache) (key : string) (value : Response) : Cache :=
  match searchCache with
  | [] => [(key, value)]
  | (k, v) :: rest =>
      if String.eqb key k then (k, value) :: rest
      else (k, v) :: set rest key value
  end.

(** What [webSearch] returns: the provider's response, or a sentence. *)
Inductive Result : Type :=
| Results (response : Response)
| Message (text : string).

Definition failed : string := "Web search tool failed to return results.".

Inductive Started : Type :=
| Cached (response : Response)
| Searching (cacheKey : string).

(** Up to the [await]: the key is computed and the cache is read. *)
Definition start (searchCache : Cache) (query : string) (params : Params)
  : Started :=
  let cacheKey := generateCacheKey query params in
  match get searchCache cacheKey with
  | Some response => Cached response
  | None => Searching cacheKey
  end.

(** After the [await]: a response is stored and returned; a rejection is
    caught and answered with the sentence. *)
Definition finish (searchCache : Cache) (cacheKey : string)
  (reply : Settled Response) : Result * Cache :=
  match reply with
  | Fulfilled response =>
      (Results response, set searchCache cacheKey response)
  | Rejected _ => (Message failed, searchCache)
  end.

(** A search that no other search overlaps. *)
Definition webSearch (tavily : string -> Params -> Settled Response)
  (searchCache : Cache) (query : string) (params : Params) : Result * Cache :=
  match start searchCache query params with
  | Cached response => (Results response, searchCache)
  | Searching cacheKey => finish searchCache cacheKey (tavily query params)
  end.

End Cache.

Arguments Results {Response} response.
Arguments Message {Response} text.
Arguments Cached {Response} response.
Arguments Searching {Response} cacheKey.

End WebSearch.


(** ** Further stub agents *)

Module Faulty.

(** Stub agents whose content strategist fails with the error it is
    given whenever building its prompt throws, as the agent does, and
    plans the section otherwise. *)
Definition promptChecking (base : Agents) (err : Error) : Agents :=
  {| outliner_run := outliner_run base;
     contentStrategist_run := fun n i =>
       match ContentStrategistAgent.userContent i with
       | None => Rejected err
       | Some _ => contentStrategist_run base n i
       end;
     writer_run := writer_run base;
     editor_run := editor_run base;
     editorInChief_run := editorInChief_run base |}.

(** An outline without sections. *)
Definition noSections : Agents := Stub.agents [] (fun _ _ => true) None.

Definition emptyOutline : OutlinerOutput :=
  {| outline := {| ao_title := "subject"; ao_sections := [] |};
     oo_usage := Stub.usage |}.

(** An outline whose second heading is at level 0. *)
Definition flat : OutlinerOutput :=
  {| outline :=
       {| ao_title := "subject";
          ao_sections :=
            [ Stub.section "Intro";
              {| os_heading := "Body"; os_level := 0;
                 os_subSections := None |} ] |};
     oo_usage := Stub.usage |}.

Definition levelZero : Agents :=
  promptChecking
    {| outliner_run := fun _ => Fulfilled flat;
       contentStrategist_run := contentStrategist_run Stub.scenarioA;
       writer_run := writer_run Stub.scenarioA;
       editor_run := editor_run Stub.scenarioA;
       editorInChief_run := editorInChief_run Stub.scenarioA |}
    "RangeError: Invalid count value: -1".

(** An editor that refuses the first draft of section 1 and fails on
    the second. *)
Definition editorDown : Agents :=
  {| outliner_run := outliner_run Stub.stubborn;
     contentStrategist_run := contentStrategist_run Stub.stubborn;
     writer_run := writer_run Stub.stubborn;
     editor_run := fun who n i =>
       if Nat.eqb who 1 && Nat.eqb n 1 then Rejected "rate limit"
       else editor_run Stub.stubborn who n i;
     editorInChief_run := editorInChief_run Stub.stubborn |}.

Definition body : SectionPlan :=
  {| sp_heading := "Body"; sp_keyPoints := []; sp_references := None |}.

(** A search provider that answers every query with the query doubled,
    one that is down, and a cache key that ignores the parameters. *)
Definition echo (query : string) (_ : nat) : Settled string :=
  Fulfilled (query ++ query).


Definition queryOnly (query : string) (_ : nat) : string := query.

End Faulty.

(** * Properties *)

(** ** Strings *)

Lemma append_assoc (a b c : string) : (a ++ b) ++ c = a ++ b ++ c.
Proof. induction a as [|x a IH]; simpl; [reflexivity | now rewrite IH]. Qed.

Lemma append_nil_r (a : string) : a ++ EmptyString = a.
Proof. induction a as [|x a IH]; simpl; [reflexivity | now rewrite IH]. Qed.

Lemma stripPrefix_sound (p s r : string) :
  JsString.stripPrefix p s = Some r -> s = p ++ r.
Proof.
  revert s. induction p as [|a p IH]; intros s H; simpl in *.
  - now inversion H.
  - destruct s as [|b s]; [discriminate|].
    destruct (Ascii.eqb a b) eqn:E; [|discriminate].
    apply Ascii.eqb_eq in E. subst b. f_equal. now apply IH.
Qed.

Lemma stripPrefix_append (p r : string) :
  JsString.stripPrefix p (p ++ r) = Some r.
Proof.
  induction p as [|a p IH]; simpl; [reflexivity|].
  now rewrite Ascii.eqb_refl.
Qed.

Lemma splitAtFirst_sound (pat s p f : string) :
  JsString.splitAtFirst pat s = Some (p, f) -> s = p ++ pat ++ f.
Proof.
  revert p. induction s as [|c s IH]; intros p H; simpl in H.
  - destruct (JsString.stripPrefix pat EmptyString) eqn:E; [|discriminate].
    inversion H; subst. now apply stripPrefix_sound in E.
  - destruct (JsString.stripPrefix pat (String c s)) eqn:E.
    + inversion H; subst. now apply stripPrefix_sound in E.
    + destruct (JsString.splitAtFirst pat s) as [[p0 f0]|] eqn:E'; [|discriminate].
      inversion H; subst. simpl. f_equal. now apply IH.
Qed.

Lemma splitAtFirst_leftmost (pat s p f : string) :
  JsString.splitAtFirst pat s = Some (p, f) ->
  forall p' f', s = p' ++ pat ++ f' -> String.length p <= String.length p'.
Proof.
  revert p. induction s as [|c s IH]; intros p H p' f' Hs; simpl in H.
  - destruct (JsString.stripPrefix pat EmptyString) eqn:E; [|discriminate].
    inversion H; subst. simpl. lia.
  - destruct (JsString.stripPrefix pat (String c s)) eqn:E.
    + inversion H; subst. simpl. lia.
    + destruct (JsString.splitAtFirst pat s) as [[p0 f0]|] eqn:E'; [|discriminate].
      inversion H; subst. destruct p' as [|c' p'].
      * simpl in Hs. rewrite Hs, stripPrefix_append in E. discriminate.
      * simpl in Hs. inversion Hs; subst. simpl.
        apply le_n_S. now apply (IH p0 eq_refl p' f').
Qed.

Lemma splitAtFirst_complete (pat p f : string) :
  JsString.splitAtFirst pat (p ++ pat ++ f) <> None.
Proof.
  induction p as [|c p IH]; simpl.
  - destruct (pat ++ f) eqn:E; simpl.
    + rewrite <- E, stripPrefix_append. discriminate.
    + rewrite <- E, stripPrefix_append. discriminate.
  - destruct (JsString.stripPrefix pat (String c (p ++ pat ++ f))); [discriminate|].
    destruct (JsString.splitAtFirst pat (p ++ pat ++ f)) as [[? ?]|];
      [discriminate | contradiction].
Qed.

Lemma splitAtFirst_None (pat s : string) :
  ~ JsString.includes s pat -> JsString.splitAtFirst pat s = None.
Proof.
  intros H. destruct (JsString.splitAtFirst pat s) as [[p f]|] eqn:E; [|reflexivity].
  exfalso. apply H. exists p, f. now apply splitAtFirst_sound.
Qed.

Lemma replace_miss (s pat t : string) :
  ~ JsString.includes s pat -> JsString.replace s pat t = s.
Proof.
  intros H. unfold JsString.replace. now rewrite splitAtFirst_None.
Qed.

Lemma GetSubstitution_dollarFree (m p f t : string) :
  JsString.dollarFree t = true -> JsString.GetSubstitution m p f t = t.
Proof.
  induction t as [|c t IH]; simpl; [reflexivity|].
  intros H. apply andb_true_iff in H. destruct H as [Hc Ht].
  apply negb_true_iff in Hc. rewrite Hc. f_equal. now apply IH.
Qed.

(** Without a dollar sign in the replacement, [replace] is the literal
    replacement of the first occurrence. *)
Lemma replace_literal (s pat t : string) :
  JsString.includes s pat ->
  JsString.dollarFree t = true ->
  exists p f, JsString.firstOccurrence s pat p f /\
              JsString.replace s pat t = p ++ t ++ f.
Proof.
  intros [p0 [f0 Hs]] Ht. unfold JsString.replace.
  destruct (JsString.splitAtFirst pat s) as [[p f]|] eqn:E.
  - exists p, f. split.
    + split; [now apply splitAtFirst_sound | now apply splitAtFirst_leftmost with (f := f)].
    + now rewrite GetSubstitution_dollarFree.
  - exfalso. subst s. now apply (splitAtFirst_complete pat p0 f0).
Qed.

Lemma includesb_false (s pat : string) :
  includesb s pat = false -> ~ JsString.includes s pat.
Proof.
  unfold includesb. intros H [p [f Hs]]. subst s.
  destruct (JsString.splitAtFirst pat (p ++ pat ++ f)) eqn:E; [discriminate|].
  now apply (splitAtFirst_complete pat p f).
Qed.

Lemma includesb_true (s pat : string) :
  includesb s pat = true -> JsString.includes s pat.
Proof.
  unfold includesb. destruct (JsString.splitAtFirst pat s) as [[p f]|] eqn:E;
    [|discriminate].
  intros _. exists p, f. now apply splitAtFirst_sound.
Qed.

(** ** The renderer *)

Lemma applyEdit_miss (heading body : string) (e : ProposedEdit) :
  ~ JsString.includes body (originalText e) -> applyEdit heading body e = body.
Proof.
  intros H. unfold applyEdit.
  destruct (String.eqb (sectionHeading e) heading); [|reflexivity].
  now apply replace_miss.
Qed.

Lemma editedContent_app (s : SectionContent) (l1 l2 : list ProposedEdit) :
  editedContent s (l1 ++ l2)
  = fold_left (applyEdit (sc_heading s)) l2 (editedContent s l1).
Proof. unfold editedContent. apply fold_left_app. Qed.

(** C8. If an edit names a section but the section body, as it stands when
    the edit is applied, does not contain the edit's [originalText], the
    edit changes nothing: the body after the edit is the body before it,
    and the section is rendered exactly as it is without that edit.  The
    renderer is a total function, so nothing is raised. *)
Theorem C8_missed_edit_leaves_body
  (s : SectionContent) (before after : list ProposedEdit) (e : ProposedEdit) :
  sectionHeading e = sc_heading s ->
  ~ JsString.includes (editedContent s before) (originalText e) ->
  editedContent s (before ++ [e]) = editedContent s before /\
  editedContent s (before ++ e :: after) = editedContent s (before ++ after) /\
  forall markdown,
    renderSection (before ++ e :: after) markdown s
    = renderSection (before ++ after) markdown s.
Proof.
  intros _ Hmiss.
  assert (Hstep : editedContent s (before ++ [e]) = editedContent s before).
  { rewrite editedContent_app. simpl. now apply applyEdit_miss. }
  assert (Hall : editedContent s (before ++ e :: after)
                 = editedContent s (before ++ after)).
  { change (e :: after) with ([e] ++ after)%list.
    rewrite app_assoc, !editedContent_app. now rewrite <- editedContent_app, Hstep. }
  repeat split; try assumption.
  intros markdown. unfold renderSection. now rewrite Hall.
Qed.

(** An instance: a section whose body does not contain the text to replace. *)
Lemma C8_witness :
  let s := {| sc_heading := "Intro"; sc_content := "bar baz"; sc_references := None |} in
  let e := {| sectionHeading := "Intro"; originalText := "foo"; pe_feedback := EmptyString;
              newText := "qux"; priority := LOW |} in
  (sectionHeading e = sc_heading s /\
   ~ JsString.includes (editedContent s []) (originalText e)) /\
  renderSection ([] ++ e :: []) "# T" s = renderSection ([] ++ []) "# T" s.
Proof.
  intros s e.
  assert (H1 : sectionHeading e = sc_heading s) by reflexivity.
  assert (H2 : ~ JsString.includes (editedContent s []) (originalText e))
    by (apply includesb_false; vm_compute; reflexivity).
  split; [split; assumption|].
  apply (C8_missed_edit_leaves_body s [] [] e H1 H2).
Defined.

(** C9. The edit applier hands [newText] to [String.prototype.replace] as
    a replacement template, so [$$] in it comes out as a single dollar
    sign: with body "The plan costs X per month." and the edit X -> $$5
    the section reads "... costs $5 per month.", not "... costs $$5 per
    month." as a literal replacement gives. *)
Theorem C9_dollar_pattern_in_newText :
  let body := "The plan costs X per month." in
  let e := {| sectionHeading := "Pricing"; originalText := "X"; pe_feedback := EmptyString;
              newText := "$$5"; priority := HIGH |} in
  JsString.firstOccurrence body (originalText e) "The plan costs " " per month." /\
  applyEdit "Pricing" body e = "The plan costs $5 per month." /\
  applyEdit "Pricing" body e
  <> "The plan costs " ++ newText e ++ " per month.".
Proof.
  intros body e. split; [|split].
  - assert (E : JsString.splitAtFirst (originalText e) body
                = Some ("The plan costs ", " per month.")) by reflexivity.
    split; [now apply splitAtFirst_sound | now apply splitAtFirst_leftmost with (f := " per month.")].
  - reflexivity.
  - vm_compute. discriminate.
Qed.

Lemma fold_left_append_blocks {X : Type} (block : X -> string) (l : list X)
  (acc : string) :
  fold_left (fun md x => md ++ block x) l acc = acc ++ joinAll (map block l).
Proof.
  revert acc. induction l as [|x l IH]; intros acc; simpl.
  - now rewrite append_nil_r.
  - now rewrite IH, append_assoc.
Qed.

Lemma renderSections_blocks (edits : list ProposedEdit)
  (sections : list SectionContent) (markdown : string) :
  fold_left (renderSection edits) sections markdown
  = markdown ++ joinAll (map (sectionBlock edits) sections).
Proof.
  exact (fold_left_append_blocks (sectionBlock edits) sections markdown).
Qed.

(** With a non-empty [globalFeedback] the document does not end after the
    sections, so it is not the title and the section blocks alone. *)
Lemma C10_counterexample :
  applyEditsAndGenerateMarkdown "T" [] [] ["tighten the intro"]
  <> titleAndSections "T" [] [].
Proof. vm_compute. discriminate. Qed.

Lemma notes_block (globalFeedback : list string) (markdown : string) :
  (if (0 <? List.length globalFeedback)%nat then
     fold_left renderFeedback globalFeedback
       (markdown ++ "## Editorial Notes" ++ JsString.nl ++ JsString.nl)
     ++ JsString.nl
   else markdown)
  = markdown ++ editorialNotes globalFeedback.
Proof.
  unfold editorialNotes. destruct globalFeedback as [|fb fbs].
  - cbn. now rewrite append_nil_r.
  - cbn [List.length Nat.ltb Nat.leb]. unfold renderFeedback.
    rewrite (fold_left_append_blocks (fun fb => "- " ++ fb ++ JsString.nl)).
    now rewrite !append_assoc.
Qed.

Lemma references_block (refs : list Reference) (markdown : string) :
  (if (0 <? List.length refs)%nat then
     fold_left renderReference refs
       (markdown ++ "## References" ++ JsString.nl ++ JsString.nl)
     ++ JsString.nl
   else markdown)
  = markdown
    ++ match refs with
       | [] => EmptyString
       | _ =>
           "## References" ++ JsString.nl ++ JsString.nl
           ++ joinAll
                (map (fun ref =>
                        "- [" ++ ref_title ref ++ "](" ++ ref_url ref ++ ")"
                        ++ JsString.nl) refs)
           ++ JsString.nl
       end.
Proof.
  destruct refs as [|r rs].
  - cbn. now rewrite append_nil_r.
  - cbn [List.length Nat.ltb Nat.leb]. unfold renderReference.
    rewrite (fold_left_append_blocks
               (fun ref => "- [" ++ ref_title ref ++ "](" ++ ref_url ref ++ ")"
                           ++ JsString.nl)).
    now rewrite !append_assoc.
Qed.

(** C10, amended.  The rendered document is ['# ' + title], then for each
    section in order ['## ' + heading] and its edited body, then the
    Editorial Notes block when there is global feedback and the
    References block when a section has references.  Every section
    heading is at level 2; the document is a function of the title, the
    section contents, the edits and the feedback alone, so the outline's
    [level] and [subSections] cannot reach it. *)
Theorem C10_rendered_document_flat
  (title : string) (sections : list SectionContent)
  (edits : list ProposedEdit) (globalFeedback : list string) :
  applyEditsAndGenerateMarkdown title sections edits globalFeedback
  = titleAndSections title sections edits
    ++ editorialNotes globalFeedback
    ++ referencesBlock sections.
Proof.
  unfold applyEditsAndGenerateMarkdown. cbv zeta.
  rewrite renderSections_blocks.
  rewrite (notes_block globalFeedback).
  rewrite (references_block (flat_map referencesOf sections)).
  unfold titleAndSections, referencesBlock. rewrite !append_assoc.
  now destruct (flat_map referencesOf sections).
Qed.

(** ** The usage ledger and its cost *)

Section Costs.

Local Open Scope Q_scope.

Lemma calculateModelCost_spend (u : LanguageModelUsage) (m : Model) :
  calculateModelCost u m == spend u m.
Proof. unfold calculateModelCost, spend. field. Qed.

Lemma fold_left_Qplus {X : Type} (f : X -> Q) (l : list X) (a : Q) :
  fold_left (fun total x => total + f x) l a == a + Qsum (map f l).
Proof.
  revert a. induction l as [|x l IH]; intros a; simpl.
  - ring.
  - rewrite IH. ring.
Qed.

Lemma Qsum_ext {X : Type} (f g : X -> Q) (l : list X) :
  (forall x, f x == g x) -> Qsum (map f l) == Qsum (map g l).
Proof.
  intros H. induction l as [|x l IH]; simpl; [reflexivity|].
  now rewrite H, IH.
Qed.

Lemma calculateResearcherCost_nested (r : AgentUsage) :
  calculateResearcherCost (researcherUsages r) == nestedSpend r.
Proof.
  unfold calculateResearcherCost, nestedSpend.
  destruct (researcherUsages r) as [[|u us]|]; try reflexivity.
  rewrite fold_left_Qplus, Qplus_0_l.
  apply Qsum_ext. intros x. apply calculateModelCost_spend.
Qed.

Lemma AgentRole_eqb_refl (r : AgentRole) : AgentRole_eqb r r = true.
Proof. now destruct r. Qed.

Lemma AgentRole_eqb_eq (a b : AgentRole) : AgentRole_eqb a b = true <-> a = b.
Proof. destruct a, b; simpl; split; intros H; try reflexivity; discriminate. Qed.

Lemma addUsage_other (role r : AgentRole) costs (rec : AgentUsage) :
  role <> r -> addUsage role costs rec r = costs r.
Proof.
  intros Hne. unfold addUsage, setCosts.
  destruct (AgentRole_eqb role r) eqn:E.
  - apply AgentRole_eqb_eq in E. contradiction.
  - destruct (agentUsage rec); [now rewrite E | reflexivity].
Qed.

Lemma addUsage_self (role : AgentRole) costs (rec : AgentUsage) :
  selfCost (addUsage role costs rec role)
  == selfCost (costs role) + selfSpend role rec.
Proof.
  unfold addUsage, setCosts, selfSpend.
  destruct (agentUsage rec); cbv beta zeta; rewrite !AgentRole_eqb_refl;
    cbn [selfCost].
  - now rewrite calculateModelCost_spend.
  - ring.
Qed.

Lemma addUsage_research (role : AgentRole) costs (rec : AgentUsage) :
  researcherCost (addUsage role costs rec role)
  == researcherCost (costs role) + nestedSpend rec.
Proof.
  unfold addUsage, setCosts.
  destruct (agentUsage rec); cbv beta zeta; rewrite !AgentRole_eqb_refl;
    cbn [researcherCost]; now rewrite calculateResearcherCost_nested.
Qed.

Lemma addUsages_other (role r : AgentRole) (records : list AgentUsage) costs :
  role <> r -> fold_left (addUsage role) records costs r = costs r.
Proof.
  intros Hne. revert costs. induction records as [|rec l IH]; intros costs;
    simpl; [reflexivity|].
  rewrite IH. now apply addUsage_other.
Qed.

Lemma addUsages_self (role : AgentRole) (records : list AgentUsage) costs :
  selfCost (fold_left (addUsage role) records costs role)
  == selfCost (costs role) + Qsum (map (selfSpend role) records).
Proof.
  revert costs. induction records as [|rec l IH]; intros costs; simpl.
  - ring.
  - rewrite IH, addUsage_self. ring.
Qed.

Lemma addUsages_research (role : AgentRole) (records : list AgentUsage) costs :
  researcherCost (fold_left (addUsage role) records costs role)
  == researcherCost (costs role) + Qsum (map nestedSpend records).
Proof.
  revert costs. induction records as [|rec l IH]; intros costs; simpl.
  - ring.
  - rewrite IH, addUsage_research. ring.
Qed.

Ltac fold_step :=
  match goal with
  | |- context [selfCost (fold_left (addUsage ?a) ?l ?c ?a)] =>
      rewrite (@addUsages_self a l c)
  | |- context [researcherCost (fold_left (addUsage ?a) ?l ?c ?a)] =>
      rewrite (@addUsages_research a l c)
  | |- context [fold_left (addUsage ?a) ?l ?c ?b] =>
      rewrite (@addUsages_other a b l c) by discriminate
  end.

Lemma total_agentCosts_sum (usage : Usages) :
  total_agentCosts (calculateUsage usage) == ledgerSum selfSpend usage.
Proof.
  unfold calculateUsage, ledgerSum, entries, roleCosts.
  cbn [total_agentCosts total_researchCosts fold_left map fst snd].
  repeat fold_step. unfold zeroCosts.
  cbn [selfCost researcherCost Qsum fold_right]. fold (@Qsum). ring.
Qed.

Lemma total_researchCosts_sum (usage : Usages) :
  total_researchCosts (calculateUsage usage)
  == ledgerSum (fun _ => nestedSpend) usage.
Proof.
  unfold calculateUsage, ledgerSum, entries, roleCosts.
  cbn [total_agentCosts total_researchCosts fold_left map fst snd].
  repeat fold_step. unfold zeroCosts.
  cbn [selfCost researcherCost Qsum fold_right]. fold (@Qsum). ring.
Qed.

Lemma ledgerSum_mapUsages (f : AgentRole -> AgentUsage -> Q)
  (g : AgentUsage -> AgentUsage) (usage : Usages) :
  ledgerSum f (mapUsages g usage) = ledgerSum (fun role r => f role (g r)) usage.
Proof.
  unfold ledgerSum, mapUsages, entries. cbn [map fst snd uOUTLINER
    uCONTENT_STRATEGIST uWRITER uEDITOR uEDITOR_IN_CHIEF].
  now rewrite !map_map.
Qed.

Lemma Qsum_plus {X : Type} (f g : X -> Q) (l : list X) :
  Qsum (map (fun x => f x + g x) l) == Qsum (map f l) + Qsum (map g l).
Proof.
  induction l as [|x l IH]; simpl; [ring|]. rewrite IH. ring.
Qed.

Lemma ledgerSum_plus (f g : AgentRole -> AgentUsage -> Q) (usage : Usages) :
  ledgerSum (fun role r => f role r + g role r) usage
  == ledgerSum f usage + ledgerSum g usage.
Proof.
  unfold ledgerSum. rewrite <- Qsum_plus.
  apply Qsum_ext. intros entry. apply Qsum_plus.
Qed.

(** C7. Total spend is [agentTotal + researchTotal], and every usage is
    counted once: the agent total is the sum, over every record of every
    role, of the record's self usage at the rates of the role's model;
    the research total is the sum, over the same records, of their nested
    researcher usages at the researcher's rates.  Erasing every nested
    usage leaves the agent total as it is, erasing every self usage
    leaves the research total as it is: no amount is in both. *)
Theorem C7_spend_counts_every_usage_once (usage : Usages) :
  let costs := calculateUsage usage in
  total_agentCosts costs == ledgerSum selfSpend usage /\
  total_researchCosts costs == ledgerSum (fun _ => nestedSpend) usage /\
  total_agentCosts costs + total_researchCosts costs
  == ledgerSum (fun role r => selfSpend role r + nestedSpend r) usage /\
  total_agentCosts (calculateUsage (mapUsages withoutResearch usage))
  == total_agentCosts costs /\
  total_researchCosts (calculateUsage (mapUsages withoutSelf usage))
  == total_researchCosts costs.
Proof.
  cbv zeta. repeat split.
  - apply total_agentCosts_sum.
  - apply total_researchCosts_sum.
  - rewrite ledgerSum_plus, total_agentCosts_sum, total_researchCosts_sum.
    reflexivity.
  - rewrite !total_agentCosts_sum, ledgerSum_mapUsages. reflexivity.
  - rewrite !total_researchCosts_sum, ledgerSum_mapUsages. reflexivity.
Qed.

End Costs.

(** ** The revision loop, run alone *)

Lemma revisionLoop_body (input : ArticleInput) (sectionPlan : SectionPlan)
  (st : LoopState) :
  revisionLoop input sectionPlan st
  = if continues st then
      await! writerResult := WriterRun (writerInput input sectionPlan st) in
      Push WRITER (wo_usage writerResult)
        (await! editorOut := EditorRun (editorInput input st writerResult) in
         Push EDITOR (eo_usage editorOut)
           (revisionLoop input sectionPlan (nextState st writerResult editorOut)))
    else Ret st.
Proof.
  rewrite revisionLoop_equation_1. unfold continues.
  generalize (inspect (negb (isApproved st) && (iterations st <? MAX_ITERATIONS)%nat)).
  intros [b Hb]. destruct b.
  - rewrite revisionLoop_clause_1_equation_1, Hb. reflexivity.
  - rewrite revisionLoop_clause_1_equation_2, Hb. reflexivity.
Qed.

Ltac split4 := split; [|split; [|split; [|split]]].

Section OneSection.

Variable env : Agents.
Variable who : nat.
Variable input : ArticleInput.
Variable sectionPlan : SectionPlan.

(** One turn of the loop under [exec]. *)
Lemma exec_revisionLoop (hist : list AgentRole) (st : LoopState) :
  exec env who hist (revisionLoop input sectionPlan st)
  = if continues st then
      let wi := writerInput input sectionPlan st in
      match writer_run env who (countRole WRITER hist) wi with
      | Rejected e => (Rejected e, [Called who (WriterRun wi) (Rejected e)])
      | Fulfilled w =>
          let ei := editorInput input st w in
          match editor_run env who (countRole EDITOR hist) ei with
          | Rejected e =>
              (Rejected e,
               [Called who (WriterRun wi) (Fulfilled w);
                Pushed WRITER (wo_usage w);
                Called who (EditorRun ei) (Rejected e)])
          | Fulfilled eo =>
              let '(res, tr) :=
                exec env who (EDITOR :: WRITER :: hist)
                  (revisionLoop input sectionPlan (nextState st w eo)) in
              (res,
               Called who (WriterRun wi) (Fulfilled w)
               :: Pushed WRITER (wo_usage w)
               :: Called who (EditorRun ei) (Fulfilled eo)
               :: Pushed EDITOR (eo_usage eo) :: tr)
          end
      end
    else (Fulfilled st, []).
Proof.
  rewrite revisionLoop_body. destruct (continues st); [|reflexivity].
  cbn [exec ask roleOf].
  destruct (writer_run env who (countRole WRITER hist)
              (writerInput input sectionPlan st)) as [w|e]; [|reflexivity].
  cbn [exec ask roleOf].
  change (countRole EDITOR (WRITER :: hist)) with (countRole EDITOR hist).
  destruct (editor_run env who (countRole EDITOR hist)
              (editorInput input st w)) as [eo|e]; [|reflexivity].
  cbn [exec].
  destruct (exec env who (EDITOR :: WRITER :: hist)
              (revisionLoop input sectionPlan (nextState st w eo))) as [res tr].
  reflexivity.
Qed.

Lemma continues_false (st : LoopState) :
  continues st = false ->
  isApproved st = true \/ MAX_ITERATIONS <= iterations st.
Proof.
  unfold continues. intros H. apply andb_false_iff in H. destruct H as [H|H].
  - left. now apply negb_false_iff in H.
  - right. now apply Nat.ltb_ge in H.
Qed.

Lemma continues_true (st : LoopState) :
  continues st = true ->
  isApproved st = false /\ iterations st < MAX_ITERATIONS.
Proof.
  unfold continues. intros H. apply andb_true_iff in H. destruct H as [H1 H2].
  split; [now apply negb_true_iff in H1 | now apply Nat.ltb_lt in H2].
Qed.

(** The loop run from any state: how many calls it makes and where the
    counter ends. *)
Lemma revisionLoop_run (n : nat) :
  forall (hist : list AgentRole) (st : LoopState),
    MAX_ITERATIONS - iterations st <= n ->
    let res := fst (exec env who hist (revisionLoop input sectionPlan st)) in
    let tr := snd (exec env who hist (revisionLoop input sectionPlan st)) in
    callsOf WRITER tr <= n /\
    callsOf EDITOR tr <= callsOf WRITER tr /\
    callsOf WRITER tr <= S (callsOf EDITOR tr) /\
    count isCalled tr = callsOf WRITER tr + callsOf EDITOR tr /\
    forall st', res = Fulfilled st' ->
      continues st' = false /\
      iterations st' = iterations st + callsOf WRITER tr /\
      callsOf EDITOR tr = callsOf WRITER tr /\
      (callsOf WRITER tr = 0 -> st' = st) /\
      (0 < callsOf WRITER tr -> currentContent st' <> None).
Proof.
  induction n as [|n IH]; intros hist st Hn; cbv zeta;
    rewrite exec_revisionLoop; destruct (continues st) eqn:Hc.
  - apply continues_true in Hc. lia.
  - cbn. split4; try lia. intros st' H; inversion H; subst.
    split4; auto; lia.
  - cbv zeta.
    destruct (writer_run env who (countRole WRITER hist)
                (writerInput input sectionPlan st)) as [w|e].
    2:{ cbn. split4; try lia. intros st' H; discriminate. }
    destruct (editor_run env who (countRole EDITOR hist)
                (editorInput input st w)) as [eo|e].
    2:{ cbn. split4; try lia. intros st' H; discriminate. }
    specialize (IH (EDITOR :: WRITER :: hist) (nextState st w eo)).
    destruct (exec env who (EDITOR :: WRITER :: hist)
                (revisionLoop input sectionPlan (nextState st w eo)))
      as [res tr].
    cbn [fst snd] in *. cbn [nextState iterations] in IH.
    assert (Hn' : MAX_ITERATIONS - S (iterations st) <= n) by lia.
    specialize (IH Hn'). destruct IH as (H1 & H2 & H3 & H4 & H5).
    unfold callsOf, count in *. cbn [filter isCallTo isCalled roleOf
      AgentRole_eqb List.length].
    split4; try lia.
    intros st' Hres. specialize (H5 st' Hres).
    destruct H5 as (G1 & G2 & G3 & G4 & G5).
    split4; try lia; try assumption.
    intros _.
    destruct (List.length (filter (isCallTo WRITER) tr)) eqn:E.
    + rewrite (G4 eq_refl). cbn. discriminate.
    + apply G5. lia.
  - cbn. split4; try lia. intros st' H; inversion H; subst.
    split4; auto; lia.
Qed.

End OneSection.

(** C2. Whatever the writer and the editor answer (any contents, any
    verdicts, any failures), the revision loop of a section makes at most
    [MAX_ITERATIONS] = 3 writer calls and at most 3 editor calls, the two
    alternating; [exec] is total, so the loop always ends.  From any loop
    state the counter ends at its starting value plus the number of
    round-trips made, so it grows by one per round-trip; started at 0 it
    never exceeds 3, and the loop ends approved or exhausted. *)
Theorem C2_revision_loop_bounded
  (env : Agents) (who : nat) (input : ArticleInput) (sectionPlan : SectionPlan) :
  MAX_ITERATIONS = 3 /\
  (forall hist st,
     let r := exec env who hist (revisionLoop input sectionPlan st) in
     callsOf WRITER (snd r) <= MAX_ITERATIONS - iterations st /\
     callsOf EDITOR (snd r) <= callsOf WRITER (snd r) /\
     callsOf WRITER (snd r) <= S (callsOf EDITOR (snd r)) /\
     match fst r with
     | Fulfilled st' =>
         iterations st' = iterations st + callsOf WRITER (snd r) /\
         callsOf EDITOR (snd r) = callsOf WRITER (snd r)
     | Rejected _ => True
     end) /\
  let r := exec env who [] (revisionLoop input sectionPlan initialState) in
  callsOf WRITER (snd r) <= 3 /\
  callsOf EDITOR (snd r) <= 3 /\
  match fst r with
  | Fulfilled st' =>
      iterations st' = callsOf WRITER (snd r) /\
      iterations st' = callsOf EDITOR (snd r) /\
      1 <= iterations st' <= 3 /\
      (Approved st' \/ Exhausted st')
  | Rejected _ => True
  end.
Proof.
  split; [reflexivity|]. split.
  - intros hist st r.
    destruct (revisionLoop_run env who input sectionPlan hist st
                (le_n (MAX_ITERATIONS - iterations st)))
      as (H1 & H2 & H3 & _ & H5).
    fold r in H1, H2, H3, H5.
    split; [assumption|]. split; [assumption|]. split; [assumption|].
    destruct (fst r) as [st'|e]; [|exact I].
    destruct (H5 st' eq_refl) as (_ & G2 & G3 & _). now split.
  - intros r.
    destruct (revisionLoop_run env who input sectionPlan [] initialState
                (le_n (MAX_ITERATIONS - iterations initialState)))
      as (H1 & H2 & H3 & _ & H5).
    fold r in H1, H2, H3, H5. cbn in H1.
    split; [lia|]. split; [lia|].
    destruct (fst r) as [st'|e]; [|exact I].
    destruct (H5 st' eq_refl) as (G1 & G2 & G3 & G4 & G5).
    cbn [initialState iterations] in G2. cbn [Nat.add] in G2.
    assert (Hpos : 0 < callsOf WRITER (snd r)).
    { destruct (callsOf WRITER (snd r)) eqn:E; [|lia].
      specialize (G4 eq_refl). subst st'. discriminate G1. }
    split; [assumption|]. split; [lia|]. split; [lia|].
    unfold Approved, Exhausted.
    destruct (isApproved st') eqn:Ea; [now left | right].
    destruct (continues_false _ G1) as [Ha|Hmax]; [congruence|].
    split; [reflexivity|]. unfold MAX_ITERATIONS in *. lia.
Qed.

(** ** Promise.all against the tasks run alone *)

Lemma count_app (p : Event -> bool) (a b : list Event) :
  count p (a ++ b)%list = count p a + count p b.
Proof. unfold count. now rewrite filter_app, length_app. Qed.

Lemma exec_bind {A B : Type} (env : Agents) (who : nat) (t : Async A)
  (f : A -> Async B) :
  forall hist,
    exec env who hist (bind t f)
    = match exec env who hist t with
      | (Fulfilled a, tr) =>
          let '(r, tr') := exec env who (histAfter tr hist) (f a) in
          (r, (tr ++ tr')%list)
      | (Rejected e, tr) => (Rejected e, tr)
      end.
Proof.
  induction t as [a|e|r u k IH|c k IH]; intros hist; cbn [bind exec].
  - cbn. now destruct (exec env who hist (f a)).
  - reflexivity.
  - rewrite IH. destruct (exec env who hist k) as [[a|e] tr];
      unfold histAfter; cbn [fold_left]; [|reflexivity].
    match goal with
    | |- context [exec env who ?h (f a)] => now destruct (exec env who h (f a))
    end.
  - destruct (ask env who (countRole (roleOf c) hist) c) as [o|e]; [|reflexivity].
    rewrite IH.
    destruct (exec env who (roleOf c :: hist) (k o)) as [[a|e] tr];
      unfold histAfter; cbn [fold_left]; [|reflexivity].
    match goal with
    | |- context [exec env who ?h (f a)] => now destruct (exec env who h (f a))
    end.
Qed.

Section Pool.

Context {A : Type}.
Variable env : Agents.

Lemma settle_exec (who : nat) (hist : list AgentRole) (t : Async A) :
  exec env who hist t
  = (fst (exec env who hist (fst (settle t))),
     (snd (settle t) ++ snd (exec env who hist (fst (settle t))))%list).
Proof.
  induction t as [a|e|r u k IH|c k _]; cbn [settle fst snd app].
  - reflexivity.
  - reflexivity.
  - cbn [exec]. rewrite IH. destruct (settle k) as [t' tr]. reflexivity.
  - now destruct (exec env who hist (Await c k)).
Qed.

Lemma settle_not_push (t : Async A) r u k : fst (settle t) <> Push r u k.
Proof.
  induction t as [a|e|r' u' k' IH|c k' _]; cbn [settle]; try discriminate.
  destruct (settle k') as [t' tr]. exact IH.
Qed.

Lemma settle_no_call (t : Async A) : count isCalled (snd (settle t)) = 0.
Proof.
  induction t as [a|e|r' u' k' IH|c k' _]; cbn [settle]; try reflexivity.
  destruct (settle k') as [t' tr]. exact IH.
Qed.

(** Completing the pending call of a thread is the first step of the
    thread run alone. *)
Lemma resume_run (who : nat) (th : Thread A) :
  isPending th = true ->
  let th' := fst (resume env who th) in
  let step := snd (resume env who th) in
  run env who th = (fst (run env who th'), (step ++ snd (run env who th'))%list) /\
  count isCalled step = 1 /\
  (forall r u k, prog th' <> Push r u k).
Proof.
  unfold isPending, run, resume. destruct th as [t h]. cbn [prog hist].
  destruct t as [a|e|r u k|c k]; try discriminate. intros _.
  cbn [exec]. destruct (ask env who (countRole (roleOf c) h) c) as [o|e].
  - pose proof (settle_exec who (roleOf c :: h) (k o)) as Hs.
    pose proof (settle_not_push (k o)) as Hp.
    pose proof (settle_no_call (k o)) as Hc.
    destruct (settle (k o)) as [t' tr]. cbn [fst snd prog hist] in *.
    rewrite Hs. split; [reflexivity|]. split; [|exact Hp].
    unfold count in *. cbn [filter isCalled List.length]. now rewrite Hc.
  - cbn. split; [reflexivity|]. split; [reflexivity|]. discriminate.
Qed.

Lemma pending_has_call (who : nat) (th : Thread A) :
  isPending th = true -> 1 <= count isCalled (snd (run env who th)).
Proof.
  intros H. destruct (resume_run who th H) as (E & C & _).
  rewrite E. cbn [snd]. rewrite count_app. lia.
Qed.

Lemma sumFrom_updateAt {X : Type} (f : nat -> X -> nat) (l : list X) :
  forall (b i : nat) (x y : X),
    nth_error l i = Some x ->
    sumFrom f b (updateAt i y l) + f (b + i) x = sumFrom f b l + f (b + i) y.
Proof.
  induction l as [|z l IH]; intros b [|i] x y H; cbn in *; try discriminate.
  - inversion H; subst. rewrite Nat.add_0_r. lia.
  - specialize (IH (S b) i x y H). rewrite <- Nat.add_succ_comm. lia.
Qed.

Lemma sumFrom_ge {X : Type} (f : nat -> X -> nat) (l : list X) :
  forall (b i : nat) (x : X),
    nth_error l i = Some x -> f (b + i) x <= sumFrom f b l.
Proof.
  induction l as [|z l IH]; intros b [|i] x H; cbn in *; try discriminate.
  - inversion H; subst. rewrite Nat.add_0_r. lia.
  - specialize (IH (S b) i x H). rewrite <- Nat.add_succ_comm. lia.
Qed.

Lemma finalsFrom_updateAt (threads : list (Thread A)) :
  forall (b i : nat) (th th' : Thread A),
    nth_error threads i = Some th ->
    fst (run env (b + i) th') = fst (run env (b + i) th) ->
    finalsFrom env b (updateAt i th' threads) = finalsFrom env b threads.
Proof.
  induction threads as [|z l IH]; intros b [|i] th th' H E; cbn in *;
    try discriminate.
  - inversion H; subst. rewrite Nat.add_0_r in E. now rewrite E.
  - f_equal. apply (IH (S b) i th th' H). now rewrite Nat.add_succ_comm.
Qed.

Lemma finalsFrom_nth (threads : list (Thread A)) :
  forall (b i : nat) (th : Thread A),
    nth_error threads i = Some th ->
    nth_error (finalsFrom env b threads) i = Some (fst (run env (b + i) th)).
Proof.
  induction threads as [|z l IH]; intros b [|i] th H; cbn in *;
    try discriminate.
  - inversion H; subst. now rewrite Nat.add_0_r.
  - rewrite (IH (S b) i th H). now rewrite Nat.add_succ_comm.
Qed.

Lemma Forall2_updateAt {X Y : Type} (R : X -> Y -> Prop) (l1 : list X)
  (l2 : list Y) (i : nat) (x : X) (y : Y) :
  Forall2 R l1 l2 -> R x y -> Forall2 R (updateAt i x l1) (updateAt i y l2).
Proof.
  intros H. revert i. induction H as [|a b l1 l2 Hab H IH]; intros [|i] Hxy;
    cbn; constructor; auto.
Qed.

Lemma Forall2_updateAt_left {X Y : Type} (R : X -> Y -> Prop) (l1 : list X)
  (l2 : list Y) (i : nat) (x : X) (y : Y) :
  Forall2 R l1 l2 -> nth_error l2 i = Some y -> R x y ->
  Forall2 R (updateAt i x l1) l2.
Proof.
  intros H. revert i. induction H as [|a b l1 l2 Hab H IH]; intros [|i] Hy Hxy;
    cbn in *; try discriminate.
  - inversion Hy; subst. now constructor.
  - constructor; auto.
Qed.

Lemma Forall2_nth {X Y : Type} (R : X -> Y -> Prop) (l1 : list X) (l2 : list Y) :
  Forall2 R l1 l2 ->
  forall i x, nth_error l1 i = Some x ->
              exists y, nth_error l2 i = Some y /\ R x y.
Proof.
  intros H. induction H as [|a b l1 l2 Hab H IH]; intros [|i] x Hx;
    cbn in *; try discriminate.
  - inversion Hx; subst. eauto.
  - eauto.
Qed.

Lemma Forall2_nth_right {X Y : Type} (R : X -> Y -> Prop) (l1 : list X)
  (l2 : list Y) :
  Forall2 R l1 l2 ->
  forall i y, nth_error l2 i = Some y ->
              exists x, nth_error l1 i = Some x /\ R x y.
Proof.
  intros H. induction H as [|a b l1 l2 Hab H IH]; intros [|i] y Hy;
    cbn in *; try discriminate.
  - inversion Hy; subst. eauto.
  - eauto.
Qed.

Lemma allSome_None {X : Type} (l : list (option X)) :
  allSome l = None -> exists i, nth_error l i = Some None.
Proof.
  induction l as [|[x|] l IH]; cbn; intros H; try discriminate.
  - destruct (allSome l); [discriminate|].
    destruct (IH eq_refl) as [i Hi]. now exists (S i).
  - now exists 0.
Qed.

Lemma allSome_Some {X : Type} (l : list (option X)) (xs : list X) :
  allSome l = Some xs -> l = map Some xs.
Proof.
  revert xs. induction l as [|[x|] l IH]; cbn; intros xs H; try discriminate.
  - now inversion H.
  - destruct (allSome l) as [ys|]; [|discriminate].
    inversion H; subst. cbn. f_equal. now apply IH.
Qed.

Lemma pendingFrom_In (threads : list (Thread A)) :
  forall b i,
    In i (pendingFrom b threads) <->
    exists th, b <= i /\ nth_error threads (i - b) = Some th /\
               isPending th = true.
Proof.
  induction threads as [|z l IH]; intros b i; cbn.
  - split; [contradiction|]. intros (th & _ & H & _).
    destruct (i - b); discriminate.
  - assert (Hrest : In i (pendingFrom (S b) l) <->
                    exists th, S b <= i /\ nth_error l (i - S b) = Some th /\
                               isPending th = true) by apply IH.
    destruct (isPending z) eqn:Hz; cbn; rewrite Hrest; split.
    + intros [Hb|(th & Hle & Hn & Hp)].
      * subst. exists z. rewrite Nat.sub_diag. auto.
      * exists th. split; [lia|]. split; [|assumption].
        replace (i - b) with (S (i - S b)) by lia. exact Hn.
    + intros (th & Hle & Hn & Hp). destruct (Nat.eq_dec b i) as [->|Hne].
      * now left.
      * right. exists th. split; [lia|]. split; [|assumption].
        replace (i - b) with (S (i - S b)) in Hn by lia. exact Hn.
    + intros (th & Hle & Hn & Hp). exists th. split; [lia|].
      split; [|assumption].
      replace (i - b) with (S (i - S b)) by lia. exact Hn.
    + intros (th & Hle & Hn & Hp). destruct (Nat.eq_dec b i) as [->|Hne].
      * rewrite Nat.sub_diag in Hn. cbn in Hn. inversion Hn; subst. congruence.
      * exists th. split; [lia|]. split; [|assumption].
        replace (i - b) with (S (i - S b)) in Hn by lia. exact Hn.
Qed.

(** The scheduler always lands on a thread with a call in flight. *)
Lemma pick_pending (threads : list (Thread A)) (choice : nat) :
  (exists i th, nth_error threads i = Some th /\ isPending th = true) ->
  exists i th,
    pick choice threads = Some i /\
    nth_error threads i = Some th /\ isPending th = true.
Proof.
  intros (j & thj & Hj & Hp). unfold pick. cbv zeta.
  set (pending := pendingFrom 0 threads).
  assert (Hin : In j pending).
  { apply pendingFrom_In. exists thj. rewrite Nat.sub_0_r. split; [lia|auto]. }
  assert (Hlen : List.length pending <> 0).
  { destruct pending; [contradiction | discriminate]. }
  destruct (nth_error pending (choice mod List.length pending)) as [i|] eqn:E.
  - apply nth_error_In in E. apply pendingFrom_In in E.
    destruct E as (th & _ & Hn & Hpi). rewrite Nat.sub_0_r in Hn.
    exists i, th. auto.
  - apply nth_error_None in E.
    pose proof (Nat.mod_upper_bound choice _ Hlen). lia.
Qed.

Lemma slotOk_None (th : Thread A) : slotOk th None -> isPending th = true.
Proof.
  unfold slotOk, isPending. destruct (prog th); try contradiction;
    try discriminate. reflexivity.
Qed.

Lemma slotOk_Some (th : Thread A) (v : A) : slotOk th (Some v) -> prog th = Ret v.
Proof.
  unfold slotOk. destruct (prog th); try contradiction; try discriminate.
  intros H. now inversion H.
Qed.

Lemma all_returned (threads : list (Thread A)) (vs : list A) :
  Forall2 slotOk threads (map Some vs) ->
  forall b,
    finalsFrom env b threads = map Fulfilled vs /\
    forall p, sumFrom (fun j th => count p (snd (run env j th))) b threads = 0.
Proof.
  revert vs. induction threads as [|th l IH]; intros vs H b;
    destruct vs as [|v vs]; inversion H; subst; cbn.
  - split; [reflexivity | intros; reflexivity].
  - match goal with Hs : slotOk th (Some v) |- _ => apply slotOk_Some in Hs;
      rename Hs into Hret end.
    match goal with Hr : Forall2 _ l _ |- _ =>
      destruct (IH vs Hr (S b)) as [Hf Hc] end.
    unfold run at 1. rewrite Hret. cbn. rewrite Hf. split; [reflexivity|].
    intros p. unfold run at 1. rewrite Hret. cbn. apply Hc.
Qed.

Lemma some_pending (threads : list (Thread A)) (values : list (option A)) :
  Forall2 slotOk threads values -> allSome values = None ->
  exists i th, nth_error threads i = Some th /\ isPending th = true.
Proof.
  intros Hinv Hnone. destruct (allSome_None _ Hnone) as [i Hi].
  destruct (Forall2_nth_right Hinv _ Hi) as (th & Hth & Hok).
  exists i, th. split; [assumption | now apply slotOk_None].
Qed.

(** With a schedule as long as the calls still to come, the loop settles:
    fulfilled with the value of every task in index order, or rejected
    with the rejection of one of them. *)
Lemma poolLoop_spec (sched : list nat) :
  forall (threads : list (Thread A)) (values : list (option A)),
    Forall2 slotOk threads values ->
    allSome values = None ->
    remaining env isCalled threads <= List.length sched ->
    match poolLoop env sched threads values with
    | (AllFulfilled vs, tr) =>
        finalsFrom env 0 threads = map Fulfilled vs /\
        forall p, count p tr = remaining env p threads
    | (FirstRejected e, tr) => In (Rejected e) (finalsFrom env 0 threads)
    | (Unsettled, _) => False
    end.
Proof.
  induction sched as [|choice sched IH]; intros threads values Hinv Hnone Hlen.
  - destruct (some_pending Hinv Hnone) as (i & th & Hth & Hp).
    pose proof (pending_has_call i th Hp) as H1.
    pose proof (sumFrom_ge (fun j th => count isCalled (snd (run env j th)))
                  threads 0 i Hth) as H2.
    unfold remaining in Hlen. cbn in *. lia.
  - cbn [poolLoop]. cbv zeta.
    destruct (pick_pending threads choice (some_pending Hinv Hnone))
      as (i & th & Hpick & Hth & Hp).
    rewrite Hpick, Hth.
    destruct (resume_run i th Hp) as (Hrun & Hone & Hnopush).
    destruct (resume env i th) as [th' step]. cbn [fst snd] in *.
    assert (Hfin : finalsFrom env 0 (updateAt i th' threads)
                   = finalsFrom env 0 threads).
    { apply finalsFrom_updateAt with (th := th); [assumption|].
      cbn. now rewrite Hrun. }
    assert (Hrem : forall p,
               remaining env p threads
               = count p step + remaining env p (updateAt i th' threads)).
    { intros p. unfold remaining.
      pose proof (sumFrom_updateAt
                    (fun j th => count p (snd (run env j th)))
                    threads 0 i th' Hth) as Hs.
      cbn [Nat.add] in Hs. rewrite Hrun in Hs at 1. cbn [snd] in Hs.
      rewrite count_app in Hs. lia. }
    destruct (Forall2_nth Hinv _ Hth) as (slot & Hslot & _).
    destruct (prog th') as [v|e|r u k|c k] eqn:Hprog.
    + (* the callback returned *)
      assert (Hinv' : Forall2 slotOk (updateAt i th' threads)
                        (updateAt i (Some v) values)).
      { apply Forall2_updateAt; [assumption|]. unfold slotOk. now rewrite Hprog. }
      destruct (allSome (updateAt i (Some v) values)) as [vs|] eqn:Hall.
      * apply allSome_Some in Hall. rewrite Hall in Hinv'.
        destruct (@all_returned (updateAt i th' threads) vs Hinv' 0) as [Hf Hc].
        rewrite <- Hfin. split; [assumption|].
        intros p. rewrite Hrem. unfold remaining. rewrite Hc. lia.
      * specialize (IH (updateAt i th' threads) (updateAt i (Some v) values)
                      Hinv' Hall).
        assert (Hlen' : remaining env isCalled (updateAt i th' threads)
                        <= List.length sched).
        { specialize (Hrem isCalled). cbn in Hlen. lia. }
        specialize (IH Hlen').
        destruct (poolLoop env sched (updateAt i th' threads)
                    (updateAt i (Some v) values)) as [[vs|e|] tr'].
        -- destruct IH as [Hf Hc]. rewrite <- Hfin. split; [assumption|].
           intros p. rewrite count_app, Hrem, Hc. reflexivity.
        -- now rewrite <- Hfin.
        -- contradiction.
    + (* the callback threw *)
      pose proof (finalsFrom_nth threads 0 i Hth) as Hn. cbn [Nat.add] in Hn.
      apply nth_error_In with (n := i). rewrite Hn, Hrun. cbn [fst].
      unfold run. rewrite Hprog. reflexivity.
    + exfalso. exact (Hnopush r u k eq_refl).
    + (* the callback awaits its next call *)
      assert (Hpend : slotOk th slot).
      { destruct (Forall2_nth Hinv _ Hth) as (slot' & Hslot' & Hok).
        congruence. }
      assert (slot = None).
      { unfold slotOk, isPending in *. destruct (prog th); try discriminate.
        assumption. }
      subst slot.
      assert (Hinv' : Forall2 slotOk (updateAt i th' threads) values).
      { apply Forall2_updateAt_left with (y := None); [assumption..|].
        unfold slotOk. now rewrite Hprog. }
      specialize (IH (updateAt i th' threads) values Hinv' Hnone).
      assert (Hlen' : remaining env isCalled (updateAt i th' threads)
                      <= List.length sched).
      { specialize (Hrem isCalled). cbn in Hlen. lia. }
      specialize (IH Hlen').
      destruct (poolLoop env sched (updateAt i th' threads) values)
        as [[vs|e|] tr'].
      * destruct IH as [Hf Hc]. rewrite <- Hfin. split; [assumption|].
        intros p. rewrite count_app, Hrem, Hc. reflexivity.
      * now rewrite <- Hfin.
      * contradiction.
Qed.

Lemma total_cons (p : Event -> bool) (r : Settled A * list Event)
  (runs : list (Settled A * list Event)) :
  total p (r :: runs) = count p (snd r) + total p runs.
Proof. reflexivity. Qed.

Lemma startAll_spec (tasks : list (Async A)) :
  forall b,
    let threads := fst (startAll tasks) in
    let tr0 := snd (startAll tasks) in
    finalsFrom env b threads = map fst (execAllFrom env b tasks) /\
    (forall p,
       total p (execAllFrom env b tasks)
       = count p tr0
         + sumFrom (fun j th => count p (snd (run env j th))) b threads) /\
    Forall (fun th => forall r u k, prog th <> Push r u k) threads /\
    count isCalled tr0 = 0.
Proof.
  induction tasks as [|t rest IH]; intros b; cbn [startAll].
  - cbn. repeat split; auto.
  - specialize (IH (S b)). cbv zeta in IH.
    pose proof (settle_exec b [] t) as Hs.
    pose proof (settle_not_push t) as Hp.
    pose proof (settle_no_call t) as Hc.
    destruct (settle t) as [t' tr]. destruct (startAll rest) as [ths tr'].
    cbn [fst snd] in *. destruct IH as (I1 & I2 & I3 & I4).
    cbn [finalsFrom execAllFrom map].
    change (run env b {| prog := t'; hist := [] |}) with (exec env b [] t').
    split; [|split; [|split]].
    + rewrite I1, Hs. reflexivity.
    + intros p. rewrite total_cons. cbn [sumFrom].
      change (run env b {| prog := t'; hist := [] |}) with (exec env b [] t').
      rewrite I2. rewrite Hs at 1.
      cbn [snd]. rewrite !count_app. lia.
    + constructor; [exact Hp | exact I3].
    + rewrite count_app. lia.
Qed.

Lemma firstThrown_Some (threads : list (Thread A)) (e : Error) :
  firstThrown threads = Some e ->
  forall b, In (Rejected e) (finalsFrom env b threads).
Proof.
  induction threads as [|th l IH]; cbn; intros H b; [discriminate|].
  destruct (prog th) eqn:Hprog; try (right; now apply IH).
  inversion H; subst. left. unfold run. now rewrite Hprog.
Qed.

Lemma firstThrown_None (threads : list (Thread A)) :
  firstThrown threads = None ->
  Forall (fun th => forall r u k, prog th <> Push r u k) threads ->
  Forall2 slotOk threads (map returned threads).
Proof.
  induction threads as [|th l IH]; cbn; intros H Hp; [constructor|].
  inversion Hp as [|? ? Hth Hl]; subst.
  destruct (prog th) as [v|e|r u k|c k] eqn:Hprog.
  - constructor; [|now apply IH]. unfold slotOk, returned. now rewrite Hprog.
  - discriminate.
  - exfalso. exact (Hth r u k eq_refl).
  - constructor; [|now apply IH]. unfold slotOk, returned. now rewrite Hprog.
Qed.

(** Promise.all over tasks, against the tasks run one by one: with a
    schedule at least as long as the number of calls the tasks make, it
    is fulfilled with the values in index order when every task is
    fulfilled, and rejected with the rejection of one of the tasks
    otherwise, whatever the completion order. *)
Lemma promiseAll_spec (sched : list nat) (tasks : list (Async A)) :
  total isCalled (execAllFrom env 0 tasks) <= List.length sched ->
  match promiseAll env sched tasks with
  | (AllFulfilled vs, tr) =>
      map fst (execAllFrom env 0 tasks) = map Fulfilled vs /\
      forall p, count p tr = total p (execAllFrom env 0 tasks)
  | (FirstRejected e, tr) => In (Rejected e) (map fst (execAllFrom env 0 tasks))
  | (Unsettled, _) => False
  end.
Proof.
  intros Hlen. unfold promiseAll.
  destruct (startAll_spec tasks 0) as (S1 & S2 & S3 & S4).
  destruct (startAll tasks) as [threads tr0]. cbn [fst snd] in *.
  destruct (firstThrown threads) as [e|] eqn:Hthrown.
  - rewrite <- S1. now apply firstThrown_Some.
  - pose proof (firstThrown_None Hthrown S3) as Hinv.
    destruct (allSome (map returned threads)) as [vs|] eqn:Hall.
    + apply allSome_Some in Hall. rewrite Hall in Hinv.
      destruct (@all_returned threads vs Hinv 0) as [Hf Hc].
      rewrite <- S1. split; [assumption|].
      intros p. rewrite S2, Hc. lia.
    + assert (Hrem : remaining env isCalled threads <= List.length sched).
      { unfold remaining. specialize (S2 isCalled). lia. }
      pose proof (poolLoop_spec sched Hinv Hall Hrem) as Hpool.
      destruct (poolLoop env sched threads (map returned threads))
        as [[vs|e|] tr'].
      * destruct Hpool as [Hf Hc]. rewrite <- S1. split; [assumption|].
        intros p. rewrite count_app, S2, Hc. reflexivity.
      * now rewrite <- S1.
      * contradiction.
Qed.

End Pool.

(** ** The section tasks *)

Section Sections.

Variable env : Agents.
Variable input : ArticleInput.

Lemma exec_sectionTask (who : nat) (sectionPlan : SectionPlan) :
  exec env who [] (sectionTask input sectionPlan)
  = match exec env who [] (revisionLoop input sectionPlan initialState) with
    | (Fulfilled st, tr) =>
        match currentContent st with
        | Some c => (Fulfilled c, tr)
        | None =>
            (Rejected ("Failed to generate content for section: "
                       ++ sp_heading sectionPlan), tr)
        end
    | (Rejected e, tr) => (Rejected e, tr)
    end.
Proof.
  unfold sectionTask. rewrite exec_bind. fold initialState.
  destruct (exec env who [] (revisionLoop input sectionPlan initialState))
    as [[st|e] tr]; [|reflexivity].
  destruct (currentContent st); cbn [exec]; now rewrite app_nil_r.
Qed.

Lemma sectionTask_trace (who : nat) (sectionPlan : SectionPlan) :
  snd (exec env who [] (sectionTask input sectionPlan))
  = snd (exec env who [] (revisionLoop input sectionPlan initialState)).
Proof.
  rewrite exec_sectionTask.
  destruct (exec env who [] (revisionLoop input sectionPlan initialState))
    as [[st|e] tr]; [|reflexivity].
  now destruct (currentContent st).
Qed.

Lemma sectionTask_calls (who : nat) (sectionPlan : SectionPlan) :
  count isCalled (snd (exec env who [] (sectionTask input sectionPlan)))
  <= 2 * MAX_ITERATIONS.
Proof.
  rewrite sectionTask_trace.
  destruct (revisionLoop_run env who input sectionPlan [] initialState
              (le_n (MAX_ITERATIONS - iterations initialState)))
    as (H1 & H2 & _ & H4 & _).
  cbn [initialState iterations] in H1. rewrite H4. lia.
Qed.

Lemma revisionLoop_fulfilled (who : nat) (sectionPlan : SectionPlan) (n : nat) :
  answers env who ->
  forall hist st,
    MAX_ITERATIONS - iterations st <= n ->
    exists st',
      fst (exec env who hist (revisionLoop input sectionPlan st)) = Fulfilled st'.
Proof.
  intros [Hw He]. induction n as [|n IH]; intros hist st Hn;
    rewrite exec_revisionLoop; destruct (continues st) eqn:Hc;
    try (exists st; reflexivity).
  - apply continues_true in Hc. lia.
  - cbv zeta.
    destruct (Hw (countRole WRITER hist) (writerInput input sectionPlan st))
      as [w Ew]. rewrite Ew.
    destruct (He (countRole EDITOR hist) (editorInput input st w)) as [eo Ee].
    rewrite Ee.
    destruct (IH (EDITOR :: WRITER :: hist) (nextState st w eo)) as [st' E].
    { cbn [nextState iterations]. lia. }
    destruct (exec env who (EDITOR :: WRITER :: hist)
                (revisionLoop input sectionPlan (nextState st w eo))) as [res tr].
    exists st'. exact E.
Qed.

(** When its calls are answered, a section task returns a content. *)
Lemma sectionTask_fulfilled (who : nat) (sectionPlan : SectionPlan) :
  answers env who ->
  exists c, fst (exec env who [] (sectionTask input sectionPlan)) = Fulfilled c.
Proof.
  intros Hans.
  destruct (@revisionLoop_fulfilled who sectionPlan _ Hans [] initialState
              (le_n _)) as [st' Hst].
  destruct (revisionLoop_run env who input sectionPlan [] initialState
              (le_n (MAX_ITERATIONS - iterations initialState)))
    as (_ & _ & _ & _ & H5).
  specialize (H5 st' Hst). destruct H5 as (G1 & _ & _ & G4 & G5).
  rewrite exec_sectionTask.
  destruct (exec env who [] (revisionLoop input sectionPlan initialState))
    as [res tr]. cbn [fst snd] in *. subst res.
  destruct (currentContent st') as [c|] eqn:Ec; [now exists c|].
  exfalso. destruct (callsOf WRITER tr) eqn:En.
  - rewrite (G4 eq_refl) in G1. discriminate G1.
  - apply G5; [lia | reflexivity].
Qed.

Lemma execAllFrom_nth {A : Type} (tasks : list (Async A)) :
  forall b i t,
    nth_error tasks i = Some t ->
    nth_error (execAllFrom env b tasks) i = Some (exec env (b + i) [] t).
Proof.
  induction tasks as [|z l IH]; intros b [|i] t H; cbn in *; try discriminate.
  - inversion H; subst. now rewrite Nat.add_0_r.
  - rewrite (IH (S b) i t H). now rewrite Nat.add_succ_comm.
Qed.

Lemma execAllFrom_length {A : Type} (tasks : list (Async A)) (b : nat) :
  List.length (execAllFrom env b tasks) = List.length tasks.
Proof. revert b. induction tasks; intros b; cbn; auto. Qed.

Lemma sectionTasks_total (plans : list SectionPlan) (b : nat) :
  total isCalled (execAllFrom env b (map (sectionTask input) plans))
  <= 2 * MAX_ITERATIONS * List.length plans.
Proof.
  revert b. induction plans as [|p l IH]; intros b; [cbn; lia|].
  cbn [map execAllFrom List.length]. rewrite total_cons.
  pose proof (sectionTask_calls b p). specialize (IH (S b)).
  unfold MAX_ITERATIONS in *. lia.
Qed.

End Sections.

(** C1. When every writer and editor call is answered, Promise.all over
    the section callbacks is fulfilled, whatever the order in which the
    calls complete, with exactly one content per plan, and the content
    in position [i] is the one the revision loop produces for plan [i]
    when run on its own. *)
Theorem C1_fanout_returns_contents_in_plan_order
  (env : Agents) (input : ArticleInput) (plans : list SectionPlan)
  (sched : list nat) :
  (forall who n i, exists o, writer_run env who n i = Fulfilled o) ->
  (forall who n i, exists o, editor_run env who n i = Fulfilled o) ->
  1 <= List.length plans ->
  2 * MAX_ITERATIONS * List.length plans <= List.length sched ->
  exists contents,
    fst (promiseAll env sched (map (sectionTask input) plans))
    = AllFulfilled contents /\
    List.length contents = List.length plans /\
    forall i sectionPlan,
      nth_error plans i = Some sectionPlan ->
      exists c,
        nth_error contents i = Some c /\
        fst (exec env i [] (sectionTask input sectionPlan)) = Fulfilled c.
Proof.
  intros Hw He _ Hlen.
  set (tasks := map (sectionTask input) plans).
  assert (Hans : forall who, answers env who) by (intros who; split; auto).
  assert (Hnth : forall i sectionPlan,
             nth_error plans i = Some sectionPlan ->
             nth_error (map fst (execAllFrom env 0 tasks)) i
             = Some (fst (exec env i [] (sectionTask input sectionPlan)))).
  { intros i sp Hi. rewrite nth_error_map.
    rewrite (execAllFrom_nth env tasks 0 i (t := sectionTask input sp)).
    - reflexivity.
    - unfold tasks. rewrite nth_error_map, Hi. reflexivity. }
  assert (Htot : total isCalled (execAllFrom env 0 tasks) <= List.length sched).
  { pose proof (sectionTasks_total env input plans 0). fold tasks in H. lia. }
  pose proof (promiseAll_spec env sched tasks Htot) as Hspec.
  destruct (promiseAll env sched tasks) as [[vs|e|] tr]; cbn [fst].
  - destruct Hspec as [Hf _]. exists vs. split; [reflexivity|].
    split.
    + apply (f_equal (@List.length _)) in Hf.
      rewrite !length_map, execAllFrom_length in Hf.
      unfold tasks in Hf. rewrite length_map in Hf. lia.
    + intros i sp Hi. specialize (Hnth i sp Hi). rewrite Hf in Hnth.
      rewrite nth_error_map in Hnth.
      destruct (nth_error vs i) as [c|]; [|discriminate].
      exists c. split; [reflexivity|]. cbn in Hnth. now inversion Hnth.
  - exfalso. apply In_nth_error in Hspec. destruct Hspec as [i Hi].
    destruct (nth_error plans i) as [sp|] eqn:Hp.
    + rewrite (Hnth i sp Hp) in Hi.
      destruct (@sectionTask_fulfilled env input i sp (Hans i)) as [c Hc].
      congruence.
    + apply nth_error_None in Hp.
      assert (i < List.length (map fst (execAllFrom env 0 tasks))).
      { apply nth_error_Some. congruence. }
      rewrite length_map, execAllFrom_length in H. unfold tasks in H.
      rewrite length_map in H. lia.
  - contradiction.
Qed.

(** ** The strategy fold *)

Section Strategy.

Variable env : Agents.
Variable input : ArticleInput.

Lemma strategyLoop_calls (who : nat) (articleOutline : ArticleOutline)
  (sections : list OutlineSection) :
  forall (acc : list SectionPlan) (hist : list AgentRole),
    let r := exec env who hist (strategyLoop input articleOutline sections acc) in
    let calls := strategistCalls (snd r) in
    (forall k i reply,
        nth_error calls k = Some (i, reply) ->
        previousStrategies i = Some (acc ++ plansOf (firstn k calls))%list /\
        List.length (plansOf (firstn k calls)) = k /\
        csi_outline i = articleOutline /\
        nth_error sections k = Some (csi_section i)) /\
    match fst r with
    | Fulfilled contentStrategy =>
        contentStrategy = (acc ++ plansOf calls)%list /\
        List.length (plansOf calls) = List.length sections
    | Rejected _ => True
    end.
Proof.
  induction sections as [|section rest IH]; intros acc hist; cbv zeta.
  - cbn. split.
    + intros [|k] i reply H; discriminate.
    + now rewrite app_nil_r.
  - cbn [strategyLoop exec ask roleOf].
    set (ci := {| csi_outline := articleOutline; csi_section := section;
                  csi_customInstructions := customInstructions input;
                  previousStrategies := Some acc |}).
    destruct (contentStrategist_run env (countRole CONTENT_STRATEGIST hist) ci)
      as [out|e].
    + cbn [exec].
      specialize (IH (acc ++ [plan out])%list (CONTENT_STRATEGIST :: hist)).
      cbv zeta in IH.
      destruct (exec env who (CONTENT_STRATEGIST :: hist)
                  (strategyLoop input articleOutline rest
                     (acc ++ [plan out])%list)) as [res tr].
      cbn [fst snd] in *. cbn [strategistCalls strategistCall].
      destruct IH as [IHcalls IHres]. split.
      * intros [|k] i reply H; cbn [nth_error firstn plansOf] in *.
        -- inversion H; subst. cbn. rewrite app_nil_r. auto.
        -- destruct (IHcalls k i reply H) as (P1 & P2 & P3 & P4).
           rewrite P1, <- app_assoc. cbn [List.length]. auto.
      * destruct res as [cs|e]; [|exact I].
        destruct IHres as [R1 R2]. cbn [plansOf List.length].
        rewrite R1, <- app_assoc. auto.
    + cbn [fst snd strategistCalls strategistCall]. split; [|exact I].
      intros [|k] i reply H; cbn [nth_error firstn plansOf] in *.
      * inversion H; subst. cbn. rewrite app_nil_r. auto.
      * destruct k; discriminate.
Qed.

End Strategy.

(** C6. The strategy phase is a sequential left fold.  In any run of the
    planning phases, the [k]-th content-strategist call is made for
    section [k] of the outline and receives as [previousStrategies]
    exactly the plans that calls 0..k-1 produced, in order: [k] plans,
    none of a later section.  When the phase completes, the strategy it
    hands on is the list of all those plans, one per section. *)
Theorem C6_strategy_is_a_left_fold (env : Agents) (input : ArticleInput) :
  let r := exec env 0 [] (planningPhases input) in
  let calls := strategistCalls (snd r) in
  (forall k i reply,
      nth_error calls k = Some (i, reply) ->
      previousStrategies i = Some (plansOf (firstn k calls)) /\
      List.length (plansOf (firstn k calls)) = k /\
      nth_error (ao_sections (csi_outline i)) k = Some (csi_section i)) /\
  match fst r with
  | Fulfilled (articleOutline, contentStrategy) =>
      contentStrategy = plansOf calls /\
      List.length contentStrategy = List.length (ao_sections articleOutline)
  | Rejected _ => True
  end.
Proof.
  cbv zeta. unfold planningPhases. cbn [exec ask roleOf].
  destruct (outliner_run env
              {| oi_subject := subject input;
                 oi_customInstructions := customInstructions input |})
    as [out|e].
  - cbn [exec]. rewrite exec_bind.
    pose proof (strategyLoop_calls env input 0 (outline out)
                  (ao_sections (outline out)) [] [OUTLINER]) as H.
    cbv zeta in H.
    destruct (exec env 0 [OUTLINER]
                (strategyLoop input (outline out) (ao_sections (outline out)) []))
      as [[cs|e] tr]; cbn [fst snd exec] in *;
      cbn [strategistCalls strategistCall]; try rewrite app_nil_r;
      destruct H as [Hcalls Hres].
    + split.
      * intros k i reply Hk.
        destruct (Hcalls k i reply Hk) as (P1 & P2 & P3 & P4).
        rewrite P3. auto.
      * destruct Hres as [R1 R2]. cbn in R1. subst cs. auto.
    + split; [|exact I].
      intros k i reply Hk.
      destruct (Hcalls k i reply Hk) as (P1 & P2 & P3 & P4).
      rewrite P3. auto.
  - cbn. split; [|exact I]. intros [|k] i reply H; discriminate.
Qed.

(** ** Failures *)

Lemma rejection_app (a b : list Event) :
  rejection (a ++ b)%list
  = match rejection a with
    | Some (e, post) => Some (e, (post ++ b)%list)
    | None => rejection b
    end.
Proof.
  induction a as [|ev a IH]; [reflexivity|].
  destruct ev as [who c [o|e]|r u]; cbn; auto.
Qed.

Lemma rejection_split (pre post : list Event) who c e :
  exists e' post',
    rejection (pre ++ Called who c (Rejected e) :: post)%list = Some (e', post') /\
    (post' = [] -> e' = e /\ post = []).
Proof.
  induction pre as [|ev pre IH]; cbn.
  - exists e, post. split; [reflexivity | auto].
  - destruct ev as [who' c' [o|e0]|r u]; cbn; try exact IH.
    eexists _, _. split; [reflexivity|].
    intros H. destruct pre; discriminate.
Qed.

Lemma stopsAtRejection_app {R : Type} (raised : R -> option Error) (res : R)
  (a b : list Event) :
  rejection a = None -> stopsAtRejection raised res b ->
  stopsAtRejection raised res (a ++ b)%list.
Proof.
  intros Ha Hb. unfold stopsAtRejection in *. now rewrite rejection_app, Ha.
Qed.

(** Read on the trace itself: a rejected call is the last event of the
    run, and its error is the one raised. *)
Lemma rejected_call_is_last {R : Type} (raised : R -> option Error) (res : R)
  (pre post : list Event) who c e :
  stopsAtRejection raised res (pre ++ Called who c (Rejected e) :: post)%list ->
  raised res = Some e /\ post = [].
Proof.
  intros Hstop.
  destruct (rejection_split pre post who c e) as (e' & post' & Hrej & Hlast).
  destruct Hstop as [Hnone|(e'' & Hsome & Hraised)]; [congruence|].
  rewrite Hrej in Hsome. inversion Hsome; subst.
  destruct (Hlast eq_refl) as [-> ->]. auto.
Qed.

Section Failures.

Variable env : Agents.

Lemma exec_stops {A : Type} (who : nat) (t : Async A) :
  forall hist,
    let r := exec env who hist t in
    stopsAtRejection settledError (fst r) (snd r) /\
    (settledError (fst r) = None -> rejection (snd r) = None).
Proof.
  induction t as [a|e|r u k IH|c k IH]; intros hist; cbv zeta; cbn [exec].
  - cbn. split; [now left | auto].
  - cbn. split; [now left | auto].
  - specialize (IH hist). cbv zeta in IH.
    destruct (exec env who hist k) as [res tr]. cbn [fst snd] in *.
    destruct IH as [I1 I2]. split; [|exact I2].
    unfold stopsAtRejection in *. exact I1.
  - destruct (ask env who (countRole (roleOf c) hist) c) as [o|e].
    + specialize (IH o (roleOf c :: hist)). cbv zeta in IH.
      destruct (exec env who (roleOf c :: hist) (k o)) as [res tr].
      cbn [fst snd] in *. destruct IH as [I1 I2]. split; [|exact I2].
      unfold stopsAtRejection in *. exact I1.
    + cbn. split; [|discriminate]. right. exists e. auto.
Qed.

Lemma settle_clean {A : Type} (t : Async A) : rejection (snd (settle t)) = None.
Proof.
  induction t as [a|e|r u k IH|c k _]; cbn [settle]; try reflexivity.
  destruct (settle k) as [t' tr]. exact IH.
Qed.

Lemma resume_stops {A : Type} (who : nat) (th : Thread A) :
  let th' := fst (resume env who th) in
  let step := snd (resume env who th) in
  rejection step = None \/
  exists e, rejection step = Some (e, []) /\ prog th' = Throw e.
Proof.
  unfold resume. destruct (prog th) as [a|e|r u k|c k]; try (now left).
  destruct (ask env who (countRole (roleOf c) (hist th)) c) as [o|e].
  - pose proof (settle_clean (k o)) as Hc.
    destruct (settle (k o)) as [t' tr]. cbn [fst snd] in *. now left.
  - right. exists e. cbn. auto.
Qed.

Lemma poolLoop_stops {A : Type} (sched : list nat) :
  forall (threads : list (Thread A)) (values : list (option A)),
    let r := poolLoop env sched threads values in
    stopsAtRejection joinError (fst r) (snd r) /\
    (joinError (fst r) = None -> rejection (snd r) = None).
Proof.
  induction sched as [|choice sched IH]; intros threads values; cbv zeta.
  - cbn. split; [now left | auto].
  - cbn [poolLoop]. cbv zeta.
    destruct (pick choice threads) as [i|]; [|cbn; split; [now left | auto]].
    destruct (nth_error threads i) as [th|]; [|cbn; split; [now left | auto]].
    pose proof (resume_stops i th) as Hstep. cbv zeta in Hstep.
    destruct (resume env i th) as [th' step]. cbn [fst snd] in Hstep.
    assert (Hclean : (forall e, prog th' <> Throw e) -> rejection step = None).
    { intros Hne. destruct Hstep as [H|(e & _ & H)]; [assumption|].
      exfalso. exact (Hne e H). }
    destruct (prog th') as [v|e|r u k|c k] eqn:Hprog.
    + assert (Hs : rejection step = None) by (apply Hclean; discriminate).
      destruct (allSome (updateAt i (Some v) values)) as [vs|].
      * cbn. split; [now left | auto].
      * specialize (IH (updateAt i th' threads) (updateAt i (Some v) values)).
        cbv zeta in IH.
        destruct (poolLoop env sched (updateAt i th' threads)
                    (updateAt i (Some v) values)) as [res tr'].
        cbn [fst snd] in *. destruct IH as [I1 I2]. split.
        -- now apply stopsAtRejection_app.
        -- intros H. rewrite rejection_app, Hs. auto.
    + cbn [fst snd]. split; [|discriminate].
      destruct Hstep as [H|(e' & H1 & H2)]; [now left|].
      right. exists e'. split; [assumption|]. cbn. congruence.
    + assert (Hs : rejection step = None) by (apply Hclean; discriminate).
      specialize (IH (updateAt i th' threads) values). cbv zeta in IH.
      destruct (poolLoop env sched (updateAt i th' threads) values)
        as [res tr'].
      cbn [fst snd] in *. destruct IH as [I1 I2]. split.
      * now apply stopsAtRejection_app.
      * intros H. rewrite rejection_app, Hs. auto.
    + assert (Hs : rejection step = None) by (apply Hclean; discriminate).
      specialize (IH (updateAt i th' threads) values). cbv zeta in IH.
      destruct (poolLoop env sched (updateAt i th' threads) values)
        as [res tr'].
      cbn [fst snd] in *. destruct IH as [I1 I2]. split.
      * now apply stopsAtRejection_app.
      * intros H. rewrite rejection_app, Hs. auto.
Qed.

Lemma startAll_clean {A : Type} (tasks : list (Async A)) :
  rejection (snd (startAll tasks)) = None.
Proof.
  induction tasks as [|t rest IH]; cbn [startAll]; [reflexivity|].
  pose proof (settle_clean t) as Hc.
  destruct (settle t) as [t' tr]. destruct (startAll rest) as [ths tr'].
  cbn [fst snd] in *. now rewrite rejection_app, Hc.
Qed.

Lemma promiseAll_stops {A : Type} (sched : list nat) (tasks : list (Async A)) :
  let r := promiseAll env sched tasks in
  stopsAtRejection joinError (fst r) (snd r) /\
  (joinError (fst r) = None -> rejection (snd r) = None).
Proof.
  cbv zeta. unfold promiseAll. pose proof (startAll_clean tasks) as Hc.
  destruct (startAll tasks) as [threads tr0]. cbn [snd] in Hc.
  destruct (firstThrown threads) as [e|].
  - cbn. split; [now left | discriminate].
  - destruct (allSome (map returned threads)) as [vs|].
    + cbn. split; [now left | auto].
    + pose proof (poolLoop_stops sched threads (map returned threads)) as Hp.
      cbv zeta in Hp.
      destruct (poolLoop env sched threads (map returned threads)) as [res tr'].
      cbn [fst snd] in *. destruct Hp as [P1 P2]. split.
      * now apply stopsAtRejection_app.
      * intros H. rewrite rejection_app, Hc. auto.
Qed.

(** A rejected call ends [writeArticle], with the error of that call. *)
Lemma writeArticle_stops (sched : list nat) (input : ArticleInput) :
  let r := writeArticle env sched input in
  stopsAtRejection raisedError (fst r) (snd r).
Proof.
  cbv zeta. unfold writeArticle.
  pose proof (exec_stops 0 (planningPhases input) []) as H1. cbv zeta in H1.
  destruct (exec env 0 [] (planningPhases input)) as [[[o cs]|e] tr1];
    cbn [fst snd] in H1; destruct H1 as [S1 C1].
  2:{ cbn [fst snd]. destruct S1 as [H|(e' & H & E)]; [now left|].
      right. exists e'. cbn in *. auto. }
  specialize (C1 eq_refl).
  pose proof (promiseAll_stops sched (map (sectionTask input) cs)) as H3.
  cbv zeta in H3.
  destruct (promiseAll env sched (map (sectionTask input) cs)) as [joined tr3].
  cbn [fst snd] in H3. destruct H3 as [S3 C3].
  destruct joined as [contents|e|]; cbn [fst snd].
  - specialize (C3 eq_refl).
    pose proof (exec_stops 0 (finalPhases input o cs contents) []) as H4.
    cbv zeta in H4.
    destruct (exec env 0 [] (finalPhases input o cs contents)) as [[md|e] tr4];
      cbn [fst snd] in *; destruct H4 as [S4 C4].
    + left. rewrite !rejection_app, C1, C3. now apply C4.
    + apply stopsAtRejection_app; [assumption|].
      apply stopsAtRejection_app; [assumption|].
      destruct S4 as [H|(e' & H & E)]; [now left|].
      right. exists e'. cbn in *. auto.
  - apply stopsAtRejection_app; [assumption|].
    destruct S3 as [H|(e' & H & E)]; [now left|].
    right. exists e'. cbn in *. auto.
  - left. rewrite rejection_app, C1. now apply C3.
Qed.

End Failures.

(** C5. A run of [writeArticle] ends at its first rejected call: nothing
    happens after it, and the run raises the error of that call, so a run
    that returns an article has no rejected call behind it.  The only
    results are a complete article or an error.  In particular, when the
    content strategist answers for the first section and fails with [e]
    on the second, the run raises [e]: the trace ends with the two
    strategist calls, no writer, editor or final-review call is made and
    nothing is rendered, although the first plan was produced. *)
Theorem C5_first_failure_aborts_the_run
  (env : Agents) (sched : list nat) (input : ArticleInput) :
  let r := writeArticle env sched input in
  stopsAtRejection raisedError (fst r) (snd r) /\
  match fst r with
  | Resolved _ => rejection (snd r) = None
  | _ => True
  end /\
  forall out s1 s2 rest po1 e,
    outliner_run env (outlinerInput input) = Fulfilled out ->
    ao_sections (outline out) = s1 :: s2 :: rest ->
    contentStrategist_run env 0 (strategistInput input (outline out) s1 [])
    = Fulfilled po1 ->
    contentStrategist_run env 1
      (strategistInput input (outline out) s2 [plan po1])
    = Rejected e ->
    fst r = Raised e /\
    strategistCalls (snd r)
    = [ (strategistInput input (outline out) s1 [], Fulfilled po1);
        (strategistInput input (outline out) s2 [plan po1], Rejected e) ] /\
    callsOf WRITER (snd r) = 0 /\
    callsOf EDITOR (snd r) = 0 /\
    callsOf EDITOR_IN_CHIEF (snd r) = 0.
Proof.
  cbv zeta. pose proof (writeArticle_stops env sched input) as Hstop.
  cbv zeta in Hstop. split; [exact Hstop|]. split.
  - destruct (fst (writeArticle env sched input)) eqn:E; try exact I.
    destruct Hstop as [H|(e & _ & H)]; [assumption | discriminate].
  - intros out s1 s2 rest po1 e Hout Hsec H1 H2.
    unfold writeArticle, planningPhases. cbn [exec ask roleOf].
    unfold outlinerInput in Hout. rewrite Hout. cbn [exec].
    rewrite exec_bind, Hsec. cbn [strategyLoop exec ask roleOf].
    change (countRole CONTENT_STRATEGIST [OUTLINER]) with 0.
    unfold strategistInput in H1, H2. rewrite H1. cbn [exec ask roleOf].
    change (countRole CONTENT_STRATEGIST [CONTENT_STRATEGIST; OUTLINER]) with 1.
    cbn [app]. rewrite H2. cbn. auto.
Qed.

(** ** Whole runs *)

Section Runs.

Variable env : Agents.
Variable input : ArticleInput.

Lemma callsOf_app (r : AgentRole) (a b : list Event) :
  callsOf r (a ++ b)%list = callsOf r a + callsOf r b.
Proof. apply count_app. Qed.

Lemma strategyLoop_fulfilled (who : nat) (articleOutline : ArticleOutline) :
  (forall n i, exists o, contentStrategist_run env n i = Fulfilled o) ->
  forall sections acc hist,
  exists cs tr,
    exec env who hist (strategyLoop input articleOutline sections acc)
    = (Fulfilled cs, tr) /\
    List.length cs = List.length acc + List.length sections /\
    callsOf WRITER tr = 0 /\ callsOf EDITOR tr = 0.
Proof.
  intros Hcs. induction sections as [|section rest IH]; intros acc hist.
  - exists acc, []. cbn. repeat split; lia.
  - cbn [strategyLoop exec ask roleOf].
    destruct (Hcs (countRole CONTENT_STRATEGIST hist)
                {| csi_outline := articleOutline; csi_section := section;
                   csi_customInstructions := customInstructions input;
                   previousStrategies := Some acc |}) as [o Ho].
    rewrite Ho. cbn [exec].
    destruct (IH (acc ++ [plan o])%list (CONTENT_STRATEGIST :: hist))
      as (cs & tr & E & L & W & Ed).
    rewrite E. eexists _, _. split; [reflexivity|].
    rewrite L, length_app. cbn. repeat split; try lia; assumption.
Qed.

Lemma planningPhases_fulfilled (out : OutlinerOutput) :
  outliner_run env (outlinerInput input) = Fulfilled out ->
  (forall n i, exists o, contentStrategist_run env n i = Fulfilled o) ->
  exists cs tr,
    exec env 0 [] (planningPhases input) = (Fulfilled (outline out, cs), tr) /\
    List.length cs = List.length (ao_sections (outline out)) /\
    callsOf WRITER tr = 0 /\ callsOf EDITOR tr = 0.
Proof.
  intros Hout Hcs. unfold planningPhases. cbn [exec ask roleOf].
  unfold outlinerInput in Hout. rewrite Hout. cbn [exec]. rewrite exec_bind.
  destruct (strategyLoop_fulfilled 0 (outline out) Hcs
              (ao_sections (outline out)) [] [OUTLINER])
    as (cs & tr & E & L & W & Ed).
  rewrite E. cbn [exec]. eexists _, _. split; [reflexivity|].
  rewrite app_nil_r. cbn in L. repeat split; assumption.
Qed.

(** The run after a successful planning, when every later call is
    answered: the join is fulfilled, the final review is made on its
    values and the article is rendered from them. *)
Lemma writeArticle_resolves (sched : list nat) (o : ArticleOutline)
  (cs : list SectionPlan) (tr1 : list Event) :
  exec env 0 [] (planningPhases input) = (Fulfilled (o, cs), tr1) ->
  (forall who, answers env who) ->
  (forall i, exists r, editorInChief_run env i = Fulfilled r) ->
  2 * MAX_ITERATIONS * List.length cs <= List.length sched ->
  exists contents tr3 review article,
    map fst (execAllFrom env 0 (map (sectionTask input) cs))
    = map Fulfilled contents /\
    (forall p, count p tr3
               = total p (execAllFrom env 0 (map (sectionTask input) cs))) /\
    editorInChief_run env (finalReviewInput input o cs contents)
    = Fulfilled review /\
    finalMarkdown article
    = applyEditsAndGenerateMarkdown (finalArticleTitle review) contents
        (proposedEdits review) (globalFeedback review) /\
    writeArticle env sched input
    = (Resolved article,
       (tr1 ++ tr3
        ++ [Called 0 (EditorInChiefRun (finalReviewInput input o cs contents))
              (Fulfilled review);
            Pushed EDITOR_IN_CHIEF (eic_usage review)])%list).
Proof.
  intros Hplan Hans Heic Hlen. unfold writeArticle. rewrite Hplan.
  assert (Htot : total isCalled
                   (execAllFrom env 0 (map (sectionTask input) cs))
                 <= List.length sched).
  { pose proof (sectionTasks_total env input cs 0). lia. }
  pose proof (promiseAll_spec env sched (map (sectionTask input) cs) Htot)
    as Hspec.
  destruct (promiseAll env sched (map (sectionTask input) cs))
    as [[contents|e|] tr3].
  - destruct Hspec as [Hf Hc].
    destruct (Heic (finalReviewInput input o cs contents)) as [review Hr].
    unfold finalPhases. cbn [exec ask roleOf].
    unfold finalReviewInput in Hr. rewrite Hr. cbn [exec].
    eexists contents, tr3, review, _.
    split; [exact Hf|]. split; [exact Hc|]. split; [exact Hr|].
    split; [|reflexivity]. reflexivity.
  - exfalso. apply In_nth_error in Hspec. destruct Hspec as [i Hi].
    rewrite nth_error_map in Hi.
    destruct (nth_error (execAllFrom env 0 (map (sectionTask input) cs)) i)
      as [r|] eqn:Hr; [|discriminate].
    assert (Hi' : i < List.length cs).
    { assert (i < List.length
                    (execAllFrom env 0 (map (sectionTask input) cs)))
        by (apply nth_error_Some; congruence).
      rewrite execAllFrom_length, length_map in H. exact H. }
    destruct (nth_error cs i) as [sp|] eqn:Hsp;
      [|apply nth_error_None in Hsp; lia].
    rewrite (execAllFrom_nth env (map (sectionTask input) cs) 0 i
               (t := sectionTask input sp)) in Hr
      by (rewrite nth_error_map, Hsp; reflexivity).
    destruct (@sectionTask_fulfilled env input i sp (Hans i)) as [c Hc].
    cbn in Hr, Hi. inversion Hr; subst r. cbn [Nat.add] in Hi.
    rewrite Hc in Hi. discriminate.
  - contradiction.
Qed.

(** A section refused at each of the three iterations. *)
Lemma revisionLoop_exhausted (who : nat) (sectionPlan : SectionPlan) :
  answers env who ->
  (forall n i o, n < MAX_ITERATIONS -> editor_run env who n i = Fulfilled o ->
                 approved (eo_feedback o) = false) ->
  exists st' tr wi w3,
    exec env who [] (revisionLoop input sectionPlan initialState)
    = (Fulfilled st', tr) /\
    Exhausted st' /\
    callsOf WRITER tr = 3 /\ callsOf EDITOR tr = 3 /\
    writer_run env who 2 wi = Fulfilled w3 /\
    wi_plan wi = sectionPlan /\
    currentContent st' = Some (content w3).
Proof.
  intros [Hw He] Hrej.
  (* iteration 1 *)
  rewrite exec_revisionLoop. change (continues initialState) with true.
  cbv zeta. change (countRole WRITER []) with 0.
  change (countRole EDITOR []) with 0.
  destruct (Hw 0 (writerInput input sectionPlan initialState)) as [w1 Ew1].
  rewrite Ew1.
  destruct (He 0 (editorInput input initialState w1)) as [e1 Ee1]. rewrite Ee1.
  assert (A1 : approved (eo_feedback e1) = false).
  { eapply (Hrej 0); [unfold MAX_ITERATIONS; lia | exact Ee1]. }
  set (st1 := nextState initialState w1 e1).
  assert (C1 : continues st1 = true)
    by (unfold continues, st1; cbn; now rewrite A1).
  (* iteration 2 *)
  rewrite exec_revisionLoop, C1. cbv zeta.
  change (countRole WRITER [EDITOR; WRITER]) with 1.
  change (countRole EDITOR [EDITOR; WRITER]) with 1.
  destruct (Hw 1 (writerInput input sectionPlan st1)) as [w2 Ew2]. rewrite Ew2.
  destruct (He 1 (editorInput input st1 w2)) as [e2 Ee2]. rewrite Ee2.
  assert (A2 : approved (eo_feedback e2) = false).
  { eapply (Hrej 1); [unfold MAX_ITERATIONS; lia | exact Ee2]. }
  set (st2 := nextState st1 w2 e2).
  assert (C2 : continues st2 = true)
    by (unfold continues, st2; cbn; now rewrite A2).
  (* iteration 3 *)
  rewrite exec_revisionLoop, C2. cbv zeta.
  change (countRole WRITER [EDITOR; WRITER; EDITOR; WRITER]) with 2.
  change (countRole EDITOR [EDITOR; WRITER; EDITOR; WRITER]) with 2.
  destruct (Hw 2 (writerInput input sectionPlan st2)) as [w3 Ew3]. rewrite Ew3.
  destruct (He 2 (editorInput input st2 w3)) as [e3 Ee3]. rewrite Ee3.
  assert (A3 : approved (eo_feedback e3) = false).
  { eapply (Hrej 2); [unfold MAX_ITERATIONS; lia | exact Ee3]. }
  set (st3 := nextState st2 w3 e3).
  assert (C3 : continues st3 = false) by (unfold continues, st3; cbn;
                                           now rewrite A3).
  rewrite exec_revisionLoop, C3.
  eexists st3, _, (writerInput input sectionPlan st2), w3.
  split; [reflexivity|]. split.
  { split; [exact A3 | reflexivity]. }
  repeat split; try reflexivity. exact Ew3.
Qed.

End Runs.

Lemma joined_nth (env : Agents) (input : ArticleInput) (cs : list SectionPlan)
  (contents : list SectionContent) :
  map fst (execAllFrom env 0 (map (sectionTask input) cs))
  = map Fulfilled contents ->
  forall k sectionPlan,
    nth_error cs k = Some sectionPlan ->
    exists c,
      nth_error contents k = Some c /\
      fst (exec env k [] (sectionTask input sectionPlan)) = Fulfilled c.
Proof.
  intros Hf k sp Hk.
  assert (H : nth_error (map fst (execAllFrom env 0 (map (sectionTask input) cs))) k
              = Some (fst (exec env k [] (sectionTask input sp)))).
  { rewrite nth_error_map.
    rewrite (execAllFrom_nth env (map (sectionTask input) cs) 0 k
               (t := sectionTask input sp))
      by (rewrite nth_error_map, Hk; reflexivity).
    reflexivity. }
  rewrite Hf, nth_error_map in H.
  destruct (nth_error contents k) as [c|]; [|discriminate].
  exists c. split; [reflexivity|]. cbn in H. now inversion H.
Qed.

(** C4. When the editor refuses a section at each of its three
    iterations and every call is answered, the revision loop of that
    section ends exhausted (not approved, counter at [MAX_ITERATIONS])
    after three writer and three editor calls and keeps the content of
    the third draft; [writeArticle] does not raise: the final review is
    called with that third draft in the section's position and the
    article is rendered. *)
Theorem C4_exhausted_section_keeps_last_draft
  (env : Agents) (sched : list nat) (input : ArticleInput)
  (out : OutlinerOutput) (k : nat) :
  outliner_run env (outlinerInput input) = Fulfilled out ->
  (forall n i, exists o, contentStrategist_run env n i = Fulfilled o) ->
  (forall who n i, exists o, writer_run env who n i = Fulfilled o) ->
  (forall who n i, exists o, editor_run env who n i = Fulfilled o) ->
  (forall i, exists o, editorInChief_run env i = Fulfilled o) ->
  k < List.length (ao_sections (outline out)) ->
  (forall n i o, n < MAX_ITERATIONS -> editor_run env k n i = Fulfilled o ->
                 approved (eo_feedback o) = false) ->
  2 * MAX_ITERATIONS * List.length (ao_sections (outline out))
  <= List.length sched ->
  exists cs sectionPlan st' wi w3 contents review article,
    fst (exec env 0 [] (planningPhases input)) = Fulfilled (outline out, cs) /\
    nth_error cs k = Some sectionPlan /\
    fst (exec env k [] (revisionLoop input sectionPlan initialState))
    = Fulfilled st' /\
    Exhausted st' /\
    callsOf WRITER
      (snd (exec env k [] (revisionLoop input sectionPlan initialState))) = 3 /\
    callsOf EDITOR
      (snd (exec env k [] (revisionLoop input sectionPlan initialState))) = 3 /\
    writer_run env k 2 wi = Fulfilled w3 /\
    wi_plan wi = sectionPlan /\
    currentContent st' = Some (content w3) /\
    fst (exec env k [] (sectionTask input sectionPlan)) = Fulfilled (content w3) /\
    nth_error contents k = Some (content w3) /\
    fst (writeArticle env sched input) = Resolved article /\
    In (Called 0 (EditorInChiefRun
                    (finalReviewInput input (outline out) cs contents))
          (Fulfilled review))
       (snd (writeArticle env sched input)) /\
    finalMarkdown article
    = applyEditsAndGenerateMarkdown (finalArticleTitle review) contents
        (proposedEdits review) (globalFeedback review).
Proof.
  intros Hout Hcs Hw He Heic Hk Hrej Hlen.
  assert (Hans : forall who, answers env who) by (intros who; split; auto).
  destruct (@planningPhases_fulfilled env input out Hout Hcs)
    as (cs & tr1 & Hplan & Hcslen & _ & _).
  destruct (nth_error cs k) as [sectionPlan|] eqn:Hsp;
    [|apply nth_error_None in Hsp; lia].
  destruct (@revisionLoop_exhausted env input k sectionPlan (Hans k) Hrej)
    as (st' & tr & wi & w3 & Hloop & Hex & HW & HE & Hw3 & Hwi & Hcur).
  rewrite <- Hcslen in Hlen.
  destruct (@writeArticle_resolves env input sched (outline out) cs tr1 Hplan Hans Heic Hlen)
    as (contents & tr3 & review & article & Hf & _ & Hrev & Hmd & Hrun).
  destruct (@joined_nth env input cs contents Hf k sectionPlan Hsp) as (c & Hc & Hexec).
  assert (Htask : fst (exec env k [] (sectionTask input sectionPlan))
                  = Fulfilled (content w3)).
  { rewrite exec_sectionTask, Hloop, Hcur. reflexivity. }
  exists cs, sectionPlan, st', wi, w3, contents, review, article.
  rewrite Hplan, Hloop, Hrun. cbn [fst snd].
  repeat split; try assumption; try reflexivity.
  - apply Hex.
  - apply Hex.
  - congruence.
  - apply in_or_app. right. apply in_or_app. right. now left.
Qed.

(** C3. Scenario A: an outline of two sections; the editor approves the
    first section at its first review, refuses the second at its first
    and second reviews and approves it at the third; every call is
    answered.  Whatever the completion order, the run makes exactly four
    writer calls and four editor calls and returns an article whose
    document is the title, the block of the first section (its first
    draft), the block of the second section (its third draft), in the
    order of the outline, and then the closing blocks. *)
Theorem C3_scenario_two_sections_four_drafts
  (env : Agents) (sched : list nat) (input : ArticleInput)
  (out : OutlinerOutput) (s1 s2 : OutlineSection) :
  outliner_run env (outlinerInput input) = Fulfilled out ->
  ao_sections (outline out) = [s1; s2] ->
  (forall n i, exists o, contentStrategist_run env n i = Fulfilled o) ->
  (forall who n i, exists o, writer_run env who n i = Fulfilled o) ->
  (forall who n i, exists o, editor_run env who n i = Fulfilled o) ->
  (forall i, exists o, editorInChief_run env i = Fulfilled o) ->
  (forall i o, editor_run env 0 0 i = Fulfilled o ->
               approved (eo_feedback o) = true) ->
  (forall i o, editor_run env 1 0 i = Fulfilled o ->
               approved (eo_feedback o) = false) ->
  (forall i o, editor_run env 1 1 i = Fulfilled o ->
               approved (eo_feedback o) = false) ->
  (forall i o, editor_run env 1 2 i = Fulfilled o ->
               approved (eo_feedback o) = true) ->
  2 * MAX_ITERATIONS * 2 <= List.length sched ->
  exists po1 po2 wi1 w1 wi2 w2 review article,
    contentStrategist_run env 0 (strategistInput input (outline out) s1 [])
    = Fulfilled po1 /\
    contentStrategist_run env 1
      (strategistInput input (outline out) s2 [plan po1])
    = Fulfilled po2 /\
    writer_run env 0 0 wi1 = Fulfilled w1 /\ wi_plan wi1 = plan po1 /\
    writer_run env 1 2 wi2 = Fulfilled w2 /\ wi_plan wi2 = plan po2 /\
    fst (writeArticle env sched input) = Resolved article /\
    callsOf WRITER (snd (writeArticle env sched input)) = 4 /\
    callsOf EDITOR (snd (writeArticle env sched input)) = 4 /\
    finalMarkdown article
    = "# " ++ finalArticleTitle review ++ JsString.nl ++ JsString.nl
      ++ sectionBlock (proposedEdits review) (content w1)
      ++ sectionBlock (proposedEdits review) (content w2)
      ++ editorialNotes (globalFeedback review)
      ++ referencesBlock [content w1; content w2].
Proof.
  intros Hout Hsec Hcs Hw He Heic A0 R10 R11 A12 Hlen.
  assert (Hans : forall who, answers env who) by (intros who; split; auto).
  (* planning *)
  destruct (Hcs 0 (strategistInput input (outline out) s1 [])) as [po1 Hp1].
  destruct (Hcs 1 (strategistInput input (outline out) s2 [plan po1]))
    as [po2 Hp2].
  assert (Hplan : exists tr1,
             exec env 0 [] (planningPhases input)
             = (Fulfilled (outline out, [plan po1; plan po2]), tr1) /\
             callsOf WRITER tr1 = 0 /\ callsOf EDITOR tr1 = 0).
  { unfold planningPhases. cbn [exec ask roleOf].
    unfold outlinerInput in Hout. rewrite Hout. cbn [exec].
    rewrite exec_bind, Hsec. cbn [strategyLoop exec ask roleOf].
    change (countRole CONTENT_STRATEGIST [OUTLINER]) with 0.
    unfold strategistInput in Hp1, Hp2. rewrite Hp1. cbn [exec ask roleOf].
    change (countRole CONTENT_STRATEGIST [CONTENT_STRATEGIST; OUTLINER]) with 1.
    cbn [app]. rewrite Hp2. cbn [exec]. eexists. split; [reflexivity|].
    split; reflexivity. }
  destruct Hplan as (tr1 & Hplan & W1 & E1).
  (* the first section *)
  destruct (proj1 (Hans 0) 0 (writerInput input (plan po1) initialState))
    as [w1 Ew1].
  destruct (proj2 (Hans 0) 0 (editorInput input initialState w1)) as [e1 Ee1].
  pose proof (A0 _ _ Ee1) as Ha1.
  assert (Hloop1 : exists tr,
             exec env 0 [] (revisionLoop input (plan po1) initialState)
             = (Fulfilled (nextState initialState w1 e1), tr) /\
             callsOf WRITER tr = 1 /\ callsOf EDITOR tr = 1).
  { rewrite exec_revisionLoop. change (continues initialState) with true.
    cbv zeta. change (countRole WRITER []) with 0.
    change (countRole EDITOR []) with 0. rewrite Ew1, Ee1.
    rewrite exec_revisionLoop.
    replace (continues (nextState initialState w1 e1)) with false
      by (unfold continues; cbn; now rewrite Ha1).
    eexists. split; [reflexivity|]. split; reflexivity. }
  destruct Hloop1 as (trA & HloopA & WA & EA).
  (* the second section *)
  destruct (proj1 (Hans 1) 0 (writerInput input (plan po2) initialState))
    as [v1 Ev1].
  destruct (proj2 (Hans 1) 0 (editorInput input initialState v1)) as [f1 Ef1].
  pose proof (R10 _ _ Ef1) as Hr1.
  set (t1 := nextState initialState v1 f1).
  destruct (proj1 (Hans 1) 1 (writerInput input (plan po2) t1)) as [v2 Ev2].
  destruct (proj2 (Hans 1) 1 (editorInput input t1 v2)) as [f2 Ef2].
  pose proof (R11 _ _ Ef2) as Hr2.
  set (t2 := nextState t1 v2 f2).
  destruct (proj1 (Hans 1) 2 (writerInput input (plan po2) t2)) as [v3 Ev3].
  destruct (proj2 (Hans 1) 2 (editorInput input t2 v3)) as [f3 Ef3].
  pose proof (A12 _ _ Ef3) as Ha3.
  set (t3 := nextState t2 v3 f3).
  assert (Hloop2 : exists tr,
             exec env 1 [] (revisionLoop input (plan po2) initialState)
             = (Fulfilled t3, tr) /\
             callsOf WRITER tr = 3 /\ callsOf EDITOR tr = 3).
  { rewrite exec_revisionLoop. change (continues initialState) with true.
    cbv zeta. change (countRole WRITER []) with 0.
    change (countRole EDITOR []) with 0. rewrite Ev1, Ef1. fold t1.
    rewrite exec_revisionLoop.
    replace (continues t1) with true
      by (unfold continues, t1; cbn; now rewrite Hr1).
    cbv zeta. change (countRole WRITER [EDITOR; WRITER]) with 1.
    change (countRole EDITOR [EDITOR; WRITER]) with 1. rewrite Ev2, Ef2.
    fold t2. rewrite exec_revisionLoop.
    replace (continues t2) with true
      by (unfold continues, t2; cbn; now rewrite Hr2).
    cbv zeta. change (countRole WRITER [EDITOR; WRITER; EDITOR; WRITER]) with 2.
    change (countRole EDITOR [EDITOR; WRITER; EDITOR; WRITER]) with 2.
    rewrite Ev3, Ef3. fold t3. rewrite exec_revisionLoop.
    replace (continues t3) with false
      by (unfold continues, t3; cbn; now rewrite Ha3).
    eexists. split; [reflexivity|]. split; reflexivity. }
  destruct Hloop2 as (trB & HloopB & WB & EB).
  (* the whole run *)
  assert (Hlen' : 2 * MAX_ITERATIONS * List.length [plan po1; plan po2]
                  <= List.length sched) by exact Hlen.
  destruct (@writeArticle_resolves env input sched (outline out)
              [plan po1; plan po2] tr1 Hplan Hans Heic Hlen')
    as (contents & tr3 & review & article & Hf & Hc & Hrev & Hmd & Hrun).
  cbn [map execAllFrom] in Hf, Hc.
  rewrite !exec_sectionTask, HloopA, HloopB in Hf. cbn in Hf.
  destruct contents as [|c1 [|c2 [|c3 rest]]]; try discriminate.
  inversion Hf; subst c1 c2.
  exists po1, po2, (writerInput input (plan po1) initialState), w1,
    (writerInput input (plan po2) t2), v3, review, article.
  rewrite Hrun. cbn [fst snd].
  assert (Htot : forall r,
             callsOf r tr3 = callsOf r trA + callsOf r trB).
  { intros r. unfold callsOf. rewrite Hc. unfold total.
    cbn [map list_sum fold_right]. rewrite !sectionTask_trace.
    rewrite HloopA, HloopB. cbn [snd]. lia. }
  repeat split; try assumption; try reflexivity.
  - rewrite !callsOf_app, Htot, W1, WA, WB. reflexivity.
  - rewrite !callsOf_app, Htot, E1, EA, EB. reflexivity.
  - rewrite Hmd. unfold applyEditsAndGenerateMarkdown. cbv zeta.
    rewrite renderSections_blocks, notes_block, references_block.
    unfold referencesBlock. cbn [map joinAll fold_right].
    rewrite ?append_assoc.
    now destruct (flat_map referencesOf [content w1; content v3]).
Qed.

(** ** The theorems at concrete inputs *)

Example scenarioA_document :
  option_map finalMarkdown
    (match fst (writeArticle Stub.scenarioA Stub.sched12 Stub.input) with
     | Resolved a => Some a
     | _ => None
     end)
  = Some ("# Final title" ++ JsString.nl ++ JsString.nl
          ++ "## Intro" ++ JsString.nl ++ JsString.nl
          ++ "first draft" ++ JsString.nl ++ JsString.nl
          ++ "## Body" ++ JsString.nl ++ JsString.nl
          ++ "third draft" ++ JsString.nl ++ JsString.nl
          ++ "## Editorial Notes" ++ JsString.nl ++ JsString.nl
          ++ "- tighten the intro" ++ JsString.nl ++ JsString.nl).
Proof. vm_compute. reflexivity. Qed.

Example scenarioA_other_order :
  fst (writeArticle Stub.scenarioA (rev Stub.sched12) Stub.input)
  = fst (writeArticle Stub.scenarioA Stub.sched12 Stub.input).
Proof. vm_compute. reflexivity. Qed.

Example scenarioA_short_schedule :
  fst (writeArticle Stub.scenarioA [0; 0; 0] Stub.input) = Running.
Proof. vm_compute. reflexivity. Qed.

Lemma C1_witness :
  ((forall who n i, exists o, writer_run Stub.scenarioA who n i = Fulfilled o) /\
   (forall who n i, exists o, editor_run Stub.scenarioA who n i = Fulfilled o) /\
   1 <= List.length Stub.plans /\
   2 * MAX_ITERATIONS * List.length Stub.plans <= List.length Stub.sched12) /\
  exists contents,
    fst (promiseAll Stub.scenarioA Stub.sched12
           (map (sectionTask Stub.input) Stub.plans))
    = AllFulfilled contents /\
    List.length contents = List.length Stub.plans /\
    forall i sectionPlan,
      nth_error Stub.plans i = Some sectionPlan ->
      exists c,
        nth_error contents i = Some c /\
        fst (exec Stub.scenarioA i [] (sectionTask Stub.input sectionPlan))
        = Fulfilled c.
Proof.
  assert (H1 : forall who n i,
             exists o, writer_run Stub.scenarioA who n i = Fulfilled o)
    by (intros; eexists; reflexivity).
  assert (H2 : forall who n i,
             exists o, editor_run Stub.scenarioA who n i = Fulfilled o)
    by (intros; eexists; reflexivity).
  assert (H3 : 1 <= List.length Stub.plans) by (vm_compute; lia).
  assert (H4 : 2 * MAX_ITERATIONS * List.length Stub.plans
               <= List.length Stub.sched12) by (vm_compute; lia).
  split; [repeat split; assumption|].
  exact (C1_fanout_returns_contents_in_plan_order
           Stub.scenarioA Stub.input Stub.plans Stub.sched12 H1 H2 H3 H4).
Defined.

Lemma C3_witness :
  (outliner_run Stub.scenarioA (outlinerInput Stub.input)
   = Fulfilled Stub.outlined /\
   ao_sections (outline Stub.outlined)
   = [Stub.section "Intro"; Stub.section "Body"] /\
   2 * MAX_ITERATIONS * 2 <= List.length Stub.sched12) /\
  exists po1 po2 wi1 w1 wi2 w2 review article,
    contentStrategist_run Stub.scenarioA 0
      (strategistInput Stub.input (outline Stub.outlined)
         (Stub.section "Intro") [])
    = Fulfilled po1 /\
    contentStrategist_run Stub.scenarioA 1
      (strategistInput Stub.input (outline Stub.outlined)
         (Stub.section "Body") [plan po1])
    = Fulfilled po2 /\
    writer_run Stub.scenarioA 0 0 wi1 = Fulfilled w1 /\
    wi_plan wi1 = plan po1 /\
    writer_run Stub.scenarioA 1 2 wi2 = Fulfilled w2 /\
    wi_plan wi2 = plan po2 /\
    fst (writeArticle Stub.scenarioA Stub.sched12 Stub.input)
    = Resolved article /\
    callsOf WRITER (snd (writeArticle Stub.scenarioA Stub.sched12 Stub.input))
    = 4 /\
    callsOf EDITOR (snd (writeArticle Stub.scenarioA Stub.sched12 Stub.input))
    = 4 /\
    finalMarkdown article
    = "# " ++ finalArticleTitle review ++ JsString.nl ++ JsString.nl
      ++ sectionBlock (proposedEdits review) (content w1)
      ++ sectionBlock (proposedEdits review) (content w2)
      ++ editorialNotes (globalFeedback review)
      ++ referencesBlock [content w1; content w2].
Proof.
  assert (H1 : outliner_run Stub.scenarioA (outlinerInput Stub.input)
               = Fulfilled Stub.outlined) by reflexivity.
  assert (H2 : ao_sections (outline Stub.outlined)
               = [Stub.section "Intro"; Stub.section "Body"]) by reflexivity.
  assert (H3 : 2 * MAX_ITERATIONS * 2 <= List.length Stub.sched12)
    by (vm_compute; lia).
  split; [repeat split; assumption|].
  apply (C3_scenario_two_sections_four_drafts
           Stub.scenarioA Stub.sched12 Stub.input H1 H2).
  - intros; eexists; reflexivity.
  - intros; eexists; reflexivity.
  - intros; eexists; reflexivity.
  - intros; eexists; reflexivity.
  - intros i o H. inversion H. reflexivity.
  - intros i o H. inversion H. reflexivity.
  - intros i o H. inversion H. reflexivity.
  - intros i o H. inversion H. reflexivity.
  - exact H3.
Defined.

Lemma C4_witness :
  (outliner_run Stub.stubborn (outlinerInput Stub.input)
   = Fulfilled Stub.outlined /\
   1 < List.length (ao_sections (outline Stub.outlined)) /\
   2 * MAX_ITERATIONS * List.length (ao_sections (outline Stub.outlined))
   <= List.length Stub.sched12) /\
  exists cs sectionPlan st' wi w3 contents review article,
    fst (exec Stub.stubborn 0 [] (planningPhases Stub.input))
    = Fulfilled (outline Stub.outlined, cs) /\
    nth_error cs 1 = Some sectionPlan /\
    fst (exec Stub.stubborn 1 [] (revisionLoop Stub.input sectionPlan initialState))
    = Fulfilled st' /\
    Exhausted st' /\
    callsOf WRITER
      (snd (exec Stub.stubborn 1 []
              (revisionLoop Stub.input sectionPlan initialState))) = 3 /\
    callsOf EDITOR
      (snd (exec Stub.stubborn 1 []
              (revisionLoop Stub.input sectionPlan initialState))) = 3 /\
    writer_run Stub.stubborn 1 2 wi = Fulfilled w3 /\
    wi_plan wi = sectionPlan /\
    currentContent st' = Some (content w3) /\
    fst (exec Stub.stubborn 1 [] (sectionTask Stub.input sectionPlan))
    = Fulfilled (content w3) /\
    nth_error contents 1 = Some (content w3) /\
    fst (writeArticle Stub.stubborn Stub.sched12 Stub.input) = Resolved article /\
    In (Called 0 (EditorInChiefRun
                    (finalReviewInput Stub.input (outline Stub.outlined)
                       cs contents))
          (Fulfilled review))
       (snd (writeArticle Stub.stubborn Stub.sched12 Stub.input)) /\
    finalMarkdown article
    = applyEditsAndGenerateMarkdown (finalArticleTitle review) contents
        (proposedEdits review) (globalFeedback review).
Proof.
  assert (H1 : outliner_run Stub.stubborn (outlinerInput Stub.input)
               = Fulfilled Stub.outlined) by reflexivity.
  assert (H2 : 1 < List.length (ao_sections (outline Stub.outlined)))
    by (vm_compute; lia).
  assert (H3 : 2 * MAX_ITERATIONS
               * List.length (ao_sections (outline Stub.outlined))
               <= List.length Stub.sched12) by (vm_compute; lia).
  split; [repeat split; assumption|].
  apply (C4_exhausted_section_keeps_last_draft
           Stub.stubborn Stub.sched12 Stub.input (k := 1) H1).
  - intros; eexists; reflexivity.
  - intros; eexists; reflexivity.
  - intros; eexists; reflexivity.
  - intros; eexists; reflexivity.
  - exact H2.
  - intros n i o _ H. inversion H. reflexivity.
  - exact H3.
Defined.

Lemma C5_witness :
  (outliner_run Stub.scenarioC (outlinerInput Stub.input)
   = Fulfilled {| outline := {| ao_title := "subject";
                                ao_sections := [Stub.section "Intro";
                                                Stub.section "Body";
                                                Stub.section "Outro"] |};
                  oo_usage := Stub.usage |}) /\
  fst (writeArticle Stub.scenarioC Stub.sched12 Stub.input)
  = Raised "provider error" /\
  callsOf WRITER (snd (writeArticle Stub.scenarioC Stub.sched12 Stub.input)) = 0.
Proof.
  set (out := {| outline := {| ao_title := "subject";
                               ao_sections := [Stub.section "Intro";
                                               Stub.section "Body";
                                               Stub.section "Outro"] |};
                 oo_usage := Stub.usage |}).
  assert (H1 : outliner_run Stub.scenarioC (outlinerInput Stub.input)
               = Fulfilled out) by reflexivity.
  split; [exact H1|].
  destruct (proj2 (proj2 (C5_first_failure_aborts_the_run
                            Stub.scenarioC Stub.sched12 Stub.input))
              out (Stub.section "Intro") (Stub.section "Body")
              [Stub.section "Outro"]
              {| plan := {| sp_heading := "Intro"; sp_keyPoints := [];
                            sp_references := None |};
                 cso_usage := Stub.usage |}
              "provider error" H1 eq_refl eq_refl eq_refl)
    as (R1 & _ & R3 & _).
  split; assumption.
Defined.

Lemma C6_witness :
  exists i reply,
    nth_error
      (strategistCalls
         (snd (exec Stub.scenarioA 0 [] (planningPhases Stub.input)))) 1
    = Some (i, reply) /\
    previousStrategies i
    = Some [ {| sp_heading := "Intro"; sp_keyPoints := [];
                sp_references := None |} ] /\
    csi_section i = Stub.section "Body".
Proof.
  destruct (nth_error
              (strategistCalls
                 (snd (exec Stub.scenarioA 0 [] (planningPhases Stub.input)))) 1)
    as [[i reply]|] eqn:E; [|vm_compute in E; discriminate].
  exists i, reply. split; [reflexivity|].
  destruct (proj1 (C6_strategy_is_a_left_fold Stub.scenarioA Stub.input)
              1 i reply E) as (P1 & _ & P3).
  split.
  - rewrite P1. vm_compute in E. inversion E; subst. reflexivity.
  - vm_compute in E. inversion E; subst. reflexivity.
Defined.

(** * Further properties *)

(** ** The renderer (utils/applyEdits.ts) *)

Lemma renderSections_ext (edits edits' : list ProposedEdit)
  (sections : list SectionContent) :
  (forall s, In s sections -> editedContent s edits = editedContent s edits') ->
  forall markdown,
    fold_left (renderSection edits) sections markdown
    = fold_left (renderSection edits') sections markdown.
Proof.
  induction sections as [|s rest IH]; intros H markdown; [reflexivity|].
  cbn [fold_left]. unfold renderSection at 2 4.
  rewrite (H s (or_introl eq_refl)).
  apply IH. intros s' Hs'. apply H. now right.
Qed.

Lemma applyEdit_other_heading (heading body : string) (e : ProposedEdit) :
  sectionHeading e <> heading -> applyEdit heading body e = body.
Proof.
  intros H. unfold applyEdit.
  destruct (String.eqb (sectionHeading e) heading) eqn:E; [|reflexivity].
  apply String.eqb_eq in E. contradiction.
Qed.

(** An edit that names no section of the article changes nothing: the
    document is the one rendered without it. *)
Theorem edit_for_unknown_heading_is_ignored
  (title : string) (sections : list SectionContent)
  (before after : list ProposedEdit) (e : ProposedEdit)
  (globalFeedback : list string) :
  (forall s, In s sections -> sectionHeading e <> sc_heading s) ->
  applyEditsAndGenerateMarkdown title sections (before ++ e :: after)
    globalFeedback
  = applyEditsAndGenerateMarkdown title sections (before ++ after)
      globalFeedback.
Proof.
  intros Hno. unfold applyEditsAndGenerateMarkdown. cbv zeta.
  rewrite (renderSections_ext (before ++ e :: after) (before ++ after) sections);
    [reflexivity|].
  intros s Hs. change (e :: after) with ([e] ++ after)%list.
  rewrite app_assoc, !editedContent_app. f_equal.
  cbn [fold_left]. apply applyEdit_other_heading. now apply Hno.
Qed.

Lemma edit_for_unknown_heading_witness :
  let s := {| sc_heading := "Intro"; sc_content := "foo bar";
              sc_references := None |} in
  let e := {| sectionHeading := "Outro"; originalText := "foo";
              pe_feedback := EmptyString; newText := "qux"; priority := LOW |} in
  (forall s', In s' [s] -> sectionHeading e <> sc_heading s') /\
  applyEditsAndGenerateMarkdown "T" [s] ([] ++ e :: []) []
  = applyEditsAndGenerateMarkdown "T" [s] ([] ++ []) [].
Proof.
  intros s e.
  assert (H : forall s', In s' [s] -> sectionHeading e <> sc_heading s').
  { intros s' [<-|[]]. vm_compute. discriminate. }
  split; [exact H|].
  exact (@edit_for_unknown_heading_is_ignored "T" [s] [] [] e [] H).
Defined.

(** An edit that names the section, whose [originalText] occurs in the
    body and whose [newText] has no dollar sign, replaces the first
    occurrence and nothing else: what precedes and what follows it,
    later occurrences included, is kept as it is. *)
Theorem edit_replaces_first_occurrence_only
  (heading body : string) (e : ProposedEdit) :
  sectionHeading e = heading ->
  JsString.includes body (originalText e) ->
  JsString.dollarFree (newText e) = true ->
  exists preceding following,
    JsString.firstOccurrence body (originalText e) preceding following /\
    applyEdit heading body e = preceding ++ newText e ++ following.
Proof.
  intros Hh Hin Hd. unfold applyEdit.
  rewrite (proj2 (String.eqb_eq _ _) Hh).
  now apply replace_literal.
Qed.

Lemma edit_replaces_first_occurrence_witness :
  let e := {| sectionHeading := "Intro"; originalText := "ab";
              pe_feedback := EmptyString; newText := "X"; priority := LOW |} in
  (sectionHeading e = "Intro" /\
   JsString.includes "cabab" (originalText e) /\
   JsString.dollarFree (newText e) = true) /\
  exists preceding following,
    JsString.firstOccurrence "cabab" (originalText e) preceding following /\
    applyEdit "Intro" "cabab" e = preceding ++ newText e ++ following.
Proof.
  intros e.
  assert (H1 : sectionHeading e = "Intro") by reflexivity.
  assert (H2 : JsString.includes "cabab" (originalText e))
    by (apply includesb_true; vm_compute; reflexivity).
  assert (H3 : JsString.dollarFree (newText e) = true) by reflexivity.
  split; [repeat split; assumption|].
  exact (@edit_replaces_first_occurrence_only "Intro" "cabab" e H1 H2 H3).
Defined.

(** An edit with an empty [originalText] always matches, at position 0:
    its [newText] (without dollar sign) is put in front of the body. *)
Theorem edit_with_empty_originalText_prepends
  (heading body : string) (e : ProposedEdit) :
  sectionHeading e = heading ->
  originalText e = EmptyString ->
  JsString.dollarFree (newText e) = true ->
  applyEdit heading body e = newText e ++ body.
Proof.
  intros Hh Ho Hd. unfold applyEdit, JsString.replace.
  rewrite (proj2 (String.eqb_eq _ _) Hh), Ho.
  assert (E : JsString.splitAtFirst EmptyString body = Some (EmptyString, body))
    by (destruct body; reflexivity).
  rewrite E, GetSubstitution_dollarFree by assumption. reflexivity.
Qed.

Lemma edit_with_empty_originalText_witness :
  let e := {| sectionHeading := "Intro"; originalText := EmptyString;
              pe_feedback := EmptyString; newText := "New. "; priority := LOW |} in
  (sectionHeading e = "Intro" /\ originalText e = EmptyString /\
   JsString.dollarFree (newText e) = true) /\
  applyEdit "Intro" "Old." e = newText e ++ "Old.".
Proof.
  intros e. split; [repeat split; reflexivity|].
  exact (@edit_with_empty_originalText_prepends "Intro" "Old." e eq_refl eq_refl eq_refl).
Defined.

(** Edits of different sections do not interfere: two neighbours in the
    list of edits that name different headings can change places, and
    the document stays the same. *)
Theorem edits_of_different_sections_commute
  (title : string) (sections : list SectionContent)
  (before after : list ProposedEdit) (e1 e2 : ProposedEdit)
  (globalFeedback : list string) :
  sectionHeading e1 <> sectionHeading e2 ->
  applyEditsAndGenerateMarkdown title sections (before ++ e1 :: e2 :: after)
    globalFeedback
  = applyEditsAndGenerateMarkdown title sections (before ++ e2 :: e1 :: after)
      globalFeedback.
Proof.
  intros Hne. unfold applyEditsAndGenerateMarkdown. cbv zeta.
  rewrite (renderSections_ext (before ++ e1 :: e2 :: after)
             (before ++ e2 :: e1 :: after) sections); [reflexivity|].
  intros s _. rewrite !editedContent_app. cbn [fold_left]. f_equal.
  destruct (String.eqb (sectionHeading e1) (sc_heading s)) eqn:E1.
  - apply String.eqb_eq in E1.
    assert (H2 : sectionHeading e2 <> sc_heading s) by congruence.
    now rewrite !(fun b => @applyEdit_other_heading (sc_heading s) b e2 H2).
  - apply String.eqb_neq in E1.
    now rewrite !(fun b => @applyEdit_other_heading (sc_heading s) b e1 E1).
Qed.

Lemma edits_of_different_sections_witness :
  let s1 := {| sc_heading := "Intro"; sc_content := "foo bar";
               sc_references := None |} in
  let s2 := {| sc_heading := "Body"; sc_content := "foo baz";
               sc_references := None |} in
  let e1 := {| sectionHeading := "Intro"; originalText := "foo";
               pe_feedback := EmptyString; newText := "qux"; priority := LOW |} in
  let e2 := {| sectionHeading := "Body"; originalText := "foo";
               pe_feedback := EmptyString; newText := "quux"; priority := LOW |} in
  sectionHeading e1 <> sectionHeading e2 /\
  applyEditsAndGenerateMarkdown "T" [s1; s2] ([] ++ e1 :: e2 :: []) []
  = applyEditsAndGenerateMarkdown "T" [s1; s2] ([] ++ e2 :: e1 :: []) [].
Proof.
  intros s1 s2 e1 e2.
  assert (H : sectionHeading e1 <> sectionHeading e2)
    by (vm_compute; discriminate).
  split; [exact H|].
  exact (@edits_of_different_sections_commute "T" [s1; s2] [] [] e1 e2 [] H).
Defined.

(** ** The cost of a ledger (utils/calculateUsage.ts) *)

Section MoreCosts.

Local Open Scope Q_scope.


Lemma ledgerSum_roles (f : AgentRole -> AgentUsage -> Q) (usage : Usages) :
  ledgerSum f usage
  == Qsum (map (f OUTLINER) (usagesOf OUTLINER usage))
     + Qsum (map (f CONTENT_STRATEGIST) (usagesOf CONTENT_STRATEGIST usage))
     + Qsum (map (f WRITER) (usagesOf WRITER usage))
     + Qsum (map (f EDITOR) (usagesOf EDITOR usage))
     + Qsum (map (f EDITOR_IN_CHIEF) (usagesOf EDITOR_IN_CHIEF usage)).
Proof.
  unfold ledgerSum, entries, usagesOf, Qsum at 1.
  cbn [map fst snd fold_right]. ring.
Qed.



Ltac role_step :=
  match goal with
  | |- context [selfCost (fold_left (addUsage ?a) ?l ?c ?a)] =>
      rewrite (@addUsages_self a l c)
  | |- context [researcherCost (fold_left (addUsage ?a) ?l ?c ?a)] =>
      rewrite (@addUsages_research a l c)
  | |- context [fold_left (addUsage ?a) ?l ?c ?b] =>
      rewrite (@addUsages_other a b l c) by discriminate
  end.

(** What [calculateUsage] reports for one role: the self usages of the
    role's records at the rates of the role's model, and their nested
    researcher usages at the researcher's rates. *)
Theorem cost_of_one_role (usage : Usages) (role : AgentRole) :
  selfCost (perRole (calculateUsage usage) role)
  == Qsum (map (selfSpend role) (usagesOf role usage)) /\
  researcherCost (perRole (calculateUsage usage) role)
  == Qsum (map nestedSpend (usagesOf role usage)).
Proof.
  unfold calculateUsage, entries. cbn [perRole fold_left].
  destruct role; cbn [usagesOf]; split; repeat role_step; unfold zeroCosts;
    cbn [selfCost researcherCost]; ring.
Qed.

Lemma usagesOf_push (role r : AgentRole) (u : AgentUsage) (us : Usages) :
  usagesOf role (push r u us)
  = if AgentRole_eqb r role then (usagesOf role us ++ [u])%list
    else usagesOf role us.
Proof. destruct role, r; reflexivity. Qed.

Lemma Qsum_snoc {X : Type} (f : X -> Q) (l : list X) (x : X) :
  Qsum (map f (l ++ [x])%list) == Qsum (map f l) + f x.
Proof.
  induction l as [|y l IH]; unfold Qsum in *; cbn [app map fold_right];
    [ring|]. rewrite IH. ring.
Qed.

Lemma ledgerSum_push (f : AgentRole -> AgentUsage -> Q) (r : AgentRole)
  (u : AgentUsage) (us : Usages) :
  ledgerSum f (push r u us) == ledgerSum f us + f r u.
Proof.
  rewrite !ledgerSum_roles, !usagesOf_push.
  destruct r; cbn [AgentRole_eqb]; rewrite Qsum_snoc; ring.
Qed.

(** Appending one record to the ledger raises the agent total by the
    record's self usage at the rates of its role, and the research total
    by its nested usages; nothing else moves. *)
Theorem one_more_record (r : AgentRole) (u : AgentUsage) (us : Usages) :
  total_agentCosts (calculateUsage (push r u us))
  == total_agentCosts (calculateUsage us) + selfSpend r u /\
  total_researchCosts (calculateUsage (push r u us))
  == total_researchCosts (calculateUsage us) + nestedSpend u.
Proof.
  rewrite !total_agentCosts_sum, !total_researchCosts_sum.
  split; apply ledgerSum_push.
Qed.







End MoreCosts.


(** ** The run as a whole (orchestration/index.ts) *)

Lemma pushed_app (role : AgentRole) (a b : list Event) :
  pushed role (a ++ b)%list = (pushed role a ++ pushed role b)%list.
Proof.
  induction a as [|ev a IH]; [reflexivity|].
  destruct ev as [who c reply|r u]; cbn; [assumption|].
  destruct (AgentRole_eqb role r); cbn; now rewrite IH.
Qed.

Lemma answered_app (role : AgentRole) (a b : list Event) :
  answered role (a ++ b)%list = (answered role a ++ answered role b)%list.
Proof.
  induction a as [|ev a IH]; [reflexivity|].
  destruct ev as [who c [o|e]|r u]; cbn; try assumption.
  destruct (AgentRole_eqb role (roleOf c)); cbn; now rewrite IH.
Qed.

Lemma callRoles_app (a b : list Event) :
  callRoles (a ++ b)%list = (callRoles a ++ callRoles b)%list.
Proof.
  induction a as [|ev a IH]; [reflexivity|].
  destruct ev as [who c reply|r u]; cbn; now rewrite IH.
Qed.

Lemma Forall_updateAt {X : Type} (P : X -> Prop) (l : list X) (i : nat) (x : X) :
  Forall P l -> P x -> Forall P (updateAt i x l).
Proof.
  intros H. revert i. induction H as [|y l Hy Hl IH]; intros [|i] Hx; cbn;
    constructor; auto.
Qed.

(** *** What every step of the join keeps *)

Section PoolSteps.

Context {A : Type}.
Variable env : Agents.
Variable Inv : Async A -> Prop.
Variable Keeps : list Event -> Prop.
Hypothesis Keeps_nil : Keeps [].
Hypothesis Keeps_app : forall a b, Keeps a -> Keeps b -> Keeps (a ++ b)%list.
Hypothesis Inv_settle :
  forall t, Inv t -> Inv (fst (settle t)) /\ Keeps (snd (settle t)).
Hypothesis Inv_resume :
  forall who th,
    Inv (prog th) ->
    Inv (prog (fst (resume env who th))) /\ Keeps (snd (resume env who th)).

Lemma poolLoop_steps (sched : list nat) :
  forall (threads : list (Thread A)) (values : list (option A)),
    Forall (fun th => Inv (prog th)) threads ->
    Keeps (snd (poolLoop env sched threads values)).
Proof.
  induction sched as [|choice sched IH]; intros threads values Hall;
    [exact Keeps_nil|].
  cbn [poolLoop].
  destruct (pick choice threads) as [i|]; [|exact Keeps_nil].
  destruct (nth_error threads i) as [th|] eqn:Hth; [|exact Keeps_nil].
  assert (Hi : Inv (prog th)).
  { apply nth_error_In in Hth. rewrite Forall_forall in Hall. now apply Hall. }
  destruct (@Inv_resume i th Hi) as [Hi' Hs].
  destruct (resume env i th) as [th' step]. cbn [fst snd] in *.
  assert (Hall' : Forall (fun th => Inv (prog th)) (updateAt i th' threads))
    by now apply Forall_updateAt.
  destruct (prog th') as [v|e|r u k|c k].
  - destruct (allSome (updateAt i (Some v) values)); [exact Hs|].
    specialize (IH (updateAt i th' threads) (updateAt i (Some v) values) Hall').
    destruct (poolLoop env sched (updateAt i th' threads)
                (updateAt i (Some v) values)) as [res tr'].
    now apply Keeps_app.
  - exact Hs.
  - specialize (IH (updateAt i th' threads) values Hall').
    destruct (poolLoop env sched (updateAt i th' threads) values) as [res tr'].
    now apply Keeps_app.
  - specialize (IH (updateAt i th' threads) values Hall').
    destruct (poolLoop env sched (updateAt i th' threads) values) as [res tr'].
    now apply Keeps_app.
Qed.

Lemma startAll_steps (tasks : list (Async A)) :
  Forall Inv tasks ->
  Forall (fun th => Inv (prog th)) (fst (startAll tasks)) /\
  Keeps (snd (startAll tasks)).
Proof.
  induction 1 as [|t rest Ht Hrest IH]; cbn [startAll].
  - split; [constructor | exact Keeps_nil].
  - destruct (@Inv_settle t Ht) as [Hi Hs].
    destruct (settle t) as [t' tr]. destruct (startAll rest) as [ths tr'].
    cbn [fst snd] in *. destruct IH as [IH1 IH2]. split.
    + constructor; assumption.
    + now apply Keeps_app.
Qed.

Lemma promiseAll_steps (sched : list nat) (tasks : list (Async A)) :
  Forall Inv tasks -> Keeps (snd (promiseAll env sched tasks)).
Proof.
  intros Hall. unfold promiseAll.
  destruct (@startAll_steps tasks Hall) as [H1 H2].
  destruct (startAll tasks) as [threads tr0]. cbn [fst snd] in *.
  destruct (firstThrown threads); [exact H2|].
  destruct (allSome (map returned threads)); [exact H2|].
  pose proof (@poolLoop_steps sched threads (map returned threads) H1) as Hp.
  destruct (poolLoop env sched threads (map returned threads)) as [res tr'].
  now apply Keeps_app.
Qed.

End PoolSteps.

(** *** Every fulfilled call leaves one record *)

Lemma balanced_nil : balanced [].
Proof. intros role. reflexivity. Qed.

Lemma balanced_app (a b : list Event) :
  balanced a -> balanced b -> balanced (a ++ b)%list.
Proof.
  intros Ha Hb role. now rewrite pushed_app, answered_app, Ha, Hb.
Qed.

Lemma paired_settle {A : Type} (t : Async A) :
  paired None t -> settle t = (t, []).
Proof. destruct t; cbn; intros H; try reflexivity; contradiction. Qed.

Lemma exec_paired {A : Type} (env : Agents) (who : nat) (t : Async A) :
  forall owing hist,
    paired owing t ->
    forall role,
      pushed role (snd (exec env who hist t))
      = (owed owing role ++ answered role (snd (exec env who hist t)))%list.
Proof.
  induction t as [a|e|r u k IH|c k IH]; intros owing hist Hp role;
    destruct owing as [[r' u']|]; cbn in Hp; try contradiction;
    cbn [exec].
  - reflexivity.
  - reflexivity.
  - destruct Hp as (-> & -> & Hk). specialize (IH None hist Hk role).
    destruct (exec env who hist k) as [res tr]. cbn [fst snd] in *.
    cbn [pushed answered owed]. destruct (AgentRole_eqb role r'); cbn;
      now rewrite IH.
  - destruct (ask env who (countRole (roleOf c) hist) c) as [o|e];
      [|reflexivity].
    specialize (IH o (Some (roleOf c, usageOf c o)) (roleOf c :: hist)
                  (Hp o) role).
    destruct (exec env who (roleOf c :: hist) (k o)) as [res tr].
    cbn [fst snd] in *. cbn [pushed answered owed] in *.
    destruct (AgentRole_eqb role (roleOf c)); cbn in *; exact IH.
Qed.

Lemma paired_bind {A B : Type} (t : Async A) (f : A -> Async B) :
  (forall a, paired None (f a)) ->
  forall owing, paired owing t -> paired owing (bind t f).
Proof.
  intros Hf. induction t as [a|e|r u k IH|c k IH]; intros owing Hp;
    destruct owing as [[r' u']|]; cbn in *; try contradiction; auto.
  destruct Hp as (H1 & H2 & H3). auto.
Qed.

Lemma revisionLoop_paired (input : ArticleInput) (sectionPlan : SectionPlan)
  (n : nat) :
  forall st,
    MAX_ITERATIONS - iterations st <= n ->
    paired None (revisionLoop input sectionPlan st).
Proof.
  induction n as [|n IH]; intros st Hn; rewrite revisionLoop_body;
    destruct (continues st) eqn:Hc; try exact I.
  - apply continues_true in Hc. lia.
  - cbn. intros w. split; [reflexivity|]. split; [reflexivity|].
    intros eo. split; [reflexivity|]. split; [reflexivity|].
    apply IH. cbn [nextState iterations]. lia.
Qed.

Lemma sectionTask_paired (input : ArticleInput) (sectionPlan : SectionPlan) :
  paired None (sectionTask input sectionPlan).
Proof.
  unfold sectionTask. apply paired_bind.
  - intros st. now destruct (currentContent st).
  - now apply revisionLoop_paired with (n := MAX_ITERATIONS).
Qed.

Lemma strategyLoop_paired (input : ArticleInput) (o : ArticleOutline)
  (sections : list OutlineSection) :
  forall acc, paired None (strategyLoop input o sections acc).
Proof.
  induction sections as [|s rest IH]; intros acc; cbn; [exact I|].
  intros out. split; [reflexivity|]. split; [reflexivity|]. apply IH.
Qed.

Lemma planningPhases_paired (input : ArticleInput) :
  paired None (planningPhases input).
Proof.
  unfold planningPhases. cbn. intros out.
  split; [reflexivity|]. split; [reflexivity|].
  apply paired_bind; [intros cs; exact I | apply strategyLoop_paired].
Qed.

Lemma finalPhases_paired (input : ArticleInput) (o : ArticleOutline)
  (cs : list SectionPlan) (contents : list SectionContent) :
  paired None (finalPhases input o cs contents).
Proof.
  unfold finalPhases. cbn. intros review. repeat split.
Qed.

Lemma exec_balanced {A : Type} (env : Agents) (who : nat)
  (hist : list AgentRole) (t : Async A) :
  paired None t -> balanced (snd (exec env who hist t)).
Proof. intros H role. now rewrite (@exec_paired _ env who t None hist H). Qed.

Lemma promiseAll_balanced {A : Type} (env : Agents) (sched : list nat)
  (tasks : list (Async A)) :
  Forall (paired None) tasks -> balanced (snd (promiseAll env sched tasks)).
Proof.
  apply promiseAll_steps.
  - exact balanced_nil.
  - exact balanced_app.
  - intros t Ht. rewrite (@paired_settle _ t Ht). split; [exact Ht|].
    exact balanced_nil.
  - intros who th Hth. unfold resume.
    destruct (prog th) as [a|e|r u k|c k] eqn:Hprog;
      try (cbn [fst snd]; rewrite Hprog; split;
           [exact Hth | exact balanced_nil]).
    destruct (ask env who (countRole (roleOf c) (hist th)) c) as [o|e].
    + cbn in Hth. specialize (Hth o).
      destruct (k o) as [a|e|r u k'|c' k'] eqn:Hk; cbn in Hth;
        try contradiction.
      destruct Hth as (-> & -> & Hk'). cbn [settle].
      rewrite (@paired_settle _ k' Hk'). cbn [fst snd prog].
      split; [exact Hk'|]. intros role. cbn.
      now destruct (AgentRole_eqb role (roleOf c)).
    + cbn. split; [exact I|]. intros role. reflexivity.
Qed.

Lemma writeArticle_balanced (env : Agents) (sched : list nat)
  (input : ArticleInput) :
  balanced (snd (writeArticle env sched input)).
Proof.
  unfold writeArticle.
  pose proof (@exec_balanced _ env 0 [] (planningPhases input)
                (@planningPhases_paired input)) as H1.
  destruct (exec env 0 [] (planningPhases input)) as [[[o cs]|e] tr1];
    cbn [snd] in *; [|exact H1].
  assert (Htasks : Forall (paired None) (map (sectionTask input) cs)).
  { apply Forall_forall. intros t Ht. apply in_map_iff in Ht.
    destruct Ht as (p & <- & _). apply sectionTask_paired. }
  pose proof (@promiseAll_balanced _ env sched (map (sectionTask input) cs)
                Htasks) as H3.
  destruct (promiseAll env sched (map (sectionTask input) cs))
    as [[contents|e|] tr3]; cbn [snd] in *;
    try (now apply balanced_app).
  pose proof (@exec_balanced _ env 0 [] (finalPhases input o cs contents)
                (@finalPhases_paired input o cs contents)) as H4.
  destruct (exec env 0 [] (finalPhases input o cs contents)) as [[md|e] tr4];
    cbn [snd] in *; apply balanced_app; try assumption;
    now apply balanced_app.
Qed.

Lemma ledger_pushed (role : AgentRole) (tr : list Event) :
  forall us,
    usagesOf role (fold_left record tr us)
    = (usagesOf role us ++ pushed role tr)%list.
Proof.
  induction tr as [|ev tr IH]; intros us; cbn [fold_left pushed].
  - now rewrite app_nil_r.
  - destruct ev as [who c reply|r u]; cbn [record]; rewrite IH; [reflexivity|].
    rewrite usagesOf_push.
    replace (AgentRole_eqb r role) with (AgentRole_eqb role r)
      by (destruct role, r; reflexivity).
    destruct (AgentRole_eqb role r); [|reflexivity].
    now rewrite <- app_assoc.
Qed.

Lemma usages_match_answers
  (env : Agents) (sched : list nat) (input : ArticleInput) (role : AgentRole) :
  usagesOf role (ledger (snd (writeArticle env sched input)))
  = answered role (snd (writeArticle env sched input)).
Proof.
  unfold ledger. rewrite ledger_pushed.
  rewrite (writeArticle_balanced env sched input role).
  now destruct role.
Qed.

(** In every run, whatever the agents answer, whatever the completion
    order and however the run ends, the ledger holds for each role
    exactly the usages that the fulfilled calls to that role returned, in
    the order in which those calls completed: one record per fulfilled
    call, none for a rejected one. *)
Theorem ledger_holds_one_record_per_fulfilled_call
  (env : Agents) (sched : list nat) (input : ArticleInput) (role : AgentRole) :
  usagesOf role (ledger (snd (writeArticle env sched input)))
  = answered role (snd (writeArticle env sched input)).
Proof.
  unfold ledger. rewrite ledger_pushed.
  rewrite (writeArticle_balanced env sched input role).
  now destruct role.
Qed.

Lemma ledger_answered (env : Agents) (sched : list nat) (input : ArticleInput) :
  ledger (snd (writeArticle env sched input))
  = answeredLedger (snd (writeArticle env sched input)).
Proof.
  pose proof (usages_match_answers env sched input)
    as H.
  destruct (ledger (snd (writeArticle env sched input))) as [a b c d e] eqn:E.
  unfold answeredLedger.
  rewrite <- (H OUTLINER), <- (H CONTENT_STRATEGIST), <- (H WRITER),
    <- (H EDITOR), <- (H EDITOR_IN_CHIEF).
  reflexivity.
Qed.

Lemma resolved_cost (env : Agents) (sched : list nat) (input : ArticleInput)
  (a : Article) :
  fst (writeArticle env sched input) = Resolved a ->
  cost a
  = (total_agentCosts
       (calculateUsage (ledger (snd (writeArticle env sched input))))
     + total_researchCosts
         (calculateUsage (ledger (snd (writeArticle env sched input)))))%Q.
Proof.
  unfold writeArticle.
  destruct (exec env 0 [] (planningPhases input)) as [[[o cs]|e] tr1];
    [|discriminate].
  destruct (promiseAll env sched (map (sectionTask input) cs))
    as [[contents|e|] tr3]; try discriminate.
  destruct (exec env 0 [] (finalPhases input o cs contents)) as [[md|e] tr4];
    [|discriminate].
  cbn [fst snd]. intros H. inversion H. reflexivity.
Qed.

(** The cost that a run returns with its article is the spend of the
    usages returned by its fulfilled calls, each counted once: its self
    usage at the rates of the role that was called, its nested researcher
    usages at the researcher's rates. *)
Theorem returned_cost_is_the_spend_of_the_fulfilled_calls
  (env : Agents) (sched : list nat) (input : ArticleInput) :
  match fst (writeArticle env sched input) with
  | Resolved a =>
      (cost a
       == ledgerSum (fun role u => selfSpend role u + nestedSpend u)
            (answeredLedger (snd (writeArticle env sched input))))%Q
  | _ => True
  end.
Proof.
  destruct (fst (writeArticle env sched input)) as [a|e|] eqn:E; try exact I.
  rewrite (resolved_cost env sched input E), ledger_answered.
  rewrite ledgerSum_plus, total_agentCosts_sum, total_researchCosts_sum.
  reflexivity.
Qed.

(** *** The phases follow one another *)

Lemma confined_settle {A : Type} (P : AgentRole -> Prop) (t : Async A) :
  confined P t ->
  confined P (fst (settle t)) /\ Forall P (callRoles (snd (settle t))).
Proof.
  induction t as [a|e|r u k IH|c k IH]; cbn [settle]; intros H;
    try (split; [exact H | constructor]).
  cbn in H. destruct (IH H) as [H1 H2]. destruct (settle k) as [t' tr].
  cbn [fst snd] in *. split; assumption.
Qed.

Lemma exec_confined {A : Type} (P : AgentRole -> Prop) (env : Agents)
  (who : nat) (t : Async A) :
  forall hist,
    confined P t -> Forall P (callRoles (snd (exec env who hist t))).
Proof.
  induction t as [a|e|r u k IH|c k IH]; intros hist H; cbn [exec].
  - constructor.
  - constructor.
  - cbn in H. specialize (IH hist H).
    destruct (exec env who hist k) as [res tr]. exact IH.
  - cbn in H. destruct H as [Hc Hk].
    destruct (ask env who (countRole (roleOf c) hist) c) as [o|e].
    + specialize (IH o (roleOf c :: hist) (Hk o)).
      destruct (exec env who (roleOf c :: hist) (k o)) as [res tr].
      cbn [snd callRoles] in *. now constructor.
    + cbn. now constructor.
Qed.

Lemma confined_bind {A B : Type} (P : AgentRole -> Prop) (t : Async A)
  (f : A -> Async B) :
  confined P t -> (forall a, confined P (f a)) -> confined P (bind t f).
Proof.
  intros Ht Hf. induction t as [a|e|r u k IH|c k IH]; cbn in *; auto.
  destruct Ht as [Hc Hk]. split; auto.
Qed.

Lemma revisionLoop_confined (input : ArticleInput) (sectionPlan : SectionPlan)
  (n : nat) :
  forall st,
    MAX_ITERATIONS - iterations st <= n ->
    confined draftingRole (revisionLoop input sectionPlan st).
Proof.
  induction n as [|n IH]; intros st Hn; rewrite revisionLoop_body;
    destruct (continues st) eqn:Hc; try exact I.
  - apply continues_true in Hc. lia.
  - cbn. split; [now left|]. intros w. split; [now right|]. intros eo.
    apply IH. cbn [nextState iterations]. lia.
Qed.

Lemma sectionTask_confined (input : ArticleInput) (sectionPlan : SectionPlan) :
  confined draftingRole (sectionTask input sectionPlan).
Proof.
  unfold sectionTask. apply confined_bind.
  - now apply revisionLoop_confined with (n := MAX_ITERATIONS).
  - intros st. now destruct (currentContent st).
Qed.

Lemma strategyLoop_confined (input : ArticleInput) (o : ArticleOutline)
  (sections : list OutlineSection) :
  forall acc,
    confined (eq CONTENT_STRATEGIST) (strategyLoop input o sections acc).
Proof.
  induction sections as [|s rest IH]; intros acc; cbn; [exact I|].
  split; [reflexivity|]. intros out. apply IH.
Qed.

Lemma Forall_callRoles_app (P : AgentRole -> Prop) (a b : list Event) :
  Forall P (callRoles a) -> Forall P (callRoles b) ->
  Forall P (callRoles (a ++ b)%list).
Proof. intros Ha Hb. rewrite callRoles_app. apply Forall_app. now split. Qed.

Lemma promiseAll_confined {A : Type} (P : AgentRole -> Prop) (env : Agents)
  (sched : list nat) (tasks : list (Async A)) :
  Forall (confined P) tasks ->
  Forall P (callRoles (snd (promiseAll env sched tasks))).
Proof.
  apply (@promiseAll_steps A env (confined P)
           (fun tr => Forall P (callRoles tr))).
  - constructor.
  - apply Forall_callRoles_app.
  - apply confined_settle.
  - intros who th Hth. unfold resume.
    destruct (prog th) as [a|e|r u k|c k] eqn:Hprog;
      try (cbn [fst snd]; rewrite Hprog; split; [exact Hth | constructor]).
    cbn in Hth. destruct Hth as [Hc Hk].
    destruct (ask env who (countRole (roleOf c) (hist th)) c) as [o|e].
    + destruct (confined_settle P (k o) (Hk o)) as [H1 H2].
      destruct (settle (k o)) as [t' tr]. cbn [fst snd prog callRoles] in *.
      split; [assumption | now constructor].
    + cbn. split; [exact I | now constructor].
Qed.

Lemma planning_roles (env : Agents) (input : ArticleInput) :
  exists strategists,
    callRoles (snd (exec env 0 [] (planningPhases input)))
    = OUTLINER :: strategists /\
    Forall (eq CONTENT_STRATEGIST) strategists.
Proof.
  unfold planningPhases. cbn [exec roleOf].
  destruct (ask env 0 (countRole OUTLINER [])
              (OutlinerRun {| oi_subject := subject input;
                              oi_customInstructions :=
                                customInstructions input |})) as [out|e].
  - assert (H : Forall (eq CONTENT_STRATEGIST)
                 (callRoles
                    (snd (exec env 0 [OUTLINER]
                            (let* contentStrategy :=
                               strategyLoop input (outline out)
                                 (ao_sections (outline out)) [] in
                             Ret (outline out, contentStrategy)))))).
    { apply exec_confined. apply confined_bind;
        [apply strategyLoop_confined | intros cs; exact I]. }
    match goal with
    | |- context [exec env 0 ?h ?t] =>
        change (Forall (eq CONTENT_STRATEGIST)
                  (callRoles (snd (exec env 0 h t)))) in H;
        destruct (exec env 0 h t) as [res tr]
    end.
    cbn [snd callRoles roleOf] in *. exists (callRoles tr).
    split; [reflexivity | exact H].
  - exists []. split; [reflexivity | constructor].
Qed.

Lemma final_roles (env : Agents) (input : ArticleInput) (o : ArticleOutline)
  (cs : list SectionPlan) (contents : list SectionContent) :
  callRoles (snd (exec env 0 [] (finalPhases input o cs contents)))
  = [EDITOR_IN_CHIEF].
Proof.
  unfold finalPhases. cbn [exec roleOf].
  match goal with
  | |- context [ask ?e ?w ?n ?c] => destruct (ask e w n c) as [r|err]
  end; reflexivity.
Qed.

(** Whatever the agents answer and in whatever order the section calls
    complete, the calls of a run come in the order of the phases: first
    the outliner, once; then only the content strategist; then only
    writers and editors; and last, if the run gets that far, the editor
    in chief, once. *)
Theorem calls_follow_the_phases
  (env : Agents) (sched : list nat) (input : ArticleInput) :
  exists strategists drafting final,
    callRoles (snd (writeArticle env sched input))
    = (OUTLINER :: strategists ++ drafting ++ final)%list /\
    Forall (eq CONTENT_STRATEGIST) strategists /\
    Forall draftingRole drafting /\
    (final = [] \/ final = [EDITOR_IN_CHIEF]).
Proof.
  unfold writeArticle.
  destruct (planning_roles env input) as (ss & H1 & Hss).
  destruct (exec env 0 [] (planningPhases input)) as [[[o cs]|e] tr1];
    cbn [snd] in H1.
  2:{ exists ss, [], []. cbn [snd]. rewrite H1, !app_nil_r. auto. }
  assert (Htasks : Forall (confined draftingRole) (map (sectionTask input) cs)).
  { apply Forall_forall. intros t Ht. apply in_map_iff in Ht.
    destruct Ht as (p & <- & _). apply sectionTask_confined. }
  pose proof (@promiseAll_confined _ draftingRole env sched
                (map (sectionTask input) cs) Htasks) as H3.
  destruct (promiseAll env sched (map (sectionTask input) cs))
    as [[contents|e|] tr3]; cbn [snd] in H3.
  - pose proof (final_roles env input o cs contents) as H4.
    exists ss, (callRoles tr3), [EDITOR_IN_CHIEF].
    destruct (exec env 0 [] (finalPhases input o cs contents))
      as [[md|e] tr4]; cbn [snd] in *;
      rewrite !callRoles_app, H1, H4; auto.
  - exists ss, (callRoles tr3), []. cbn [snd].
    rewrite callRoles_app, H1, app_nil_r. auto.
  - exists ss, (callRoles tr3), []. cbn [snd].
    rewrite callRoles_app, H1, app_nil_r. auto.
Qed.

(** *** How many calls a run can make *)

Section Bounds.

Context {A : Type}.
Variable env : Agents.

Lemma pick_Some (threads : list (Thread A)) (choice i : nat) :
  pick choice threads = Some i ->
  exists th, nth_error threads i = Some th /\ isPending th = true.
Proof.
  unfold pick. intros H. apply nth_error_In in H.
  apply (proj1 (@pendingFrom_In _ threads 0 i)) in H.
  destruct H as (th & _ & Hth & Hp). rewrite Nat.sub_0_r in Hth. eauto.
Qed.

Lemma poolLoop_bound (p : Event -> bool) (sched : list nat) :
  forall (threads : list (Thread A)) (values : list (option A)),
    count p (snd (poolLoop env sched threads values))
    <= remaining env p threads.
Proof.
  induction sched as [|choice sched IH]; intros threads values;
    cbn [poolLoop]; [cbn; lia|].
  destruct (pick choice threads) as [i|] eqn:Hpick; [|cbn; lia].
  destruct (pick_Some threads choice Hpick) as (th & Hth & Hp).
  rewrite Hth.
  destruct (@resume_run _ env i th Hp) as (Hrun & _ & _).
  destruct (resume env i th) as [th' step]. cbn [fst snd] in *.
  assert (Hrem : remaining env p threads
                 = count p step + remaining env p (updateAt i th' threads)).
  { unfold remaining.
    pose proof (sumFrom_updateAt
                  (fun j th => count p (snd (run env j th)))
                  threads 0 i th' Hth) as Hs.
    cbn [Nat.add] in Hs. rewrite Hrun in Hs at 1. cbn [snd] in Hs.
    rewrite count_app in Hs. lia. }
  destruct (prog th') as [v|e|r u k|c k].
  - destruct (allSome (updateAt i (Some v) values)); [cbn [snd]; lia|].
    specialize (IH (updateAt i th' threads) (updateAt i (Some v) values)).
    destruct (poolLoop env sched (updateAt i th' threads)
                (updateAt i (Some v) values)) as [res tr'].
    cbn [snd] in *. rewrite count_app. lia.
  - cbn [snd]. lia.
  - specialize (IH (updateAt i th' threads) values).
    destruct (poolLoop env sched (updateAt i th' threads) values)
      as [res tr'].
    cbn [snd] in *. rewrite count_app. lia.
  - specialize (IH (updateAt i th' threads) values).
    destruct (poolLoop env sched (updateAt i th' threads) values)
      as [res tr'].
    cbn [snd] in *. rewrite count_app. lia.
Qed.

Lemma promiseAll_bound (p : Event -> bool) (sched : list nat)
  (tasks : list (Async A)) :
  count p (snd (promiseAll env sched tasks))
  <= total p (execAllFrom env 0 tasks).
Proof.
  unfold promiseAll.
  destruct (@startAll_spec _ env tasks 0) as (_ & S2 & _ & _).
  specialize (S2 p).
  destruct (startAll tasks) as [threads tr0]. cbn [fst snd] in *.
  destruct (firstThrown threads); [cbn [snd]; lia|].
  destruct (allSome (map returned threads)); [cbn [snd]; lia|].
  pose proof (poolLoop_bound p sched threads (map returned threads)) as Hp.
  unfold remaining in Hp.
  destruct (poolLoop env sched threads (map returned threads)) as [res tr'].
  cbn [snd] in *. rewrite count_app. lia.
Qed.

End Bounds.

Lemma strategyLoop_bound (env : Agents) (who : nat) (input : ArticleInput)
  (o : ArticleOutline) (sections : list OutlineSection) :
  forall acc hist,
    let r := exec env who hist (strategyLoop input o sections acc) in
    count isCalled (snd r) <= List.length sections /\
    forall cs, fst r = Fulfilled cs ->
               List.length cs = List.length acc + List.length sections.
Proof.
  induction sections as [|s rest IH]; intros acc hist; cbv zeta.
  - cbn. split; [lia|]. intros cs H. inversion H. lia.
  - cbn [strategyLoop exec].
    match goal with
    | |- context [ask ?e ?w ?n ?c] => destruct (ask e w n c) as [out|err]
    end.
    + specialize (IH (acc ++ [plan out])%list
                    (roleOf (ContentStrategistRun
                               {| csi_outline := o; csi_section := s;
                                  csi_customInstructions :=
                                    customInstructions input;
                                  previousStrategies := Some acc |}) :: hist)).
      cbv zeta in IH.
      cbn [roleOf] in *.
      destruct (exec env who (CONTENT_STRATEGIST :: hist)
                  (strategyLoop input o rest (acc ++ [plan out])%list))
        as [res tr].
      cbn [fst snd] in *. destruct IH as [I1 I2]. split.
      * unfold count in *. cbn [filter isCalled List.length]. lia.
      * intros cs Hcs. rewrite (I2 cs Hcs), length_app. cbn. lia.
    + cbn. split; [lia | discriminate].
Qed.

Lemma planningPhases_bound (env : Agents) (input : ArticleInput) :
  let r := exec env 0 [] (planningPhases input) in
  match outliner_run env (outlinerInput input) with
  | Fulfilled out =>
      count isCalled (snd r) <= 1 + List.length (ao_sections (outline out)) /\
      forall o cs, fst r = Fulfilled (o, cs) ->
                   List.length cs = List.length (ao_sections (outline out))
  | Rejected e => r = (Rejected e, [Called 0 (OutlinerRun (outlinerInput input))
                                      (Rejected e)])
  end.
Proof.
  cbv zeta. unfold planningPhases. cbn [exec ask roleOf].
  fold (outlinerInput input).
  destruct (outliner_run env (outlinerInput input)) as [out|e];
    [|reflexivity].
  cbn [exec]. rewrite exec_bind.
  pose proof (strategyLoop_bound env 0 input (outline out)
                (ao_sections (outline out)) [] [OUTLINER]) as H.
  cbv zeta in H.
  destruct (exec env 0 [OUTLINER]
              (strategyLoop input (outline out) (ao_sections (outline out)) []))
    as [[cs|e] tr]; cbn [fst snd] in *; destruct H as [H1 H2].
  - cbn [exec]. rewrite app_nil_r. split.
    + unfold count in *. cbn [snd filter isCalled List.length]. lia.
    + intros o cs' E. inversion E; subst. now apply H2.
  - split.
    + unfold count in *. cbn [snd filter isCalled List.length]. lia.
    + intros o cs' E. discriminate.
Qed.

Lemma finalPhases_calls (env : Agents) (input : ArticleInput)
  (o : ArticleOutline) (cs : list SectionPlan) (contents : list SectionContent) :
  count isCalled (snd (exec env 0 [] (finalPhases input o cs contents))) = 1.
Proof.
  unfold finalPhases. cbn [exec roleOf].
  match goal with
  | |- context [ask ?e ?w ?n ?c] => destruct (ask e w n c) as [r|err]
  end; reflexivity.
Qed.

(** A run makes at most two calls plus seven per section of the outline:
    one outline, one strategy per section, at most [MAX_ITERATIONS]
    drafts and as many reviews per section, and one final review.  When
    the outliner fails, its call is the only one. *)
Theorem calls_of_a_run_are_bounded
  (env : Agents) (sched : list nat) (input : ArticleInput) :
  match outliner_run env (outlinerInput input) with
  | Fulfilled out =>
      count isCalled (snd (writeArticle env sched input))
      <= 2 + (1 + 2 * MAX_ITERATIONS) * List.length (ao_sections (outline out))
  | Rejected _ =>
      count isCalled (snd (writeArticle env sched input)) = 1
  end.
Proof.
  unfold writeArticle.
  pose proof (planningPhases_bound env input) as H1. cbv zeta in H1.
  destruct (outliner_run env (outlinerInput input)) as [out|e].
  2:{ rewrite H1. reflexivity. }
  destruct (exec env 0 [] (planningPhases input)) as [[[o cs]|e] tr1];
    cbn [fst snd] in H1; destruct H1 as [B1 L1].
  2:{ cbn [snd]. lia. }
  specialize (L1 o cs eq_refl).
  pose proof (@promiseAll_bound _ env isCalled sched
                (map (sectionTask input) cs)) as B3.
  pose proof (sectionTasks_total env input cs 0) as T3.
  destruct (promiseAll env sched (map (sectionTask input) cs))
    as [[contents|e|] tr3]; cbn [snd] in B3.
  - pose proof (finalPhases_calls env input o cs contents) as B4.
    destruct (exec env 0 [] (finalPhases input o cs contents))
      as [[md|e] tr4]; cbn [snd] in *; rewrite !count_app; lia.
  - cbn [snd]. rewrite count_app. lia.
  - cbn [snd]. rewrite count_app. lia.
Qed.

(** A run is settled, resolved or rejected, by the time six calls per
    section of the outline have completed in the drafting phase: no
    completion order keeps it waiting longer. *)
Theorem run_settles_within_six_calls_per_section
  (env : Agents) (sched : list nat) (input : ArticleInput) :
  (forall out,
     outliner_run env (outlinerInput input) = Fulfilled out ->
     2 * MAX_ITERATIONS * List.length (ao_sections (outline out))
     <= List.length sched) ->
  fst (writeArticle env sched input) <> Running.
Proof.
  intros Hlen. unfold writeArticle.
  pose proof (planningPhases_bound env input) as H1. cbv zeta in H1.
  destruct (outliner_run env (outlinerInput input)) as [out|e].
  2:{ rewrite H1. discriminate. }
  specialize (Hlen out eq_refl).
  destruct (exec env 0 [] (planningPhases input)) as [[[o cs]|e] tr1];
    cbn [fst snd] in H1; destruct H1 as [B1 L1]; [|discriminate].
  specialize (L1 o cs eq_refl).
  assert (Htot : total isCalled
                   (execAllFrom env 0 (map (sectionTask input) cs))
                 <= List.length sched).
  { pose proof (sectionTasks_total env input cs 0). lia. }
  pose proof (promiseAll_spec env sched (map (sectionTask input) cs) Htot)
    as Hspec.
  destruct (promiseAll env sched (map (sectionTask input) cs))
    as [[contents|e|] tr3]; [| discriminate | contradiction].
  destruct (exec env 0 [] (finalPhases input o cs contents))
    as [[md|e] tr4]; discriminate.
Qed.

(** *** The rounds of one section *)

Section Rounds.

Variable env : Agents.
Variable who : nat.
Variable input : ArticleInput.
Variable sectionPlan : SectionPlan.

(** The drafts and reviews of the loop run from any state. *)
Lemma revisionLoop_rounds (hist : list AgentRole) (st : LoopState) :
  let tr := snd (exec env who hist (revisionLoop input sectionPlan st)) in
  if continues st then
    let wi := writerInput input sectionPlan st in
    match writer_run env who (countRole WRITER hist) wi with
    | Rejected e => drafts tr = [(wi, Rejected e)] /\ reviews tr = []
    | Fulfilled w =>
        let ei := editorInput input st w in
        match editor_run env who (countRole EDITOR hist) ei with
        | Rejected e =>
            drafts tr = [(wi, Fulfilled w)] /\ reviews tr = [(ei, Rejected e)]
        | Fulfilled eo =>
            let tr' :=
              snd (exec env who (EDITOR :: WRITER :: hist)
                     (revisionLoop input sectionPlan (nextState st w eo))) in
            drafts tr = (wi, Fulfilled w) :: drafts tr' /\
            reviews tr = (ei, Fulfilled eo) :: reviews tr'
        end
    end
  else drafts tr = [] /\ reviews tr = [].
Proof.
  cbv zeta. rewrite exec_revisionLoop.
  destruct (continues st); [|split; reflexivity]. cbv zeta.
  destruct (writer_run env who (countRole WRITER hist)
              (writerInput input sectionPlan st)) as [w|e];
    [|split; reflexivity].
  destruct (editor_run env who (countRole EDITOR hist)
              (editorInput input st w)) as [eo|e]; [|split; reflexivity].
  destruct (exec env who (EDITOR :: WRITER :: hist)
              (revisionLoop input sectionPlan (nextState st w eo)))
    as [res tr].
  split; reflexivity.
Qed.

Lemma continues_nextState (st : LoopState) (w : WriterOutput)
  (eo : EditorOutput) :
  continues (nextState st w eo) = true ->
  approved (eo_feedback eo) = false /\
  currentFeedback (nextState st w eo)
  = Some {| previousContent := content w;
            editorFeedback := eo_feedback eo |}.
Proof.
  intros H. apply continues_true in H. destruct H as [H1 H2].
  cbn [nextState isApproved iterations currentFeedback] in *.
  split; [assumption|]. rewrite H1.
  apply Nat.ltb_lt in H2. now rewrite H2.
Qed.

(** How the rounds of the loop hang together, from any state. *)
Lemma revisionLoop_threads (n : nat) :
  forall (hist : list AgentRole) (st : LoopState),
    MAX_ITERATIONS - iterations st <= n ->
    let tr := snd (exec env who hist (revisionLoop input sectionPlan st)) in
    (forall wi r, nth_error (drafts tr) 0 = Some (wi, r) ->
                  continues st = true /\
                  wi = writerInput input sectionPlan st) /\
    (forall i wi r,
       nth_error (drafts tr) (S i) = Some (wi, r) ->
       exists wi0 w ei eo,
         nth_error (drafts tr) i = Some (wi0, Fulfilled w) /\
         nth_error (reviews tr) i = Some (ei, Fulfilled eo) /\
         approved (eo_feedback eo) = false /\
         wi = {| wi_plan := sectionPlan;
                 wi_customInstructions := customInstructions input;
                 wi_feedback :=
                   Some {| previousContent := content w;
                           editorFeedback := eo_feedback eo |} |}) /\
    (forall i ei r,
       nth_error (reviews tr) i = Some (ei, r) ->
       exists wi w,
         nth_error (drafts tr) i = Some (wi, Fulfilled w) /\
         ei = {| ei_content := content w;
                 ei_customInstructions := customInstructions input;
                 ei_feedback := reviewFeedback wi w |}).
Proof.
  induction n as [|n IH]; intros hist st Hn; cbv zeta;
    pose proof (revisionLoop_rounds hist st) as R; cbv zeta in R;
    destruct (continues st) eqn:Hc.
  - apply continues_true in Hc. lia.
  - destruct R as [-> ->]. repeat split; intros; try destruct i; discriminate.
  - destruct (writer_run env who (countRole WRITER hist)
                (writerInput input sectionPlan st)) as [w|e].
    2:{ destruct R as [-> ->]. split; [|split].
        - intros wi r H. inversion H. auto.
        - intros [|i] wi r H; discriminate.
        - intros [|i] ei r H; discriminate. }
    destruct (editor_run env who (countRole EDITOR hist)
                (editorInput input st w)) as [eo|e].
    2:{ destruct R as [-> ->]. split; [|split].
        - intros wi r H. inversion H. auto.
        - intros [|i] wi r H; discriminate.
        - intros [|[|i]] ei r H; try discriminate.
          inversion H. eexists _, _. split; reflexivity. }
    destruct R as [-> ->].
    assert (Hn' : MAX_ITERATIONS - iterations (nextState st w eo) <= n)
      by (cbn [nextState iterations]; lia).
    destruct (IH (EDITOR :: WRITER :: hist) (nextState st w eo) Hn')
      as (I1 & I2 & I3).
    split; [|split].
    + intros wi r H. inversion H. auto.
    + intros [|i] wi r H; cbn [nth_error] in *.
      * destruct (I1 wi r H) as [Hcont ->].
        destruct (continues_nextState st w eo Hcont) as [Happ Hfb].
        eexists _, _, _, _. split; [reflexivity|]. split; [reflexivity|].
        split; [assumption|]. unfold writerInput. now rewrite Hfb.
      * exact (I2 i wi r H).
    + intros [|i] ei r H; cbn [nth_error] in *.
      * inversion H. eexists _, _. split; reflexivity.
      * exact (I3 i ei r H).
  - destruct R as [-> ->]. repeat split; intros; try destruct i; discriminate.
Qed.

(** Where the loop ends, from any state. *)
Lemma revisionLoop_last (n : nat) :
  forall (hist : list AgentRole) (st : LoopState),
    MAX_ITERATIONS - iterations st <= n ->
    match exec env who hist (revisionLoop input sectionPlan st) with
    | (Fulfilled st', tr) =>
        iterations st' = iterations st + List.length (reviews tr) /\
        ((tr = [] /\ st' = st) \/
         exists pre wi w pre' ei eo,
           drafts tr = (pre ++ [(wi, Fulfilled w)])%list /\
           reviews tr = (pre' ++ [(ei, Fulfilled eo)])%list /\
           currentContent st' = Some (content w) /\
           ei_content ei = content w /\
           isApproved st' = approved (eo_feedback eo))
    | (Rejected e, tr) =>
        exists pre c, tr = (pre ++ [Called who c (Rejected e)])%list
    end.
Proof.
  induction n as [|n IH]; intros hist st Hn;
    pose proof (revisionLoop_rounds hist st) as R; cbv zeta in R;
    rewrite exec_revisionLoop in *; destruct (continues st) eqn:Hc.
  - apply continues_true in Hc. lia.
  - split; [cbn; lia | now left].
  - cbv zeta in *.
    destruct (writer_run env who (countRole WRITER hist)
                (writerInput input sectionPlan st)) as [w|e].
    2:{ exists [], (WriterRun (writerInput input sectionPlan st)). reflexivity. }
    destruct (editor_run env who (countRole EDITOR hist)
                (editorInput input st w)) as [eo|e].
    2:{ exists [Called who (WriterRun (writerInput input sectionPlan st))
                  (Fulfilled w); Pushed WRITER (wo_usage w)],
               (EditorRun (editorInput input st w)). reflexivity. }
    assert (Hn' : MAX_ITERATIONS - iterations (nextState st w eo) <= n)
      by (cbn [nextState iterations]; lia).
    specialize (IH (EDITOR :: WRITER :: hist) (nextState st w eo) Hn').
    destruct (exec env who (EDITOR :: WRITER :: hist)
                (revisionLoop input sectionPlan (nextState st w eo)))
      as [[st'|e] tr]; cbn [fst snd] in *.
    + destruct R as [Rd Rr]. destruct IH as [Hit Hlast]. split.
      * rewrite Rr, Hit. cbn [nextState iterations List.length]. lia.
      * right. destruct Hlast as [[-> ->]|
          (pre & wi & w' & pre' & ei & eo' & Hd & Hr & Hcur & Hei & Happ)].
        -- exists [], (writerInput input sectionPlan st), w,
             [], (editorInput input st w), eo.
           rewrite Rd, Rr. repeat split.
        -- exists ((writerInput input sectionPlan st, Fulfilled w) :: pre),
             wi, w',
             ((editorInput input st w, Fulfilled eo) :: pre'), ei, eo'.
           rewrite Rd, Rr, Hd, Hr. repeat split; assumption.
    + destruct IH as (pre & c & ->).
      exists (Called who (WriterRun (writerInput input sectionPlan st))
                (Fulfilled w)
              :: Pushed WRITER (wo_usage w)
              :: Called who (EditorRun (editorInput input st w)) (Fulfilled eo)
              :: Pushed EDITOR (eo_usage eo) :: pre), c.
      reflexivity.
  - split; [cbn; lia | now left].
Qed.

End Rounds.

(** The rounds of a section hang together as follows, whatever the
    agents answer.  The first writer call gets the plan and no feedback.
    A further draft is asked for only after the editor refused the one
    before, and the writer is then given that draft and that refusal.
    Every review is of the draft just written, and the editor gets the
    feedback the writer got together with the writer's response to it. *)
Theorem each_round_is_given_the_round_before
  (env : Agents) (who : nat) (input : ArticleInput) (sectionPlan : SectionPlan) :
  let tr := snd (exec env who [] (sectionTask input sectionPlan)) in
  (forall wi r,
     nth_error (drafts tr) 0 = Some (wi, r) ->
     wi = {| wi_plan := sectionPlan;
             wi_customInstructions := customInstructions input;
             wi_feedback := None |}) /\
  (forall i wi r,
     nth_error (drafts tr) (S i) = Some (wi, r) ->
     exists wi0 w ei eo,
       nth_error (drafts tr) i = Some (wi0, Fulfilled w) /\
       nth_error (reviews tr) i = Some (ei, Fulfilled eo) /\
       approved (eo_feedback eo) = false /\
       wi = {| wi_plan := sectionPlan;
               wi_customInstructions := customInstructions input;
               wi_feedback :=
                 Some {| previousContent := content w;
                         editorFeedback := eo_feedback eo |} |}) /\
  (forall i ei r,
     nth_error (reviews tr) i = Some (ei, r) ->
     exists wi w,
       nth_error (drafts tr) i = Some (wi, Fulfilled w) /\
       ei = {| ei_content := content w;
               ei_customInstructions := customInstructions input;
               ei_feedback := reviewFeedback wi w |}).
Proof.
  cbv zeta. rewrite sectionTask_trace.
  destruct (@revisionLoop_threads env who input sectionPlan MAX_ITERATIONS
              [] initialState (le_n _)) as (H1 & H2 & H3).
  split; [|split; assumption].
  intros wi r H. now destruct (H1 wi r H) as [_ ->].
Qed.

(** A section callback that is fulfilled returns the content of its last
    draft, and the editor has reviewed exactly that content: either the
    editor approved it, or it is the draft of round [MAX_ITERATIONS].
    The callback is never fulfilled with a draft no editor has seen. *)
Theorem section_returns_its_last_reviewed_draft
  (env : Agents) (who : nat) (input : ArticleInput) (sectionPlan : SectionPlan)
  (c : SectionContent) :
  fst (exec env who [] (sectionTask input sectionPlan)) = Fulfilled c ->
  let tr := snd (exec env who [] (sectionTask input sectionPlan)) in
  exists pre wi w pre' ei eo,
    drafts tr = (pre ++ [(wi, Fulfilled w)])%list /\
    reviews tr = (pre' ++ [(ei, Fulfilled eo)])%list /\
    c = content w /\
    ei_content ei = c /\
    (approved (eo_feedback eo) = true \/
     List.length (reviews tr) = MAX_ITERATIONS).
Proof.
  cbv zeta. rewrite exec_sectionTask.
  pose proof (@revisionLoop_last env who input sectionPlan MAX_ITERATIONS
                [] initialState (le_n _)) as L.
  pose proof (@revisionLoop_run env who input sectionPlan MAX_ITERATIONS
                [] initialState (le_n _)) as (B & _ & _ & _ & F).
  destruct (exec env who [] (revisionLoop input sectionPlan initialState))
    as [[st'|e] tr]; cbn [fst snd] in *.
  2:{ discriminate. }
  destruct (F st' eq_refl) as (Hstop & Hcount & _).
  destruct L as [Hit [[-> ->]|
    (pre & wi & w & pre' & ei & eo & Hd & Hr & Hcur & Hei & Happ)]].
  - discriminate.
  - rewrite Hcur. cbn [fst snd]. intros H. inversion H; subst c.
    exists pre, wi, w, pre', ei, eo. repeat split; try assumption.
    unfold continues in Hstop. rewrite Happ in Hstop.
    destruct (approved (eo_feedback eo)); [now left|right].
    cbn [negb andb] in Hstop. apply Nat.ltb_ge in Hstop.
    cbn [initialState iterations] in Hit, Hcount. lia.
Qed.

(** A section callback is rejected only by the rejection of one of its
    own writer or editor calls, which is then the last thing it did: the
    guard of lines 143-150 never throws, because the loop is entered at
    least once and every round that completes leaves a content. *)
Theorem section_is_rejected_only_by_a_failed_call
  (env : Agents) (who : nat) (input : ArticleInput) (sectionPlan : SectionPlan)
  (e : Error) :
  fst (exec env who [] (sectionTask input sectionPlan)) = Rejected e ->
  exists pre c,
    snd (exec env who [] (sectionTask input sectionPlan))
    = (pre ++ [Called who c (Rejected e)])%list /\
    draftingRole (roleOf c).
Proof.
  rewrite exec_sectionTask.
  pose proof (@revisionLoop_last env who input sectionPlan MAX_ITERATIONS
                [] initialState (le_n _)) as L.
  pose proof (@revisionLoop_run env who input sectionPlan MAX_ITERATIONS
                [] initialState (le_n _)) as (_ & _ & _ & _ & F).
  pose proof (@exec_confined _ draftingRole env who
                (revisionLoop input sectionPlan initialState) []
                (@revisionLoop_confined input sectionPlan MAX_ITERATIONS
                   initialState (le_n _))) as Hroles.
  destruct (exec env who [] (revisionLoop input sectionPlan initialState))
    as [[st'|e'] tr]; cbn [fst snd] in *.
  - destruct L as [_ [[-> ->]|
      (pre & wi & w & pre' & ei & eo & Hd & Hr & Hcur & Hei & Happ)]].
    + destruct (F initialState eq_refl) as [Hstop _]. discriminate.
    + rewrite Hcur. discriminate.
  - intros H. inversion H; subst e'. destruct L as (pre & c & ->).
    exists pre, c. split; [reflexivity|].
    rewrite callRoles_app in Hroles. apply Forall_app in Hroles.
    destruct Hroles as [_ Hlast]. now inversion Hlast.
Qed.

(** *** An outline without sections *)

(** When the outliner returns no section, the run makes no strategist,
    writer or editor call and waits for nothing: for every schedule, the
    empty one included, the join over no callback is fulfilled at once,
    and the editor in chief is called next, with no plan and no section
    content. *)
Theorem empty_outline_goes_straight_to_the_final_review
  (env : Agents) (sched : list nat) (input : ArticleInput)
  (out : OutlinerOutput) :
  outliner_run env (outlinerInput input) = Fulfilled out ->
  ao_sections (outline out) = [] ->
  let review := editorInChief_run env (finalReviewInput input (outline out) [] []) in
  fst (writeArticle env sched input) <> Running /\
  snd (writeArticle env sched input)
  = (Called 0 (OutlinerRun (outlinerInput input)) (Fulfilled out)
     :: Pushed OUTLINER (oo_usage out)
     :: Called 0 (EditorInChiefRun
                    (finalReviewInput input (outline out) [] [])) review
     :: match review with
        | Fulfilled r => [Pushed EDITOR_IN_CHIEF (eic_usage r)]
        | Rejected _ => []
        end)%list.
Proof.
  intros Hout Hempty. cbv zeta.
  unfold writeArticle, planningPhases. cbn [exec ask roleOf].
  fold (outlinerInput input). rewrite Hout. cbn [exec]. rewrite Hempty.
  cbn [strategyLoop bind exec map promiseAll startAll firstThrown allSome].
  unfold finalPhases. cbn [exec ask roleOf].
  fold (finalReviewInput input (outline out) [] []).
  destruct (editorInChief_run env (finalReviewInput input (outline out) [] []))
    as [r|e]; cbn; split; try discriminate; reflexivity.
Qed.

(** *** The prompt of the content strategist *)

Lemma mapThrowing_None {X Y : Type} (f : X -> option Y) (l : list X) :
  ContentStrategistAgent.mapThrowing f l = None <-> Exists (fun x => f x = None) l.
Proof.
  induction l as [|x rest IH]; cbn.
  - split; [discriminate | intros H; inversion H].
  - destruct (f x) as [y|] eqn:Hx.
    + destruct (ContentStrategistAgent.mapThrowing f rest) as [ys|]; split.
      * discriminate.
      * intros H. inversion H as [? ? Hx'|? ? Hrest]; subst.
        -- congruence.
        -- apply IH in Hrest. discriminate.
      * intros _. apply Exists_cons_tl. now apply IH.
      * reflexivity.
    + split; [|reflexivity]. intros _. now apply Exists_cons_hd.
Qed.

Lemma outlineLine_None (section : OutlineSection) :
  ContentStrategistAgent.outlineLine section = None <-> os_level section = 0.
Proof.
  unfold ContentStrategistAgent.outlineLine.
  destruct (os_level section); split; congruence.
Qed.

Lemma level_zero_throws (input : ContentStrategistInput) :
  Exists (fun section => os_level section = 0)
    (ao_sections (csi_outline input)) ->
  ContentStrategistAgent.userContent input = None.
Proof.
  intros H. unfold ContentStrategistAgent.userContent,
    ContentStrategistAgent.outlineBlock.
  assert (E : ContentStrategistAgent.mapThrowing
                ContentStrategistAgent.outlineLine
                (ao_sections (csi_outline input)) = None).
  { apply mapThrowing_None. rewrite Exists_exists in *.
    destruct H as (x & Hin & Hx). exists x.
    split; [assumption | now apply outlineLine_None]. }
  now rewrite E.
Qed.

(** Building the prompt throws exactly when some section of the outline
    has level 0, whichever section is being planned: the indentation of
    a heading is [level - 1] tabs, and a negative count is a RangeError.
    The outline is printed in full for every section, so one such
    heading fails the call for each of them. *)
Theorem strategist_prompt_throws_on_a_level_zero_heading
  (input : ContentStrategistInput) :
  ContentStrategistAgent.userContent input = None <->
  Exists (fun section => os_level section = 0)
    (ao_sections (csi_outline input)).
Proof.
  unfold ContentStrategistAgent.userContent,
    ContentStrategistAgent.outlineBlock.
  assert (E : Exists (fun section => os_level section = 0)
                (ao_sections (csi_outline input))
              <-> Exists (fun section =>
                            ContentStrategistAgent.outlineLine section = None)
                    (ao_sections (csi_outline input))).
  { rewrite !Exists_exists. split; intros (x & Hin & Hx); exists x;
      (split; [assumption | now apply outlineLine_None]). }
  rewrite E, <- mapThrowing_None.
  destruct (ContentStrategistAgent.mapThrowing
              ContentStrategistAgent.outlineLine
              (ao_sections (csi_outline input))); cbn;
    split; congruence.
Qed.


Lemma occurs_append (c : ascii) (a b : string) :
  occurs c (a ++ b) = occurs c a || occurs c b.
Proof.
  induction a as [|d a IH]; cbn; [reflexivity|].
  now rewrite IH, orb_assoc.
Qed.

Lemma strategyItem_colon (strategy : SectionPlan) :
  occurs ":" (ContentStrategistAgent.strategyItem strategy) = true.
Proof.
  unfold ContentStrategistAgent.strategyItem.
  rewrite !occurs_append. cbn. now rewrite orb_true_r.
Qed.

Lemma join_items_colon (sep : string) (p : SectionPlan) (ps : list SectionPlan) :
  occurs ":" (ContentStrategistAgent.join sep
                (map ContentStrategistAgent.strategyItem (p :: ps))) = true.
Proof.
  cbn [map ContentStrategistAgent.join].
  destruct (map ContentStrategistAgent.strategyItem ps).
  - apply strategyItem_colon.
  - now rewrite occurs_append, strategyItem_colon.
Qed.

Lemma orElse_occurs (c : ascii) (s d : string) :
  occurs c s = true -> ContentStrategistAgent.orElse s d = s.
Proof. destruct s; [discriminate | reflexivity]. Qed.

(** The block of previous strategies is the sentence
    [No previous sections yet.] exactly when there is no previous plan:
    the argument is missing or is the empty array.  With at least one
    plan the block lists the plans and is never that sentence. *)
Theorem previous_block_is_the_placeholder_iff_no_plan
  (previous : option (list SectionPlan)) :
  ContentStrategistAgent.previousBlock previous
  = ContentStrategistAgent.noPrevious
  <-> previous = None \/ previous = Some [].
Proof.
  split.
  - destruct previous as [[|p ps]|]; auto. intros H. exfalso.
    unfold ContentStrategistAgent.previousBlock in H.
    pose proof (join_items_colon (JsString.nl ++ JsString.nl) p ps) as Hc.
    rewrite (@orElse_occurs _ _ ContentStrategistAgent.noPrevious Hc) in H.
    rewrite H in Hc. discriminate.
  - intros [->| ->]; reflexivity.
Qed.

Lemma planning_previous (env : Agents) (input : ArticleInput) :
  forall k i reply,
    nth_error (strategistCalls (snd (exec env 0 [] (planningPhases input)))) k
    = Some (i, reply) ->
    exists plans,
      previousStrategies i = Some plans /\ List.length plans = k.
Proof.
  unfold planningPhases. cbn [exec ask roleOf].
  destruct (outliner_run env
              {| oi_subject := subject input;
                 oi_customInstructions := customInstructions input |})
    as [out|e].
  - cbn [exec]. rewrite exec_bind.
    pose proof (strategyLoop_calls env input 0 (outline out)
                  (ao_sections (outline out)) [] [OUTLINER]) as H.
    cbv zeta in H.
    destruct (exec env 0 [OUTLINER]
                (strategyLoop input (outline out) (ao_sections (outline out)) []))
      as [[cs|e] tr]; cbn [fst snd exec] in *;
      cbn [strategistCalls strategistCall]; try rewrite app_nil_r;
      destruct H as [Hcalls _]; intros k i reply Hk;
      destruct (Hcalls k i reply Hk) as (P1 & P2 & _);
      eexists; split; eauto.
  - cbn. intros [|k] i reply H; discriminate.
Qed.

(** In a run, the content strategist is told [No previous sections yet.]
    at its first call and at no later one: from the second section on,
    its prompt lists the plans made so far. *)
Theorem only_the_first_plan_is_made_without_previous_ones
  (env : Agents) (input : ArticleInput) (k : nat)
  (i : ContentStrategistInput) (reply : Settled ContentStrategistOutput) :
  nth_error (strategistCalls (snd (exec env 0 [] (planningPhases input)))) k
  = Some (i, reply) ->
  (ContentStrategistAgent.previousBlock (previousStrategies i)
   = ContentStrategistAgent.noPrevious
   <-> k = 0).
Proof.
  intros Hk. destruct (planning_previous env input k Hk) as (plans & Hp & Hl).
  rewrite Hp. destruct plans as [|p ps]; cbn [List.length] in Hl; subst k.
  - split; reflexivity.
  - split; [|discriminate]. intros H. exfalso.
    unfold ContentStrategistAgent.previousBlock in H.
    pose proof (join_items_colon (JsString.nl ++ JsString.nl) p ps) as Hc.
    rewrite (@orElse_occurs _ _ ContentStrategistAgent.noPrevious Hc) in H.
    rewrite H in Hc. discriminate.
Qed.

(** When the outline has a heading of level 0 and the content strategist
    fails where building its prompt throws, the run is over after two
    calls: the first strategist call is rejected, whichever section it
    is for, and [writeArticle] is rejected with its error before any
    section is planned or written. *)
Theorem level_zero_heading_aborts_the_run
  (env : Agents) (sched : list nat) (input : ArticleInput)
  (out : OutlinerOutput) :
  outliner_run env (outlinerInput input) = Fulfilled out ->
  Exists (fun section => os_level section = 0) (ao_sections (outline out)) ->
  (forall n i,
     ContentStrategistAgent.userContent i = None ->
     exists e, contentStrategist_run env n i = Rejected e) ->
  exists first rest e,
    ao_sections (outline out) = first :: rest /\
    writeArticle env sched input
    = (Raised e,
       [Called 0 (OutlinerRun (outlinerInput input)) (Fulfilled out);
        Pushed OUTLINER (oo_usage out);
        Called 0 (ContentStrategistRun
                    (strategistInput input (outline out) first []))
          (Rejected e)]).
Proof.
  intros Hout Hzero Hthrows.
  destruct (ao_sections (outline out)) as [|first rest] eqn:Hsec;
    [inversion Hzero|].
  assert (Hnone : ContentStrategistAgent.userContent
                    (strategistInput input (outline out) first []) = None).
  { apply level_zero_throws. cbn [strategistInput csi_outline].
    now rewrite Hsec. }
  destruct (Hthrows 0 _ Hnone) as [e He].
  exists first, rest, e. split; [reflexivity|].
  unfold writeArticle, planningPhases. cbn [exec ask roleOf].
  fold (outlinerInput input). rewrite Hout. cbn [exec]. rewrite Hsec.
  cbn [strategyLoop bind exec ask roleOf].
  fold (strategistInput input (outline out) first []).
  change (countRole CONTENT_STRATEGIST [OUTLINER]) with 0.
  rewrite He. reflexivity.
Qed.

(** *** The cache of web searches *)

Section SearchCache.

Variables Params Response : Type.
Variable generateCacheKey : string -> Params -> string.

Lemma get_set_same (searchCache : WebSearch.Cache Response) (key : string) (value : Response) :
  WebSearch.get (WebSearch.set searchCache key value) key = Some value.
Proof.
  induction searchCache as [|[k v] rest IH]; cbn.
  - now rewrite String.eqb_refl.
  - destruct (String.eqb key k) eqn:E; cbn; rewrite E; [reflexivity | exact IH].
Qed.

Lemma get_set_other (searchCache : WebSearch.Cache Response) (key key' : string)
  (value : Response) :
  key' <> key ->
  WebSearch.get (WebSearch.set searchCache key value) key'
  = WebSearch.get searchCache key'.
Proof.
  intros Hne. induction searchCache as [|[k v] rest IH]; cbn.
  - destruct (String.eqb key' key) eqn:E; [|reflexivity].
    apply String.eqb_eq in E. contradiction.
  - destruct (String.eqb key k) eqn:E; cbn.
    + apply String.eqb_eq in E. subst k.
      destruct (String.eqb key' key) eqn:E'; [|reflexivity].
      apply String.eqb_eq in E'. contradiction.
    + destruct (String.eqb key' k); [reflexivity | exact IH].
Qed.



(** What the cache holds stays: a search changes no entry that was
    there before, so a cached response is never refreshed. *)
Theorem cached_entries_are_kept
  (tavily : string -> Params -> Settled Response)
  (searchCache : WebSearch.Cache Response) (query : string) (params : Params)
  (key : string) (response : Response) :
  WebSearch.get searchCache key = Some response ->
  WebSearch.get
    (snd (WebSearch.webSearch generateCacheKey tavily searchCache query params))
    key
  = Some response.
Proof.
  intros Hkey. unfold WebSearch.webSearch, WebSearch.start.
  destruct (WebSearch.get searchCache (generateCacheKey query params))
    as [r|] eqn:Hget; [exact Hkey|].
  unfold WebSearch.finish.
  destruct (tavily query params) as [r|e]; [|exact Hkey]. cbn [snd].
  rewrite get_set_other; [exact Hkey|].
  intros ->. congruence.
Qed.

(** Searches in flight are not shared.  A search that finds nothing in
    the cache asks the provider, and the cache is written only when the
    answer arrives.  A second search with the same key that starts in
    between reads the same cache, so it asks the provider too; when both
    are answered, each caller has its own answer, and the cache holds
    the one that arrived last. *)
Theorem overlapping_searches_both_ask_the_provider
  (searchCache : WebSearch.Cache Response) (query : string) (params : Params)
  (cacheKey : string) (first second : Response) :
  WebSearch.start generateCacheKey searchCache query params
  = WebSearch.Searching cacheKey ->
  let one := WebSearch.finish searchCache cacheKey (Fulfilled first) in
  let two := WebSearch.finish (snd one) cacheKey (Fulfilled second) in
  fst one = WebSearch.Results first /\
  fst two = WebSearch.Results second /\
  WebSearch.start generateCacheKey (snd two) query params
  = WebSearch.Cached second.
Proof.
  intros Hstart. cbv zeta. cbn [WebSearch.finish fst snd].
  repeat split.
  unfold WebSearch.start in *.
  destruct (WebSearch.get searchCache (generateCacheKey query params));
    [discriminate|].
  inversion Hstart; subst cacheKey. now rewrite get_set_same.
Qed.

End SearchCache.

(** *** The completion order *)

Section Order.

Context {A : Type}.
Variable env : Agents.






End Order.




(** ** The further properties at concrete inputs *)

Lemma run_settles_witness :
  (forall out,
     outliner_run Stub.scenarioA (outlinerInput Stub.input) = Fulfilled out ->
     2 * MAX_ITERATIONS * List.length (ao_sections (outline out))
     <= List.length Stub.sched12) /\
  fst (writeArticle Stub.scenarioA Stub.sched12 Stub.input) <> Running.
Proof.
  assert (H : forall out,
             outliner_run Stub.scenarioA (outlinerInput Stub.input)
             = Fulfilled out ->
             2 * MAX_ITERATIONS * List.length (ao_sections (outline out))
             <= List.length Stub.sched12).
  { intros out E. inversion E; subst out. vm_compute. lia. }
  split; [exact H|].
  exact (@run_settles_within_six_calls_per_section
           Stub.scenarioA Stub.sched12 Stub.input H).
Defined.

Lemma section_returns_witness :
  let c := {| sc_heading := "Body"; sc_content := "third draft";
              sc_references := None |} in
  fst (exec Stub.scenarioA 1 [] (sectionTask Stub.input Faulty.body))
  = Fulfilled c /\
  exists pre wi w pre' ei eo,
    drafts (snd (exec Stub.scenarioA 1 [] (sectionTask Stub.input Faulty.body)))
    = (pre ++ [(wi, Fulfilled w)])%list /\
    reviews (snd (exec Stub.scenarioA 1 [] (sectionTask Stub.input Faulty.body)))
    = (pre' ++ [(ei, Fulfilled eo)])%list /\
    c = content w /\
    ei_content ei = c /\
    (approved (eo_feedback eo) = true \/
     List.length
       (reviews (snd (exec Stub.scenarioA 1 []
                        (sectionTask Stub.input Faulty.body))))
     = MAX_ITERATIONS).
Proof.
  intros c.
  assert (H : fst (exec Stub.scenarioA 1 []
                     (sectionTask Stub.input Faulty.body)) = Fulfilled c)
    by (vm_compute; reflexivity).
  split; [exact H|].
  exact (@section_returns_its_last_reviewed_draft
           Stub.scenarioA 1 Stub.input Faulty.body c H).
Defined.

Lemma section_is_rejected_witness :
  fst (exec Faulty.editorDown 1 [] (sectionTask Stub.input Faulty.body))
  = Rejected "rate limit" /\
  exists pre c,
    snd (exec Faulty.editorDown 1 [] (sectionTask Stub.input Faulty.body))
    = (pre ++ [Called 1 c (Rejected "rate limit")])%list /\
    draftingRole (roleOf c).
Proof.
  assert (H : fst (exec Faulty.editorDown 1 []
                     (sectionTask Stub.input Faulty.body))
              = Rejected "rate limit")
    by (vm_compute; reflexivity).
  split; [exact H|].
  exact (@section_is_rejected_only_by_a_failed_call
           Faulty.editorDown 1 Stub.input Faulty.body "rate limit" H).
Defined.

Lemma empty_outline_witness :
  (outliner_run Faulty.noSections (outlinerInput Stub.input)
   = Fulfilled Faulty.emptyOutline /\
   ao_sections (outline Faulty.emptyOutline) = []) /\
  fst (writeArticle Faulty.noSections [] Stub.input) <> Running.
Proof.
  assert (H1 : outliner_run Faulty.noSections (outlinerInput Stub.input)
               = Fulfilled Faulty.emptyOutline) by reflexivity.
  assert (H2 : ao_sections (outline Faulty.emptyOutline) = []) by reflexivity.
  split; [split; assumption|].
  exact (proj1 (@empty_outline_goes_straight_to_the_final_review
                  Faulty.noSections [] Stub.input Faulty.emptyOutline H1 H2)).
Defined.

Lemma only_the_first_plan_witness :
  let i := strategistInput Stub.input (outline Stub.outlined)
             (Stub.section "Body")
             [ {| sp_heading := "Intro"; sp_keyPoints := [];
                  sp_references := None |} ] in
  let reply := Fulfilled {| plan := Faulty.body; cso_usage := Stub.usage |} in
  nth_error
    (strategistCalls
       (snd (exec Stub.scenarioA 0 [] (planningPhases Stub.input)))) 1
  = Some (i, reply) /\
  (ContentStrategistAgent.previousBlock (previousStrategies i)
   = ContentStrategistAgent.noPrevious
   <-> 1 = 0).
Proof.
  intros i reply.
  assert (H : nth_error
                (strategistCalls
                   (snd (exec Stub.scenarioA 0 []
                           (planningPhases Stub.input)))) 1
              = Some (i, reply)) by (vm_compute; reflexivity).
  split; [exact H|].
  exact (@only_the_first_plan_is_made_without_previous_ones
           Stub.scenarioA Stub.input 1 i reply H).
Defined.

Lemma level_zero_witness :
  (outliner_run Faulty.levelZero (outlinerInput Stub.input)
   = Fulfilled Faulty.flat /\
   Exists (fun section => os_level section = 0)
     (ao_sections (outline Faulty.flat)) /\
   (forall n i,
      ContentStrategistAgent.userContent i = None ->
      exists e, contentStrategist_run Faulty.levelZero n i = Rejected e)) /\
  exists first rest e,
    ao_sections (outline Faulty.flat) = first :: rest /\
    writeArticle Faulty.levelZero Stub.sched12 Stub.input
    = (Raised e,
       [Called 0 (OutlinerRun (outlinerInput Stub.input))
          (Fulfilled Faulty.flat);
        Pushed OUTLINER (oo_usage Faulty.flat);
        Called 0 (ContentStrategistRun
                    (strategistInput Stub.input (outline Faulty.flat) first []))
          (Rejected e)]).
Proof.
  assert (H1 : outliner_run Faulty.levelZero (outlinerInput Stub.input)
               = Fulfilled Faulty.flat) by reflexivity.
  assert (H2 : Exists (fun section => os_level section = 0)
                 (ao_sections (outline Faulty.flat))).
  { cbn. apply Exists_cons_tl. apply Exists_cons_hd. reflexivity. }
  assert (H3 : forall n i,
             ContentStrategistAgent.userContent i = None ->
             exists e, contentStrategist_run Faulty.levelZero n i = Rejected e).
  { intros n i Hi. cbn. rewrite Hi. eexists. reflexivity. }
  split; [repeat split; assumption|].
  exact (@level_zero_heading_aborts_the_run
           Faulty.levelZero Stub.sched12 Stub.input Faulty.flat H1 H2 H3).
Defined.



Lemma cached_entries_witness :
  WebSearch.get [("coq", "old")] "coq" = Some "old" /\
  WebSearch.get
    (snd (WebSearch.webSearch Faulty.queryOnly Faulty.echo [("coq", "old")]
            "rocq" 5))
    "coq"
  = Some "old".
Proof.
  assert (H : WebSearch.get [("coq", "old")] "coq" = Some "old")
    by reflexivity.
  split; [exact H|].
  exact (@cached_entries_are_kept nat string Faulty.queryOnly Faulty.echo
           [("coq", "old")] "rocq" 5 "coq" "old" H).
Defined.

Lemma overlapping_searches_witness :
  WebSearch.start Faulty.queryOnly (@nil (string * string)) "rocq" 5
  = WebSearch.Searching "rocq" /\
  WebSearch.start Faulty.queryOnly
    (snd (WebSearch.finish
            (snd (WebSearch.finish [] "rocq" (Fulfilled "first")))
            "rocq" (Fulfilled "second")))
    "rocq" 5
  = WebSearch.Cached "second".
Proof.
  assert (H : WebSearch.start Faulty.queryOnly (@nil (string * string))
                "rocq" 5
              = WebSearch.Searching "rocq") by reflexivity.
  split; [exact H|].
  exact (proj2 (proj2 (@overlapping_searches_both_ask_the_provider
                         nat string Faulty.queryOnly [] "rocq" 5 "rocq"
                         "first" "second" H))).
Defined.

